(** * ThreeJSManager: the isometric scene adapter of the tower-defense game

    A shallow embedding of [web/src/renderer/threejs-manager.ts].

    - JavaScript numbers are IEEE-754 binary64 values, modelled with the
      Standard Library's executable specification of floating-point
      arithmetic ([SpecFloat], instantiated at precision 53 and maximal
      exponent 1024).
    - three.js objects, geometries and materials live in a store indexed
      by handles; the manager's fields hold handles, so that aliasing
      between [scene.children] and [sceneObjects] is explicit.
    - What the browser and three.js compute (the DOM lookup, the bounding
      rectangle, ray casting, camera projection) is an input of each call,
      gathered in the record [Env]. *)

From Stdlib Require Import ZArith Lia List Bool.
From Stdlib Require Import Floats.SpecFloat.
From stdpp Require Import base option list strings gmap.

Local Open Scope Z_scope.

(** ** JavaScript numbers *)

Definition number : Type := spec_float.

Definition prec : Z := 53.
Definition emax : Z := 1024.

(** The double nearest to an integer (exact below 2^53). *)
Definition num (z : Z) : number := binary_normalize prec emax z 0 false.

Module Number.

Definition NaN : number := S754_nan.

Definition add : number -> number -> number := SFadd prec emax.
Definition sub : number -> number -> number := SFsub prec emax.
Definition mul : number -> number -> number := SFmul prec emax.
Definition div : number -> number -> number := SFdiv prec emax.
Definition neg : number -> number := SFopp.

(** The comparisons of JavaScript: false as soon as one side is NaN. *)
Definition lt (x y : number) : bool := SFltb x y.
Definition gt (x y : number) : bool := SFltb y x.
Definition le (x y : number) : bool := SFleb x y.
Definition ge (x y : number) : bool := SFleb y x.

End Number.

Declare Scope number_scope.
Delimit Scope number_scope with number.
Bind Scope number_scope with number.
Infix "+" := Number.add : number_scope.
Infix "-" := Number.sub : number_scope.
Infix "*" := Number.mul : number_scope.
Infix "/" := Number.div : number_scope.
Notation "- x" := (Number.neg x) : number_scope.
Infix "<?" := Number.lt : number_scope.
Infix ">?" := Number.gt : number_scope.
Infix "<=?" := Number.le : number_scope.
Infix ">=?" := Number.ge : number_scope.

#[global] Arguments num : simpl never.
#[global] Arguments Number.add : simpl never.
#[global] Arguments Number.sub : simpl never.
#[global] Arguments Number.mul : simpl never.
#[global] Arguments Number.div : simpl never.
#[global] Arguments Number.lt : simpl never.
#[global] Arguments Number.gt : simpl never.
#[global] Arguments Number.le : simpl never.
#[global] Arguments Number.ge : simpl never.

(** A decimal literal [n / d], rounded to the nearest double as the
    JavaScript parser does ([dec 8 10] is the literal [0.8]). *)
Definition dec (n d : Z) : number := (num n / num d)%number.

#[global] Instance spec_float_eq_dec : EqDecision spec_float.
Proof. solve_decision. Defined.

Module Math.

(** [Math.floor]: the largest integer below the argument.  A finite
    double [(-1)^s * m * 2^e] is floored exactly on integers;
    zeros, infinities and NaN are returned as they are. *)
Definition floor (x : number) : number :=
  match x with
  | S754_finite s m e => num (Z.shiftl (cond_Zopp s (Zpos m)) e)
  | _ => x
  end.

(** [Math.max] of two arguments: NaN if one is NaN, and [+0] above [-0]. *)
Definition max (x y : number) : number :=
  match x, y with
  | S754_nan, _ | _, S754_nan => S754_nan
  | S754_zero sx, S754_zero sy => S754_zero (sx && sy)
  | _, _ => if (x <? y)%number then y else x
  end.

End Math.

(** ** Vectors *)

Record Vec2 := mkVec2 { x2 : number; y2 : number }.
Record Vec3 := mkVec3 { x3 : number; y3 : number; z3 : number }.

#[global] Instance Vec2_eq_dec : EqDecision Vec2.
Proof. solve_decision. Defined.
#[global] Instance Vec3_eq_dec : EqDecision Vec3.
Proof. solve_decision. Defined.

(** ** The fields that never change *)

Definition gridSize : number := num 40.
Definition originalWidth : number := num 800.
Definition originalHeight : number := num 600.

(** ** Coordinate conversion *)

(** The snapping of [screenToWorld]:
    [Math.floor(p / gridSize) * gridSize + gridSize / 2]. *)
Definition snap (p : number) : number :=
  (Math.floor (p / gridSize) * gridSize + gridSize / num 2)%number.

Definition worldToGameCoords (worldX worldY worldZ : number) : Vec2 :=
  let gameX := (worldX + originalWidth / num 2)%number in
  let gameY := (worldZ + originalHeight / num 2)%number in
  {| x2 := gameX; y2 := gameY |}.

Definition gameToWorldCoords (gameX gameY : number) : Vec3 :=
  let worldX := (gameX - originalWidth / num 2)%number in
  let worldZ := (gameY - originalHeight / num 2)%number in
  {| x3 := worldX; y3 := num 0; z3 := worldZ |}.

(** [worldToGameCoords] applied to the three components of a world position. *)
Definition roundTrip (gameX gameY : number) : Vec2 :=
  let w := gameToWorldCoords gameX gameY in
  worldToGameCoords (x3 w) (y3 w) (z3 w).

(** ** The three.js store

    Objects, geometries and materials are referred to by handles: the
    index at which they were allocated.  Only what the manager reads or
    writes is kept; attributes used by the renderer alone (rotation,
    shadows, opacity, textures, light intensities) are left out. *)

Abbreviation handle := nat (only parsing).

Inductive Color :=
| Hex (c : Z)                        (* [0x00ffee], [color.set(0xff0000)] *)
| RGB (r g b : number).              (* [new THREE.Color(r, g, b)] *)

Inductive Shape :=
| BoxGeometry (width height depth : number)
| SphereGeometry (radius : number)
| CircleGeometry (radius : number)
| PlaneGeometry (width height : number)
| BufferGeometry (points : list Vec3).

Record Geometry := mkGeometry {
  shape : Shape;
  gdisposed : bool }.

Inductive MaterialKind :=
| MeshBasicMaterial | MeshStandardMaterial | LineBasicMaterial.

Record Material := mkMaterial {
  mkind : MaterialKind;
  color : Color;
  emissive : option Color;
  wireframe : bool;
  mdisposed : bool }.

(** The classes the manager instantiates; [clear] asks [instanceof THREE.Mesh]. *)
Inductive ObjKind := Mesh | Line | Group | Light | GridHelper.

#[global] Instance ObjKind_eq_dec : EqDecision ObjKind.
Proof. solve_decision. Defined.

(** [obj.material]: absent, one material, or an array of materials. *)
Inductive MaterialRef :=
| NoMaterial
| One (m : handle)
| Many (ms : list handle).

Record Object3D := mkObject {
  okind : ObjKind;
  geometry : option handle;
  material : MaterialRef;
  visible : bool;
  position : Vec3;
  scale : Vec3;
  parts : list handle }.               (* children of a group *)

(** The scene graph: [scene.children] and the store behind the handles. *)
Record Scene := mkScene {
  children : list handle;
  objects : list Object3D;
  geometries : list Geometry;
  materials : list Material }.

Definition origin : Vec3 := mkVec3 (num 0) (num 0) (num 0).
Definition ones : Vec3 := mkVec3 (num 1) (num 1) (num 1).

Definition newGeometry (s : Shape) (sc : Scene) : handle * Scene :=
  (length (geometries sc),
   mkScene (children sc) (objects sc)
           (geometries sc ++ [mkGeometry s false]) (materials sc)).

Definition newMaterial (k : MaterialKind) (c : Color) (e : option Color)
    (w : bool) (sc : Scene) : handle * Scene :=
  (length (materials sc),
   mkScene (children sc) (objects sc) (geometries sc)
           (materials sc ++ [mkMaterial k c e w false])).

(** A fresh object: visible, at the origin, at scale one. *)
Definition newObject (k : ObjKind) (g : option handle) (m : MaterialRef)
    (ps : list handle) (sc : Scene) : handle * Scene :=
  (length (objects sc),
   mkScene (children sc)
           (objects sc ++ [mkObject k g m true origin ones ps])
           (geometries sc) (materials sc)).

Definition updateObject (h : handle) (f : Object3D -> Object3D) (sc : Scene) : Scene :=
  mkScene (children sc) (alter f h (objects sc)) (geometries sc) (materials sc).

Definition setVisible (b : bool) (o : Object3D) : Object3D :=
  mkObject (okind o) (geometry o) (material o) b (position o) (scale o) (parts o).

Definition setPosition (p : Vec3) (o : Object3D) : Object3D :=
  mkObject (okind o) (geometry o) (material o) (visible o) p (scale o) (parts o).

Definition setScale (s : Vec3) (o : Object3D) : Object3D :=
  mkObject (okind o) (geometry o) (material o) (visible o) (position o) s (parts o).

Definition setColor (c : Color) (m : Material) : Material :=
  mkMaterial (mkind m) c (emissive m) (wireframe m) (mdisposed m).

(** [(mesh.material as THREE.MeshBasicMaterial).color.set(c)] *)
Definition setMaterialColor (h : handle) (c : Color) (sc : Scene) : Scene :=
  match objects sc !! h with
  | Some o =>
      match material o with
      | One m => mkScene (children sc) (objects sc) (geometries sc)
                         (alter (setColor c) m (materials sc))
      | _ => sc
      end
  | None => sc
  end.

(** [geometry.dispose()] and [material.dispose()] *)
Definition disposeGeometry (g : handle) (sc : Scene) : Scene :=
  mkScene (children sc) (objects sc)
          (alter (fun x => mkGeometry (shape x) true) g (geometries sc))
          (materials sc).

Definition disposeMaterial (m : handle) (sc : Scene) : Scene :=
  mkScene (children sc) (objects sc) (geometries sc)
          (alter (fun x => mkMaterial (mkind x) (color x) (emissive x) (wireframe x) true)
                 m (materials sc)).

(** [scene.add(obj)] of an object that is not in the scene yet, and [scene.remove(obj)]. *)
Definition Scene_add (h : handle) (sc : Scene) : Scene :=
  mkScene (children sc ++ [h]) (objects sc) (geometries sc) (materials sc).

Definition Scene_remove (h : handle) (sc : Scene) : Scene :=
  mkScene (filter (fun c => c <> h) (children sc))
          (objects sc) (geometries sc) (materials sc).

(** ** The manager's state *)

Record Camera := mkCamera {
  camLeft : number; camRight : number; camTop : number; camBottom : number }.

Record Element := mkElement { clientWidth : number; clientHeight : number }.

Record Rect := mkRect {
  rleft : number; rtop : number; rwidth : number; rheight : number }.

Inductive Surface := RendererCanvas | TextCanvas.

#[global] Instance Surface_eq_dec : EqDecision Surface.
Proof. solve_decision. Defined.

Record TextItem := mkText {
  tx : number; ty : number; ttext : string; tsize : number; tcolor : Color }.

Inductive GameApp := NoGameApp | NoWasmLoader | WasmLoader.

(** What the browser and three.js answer during a call. *)
Record Env := mkEnv {
  (* [document.getElementById] *)
  document : gmap string Element;
  (* whether [canvas.getContext('2d')] gives a context *)
  context2d : bool;
  (* [window.gameApp] and its [wasmLoader] *)
  gameApp : GameApp;
  (* [renderer.domElement.getBoundingClientRect()] *)
  boundingClientRect : Rect;
  (* [raycaster.setFromCamera(mouse, camera)] then
     [raycaster.intersectObject(groundPlane)]: the hit points, nearest first *)
  intersectObject : Vec2 -> Camera -> list Vec3;
  (* [vector.project(camera)] *)
  project : Vec3 -> Camera -> Vec3 }.

Record State := mkState {
  container : option string;
  scene : Scene;
  camera : Camera;
  rendererSize : number * number;
  attached : list Surface;
  listeners : list string;
  mouse : Vec2;
  currentHoverPosition : Vec2;
  selectedTowerType : number;
  groundPlane : option handle;
  towerPreviewMesh : option handle;
  rangePreviewMesh : option handle;
  invalidPlacementMesh : option handle;
  textCanvas : number * number;
  textContext : option (list TextItem);
  sceneObjects : list handle }.

Definition withScene (sc : Scene) (st : State) : State :=
  mkState (container st) sc (camera st) (rendererSize st) (attached st)
    (listeners st) (mouse st) (currentHoverPosition st) (selectedTowerType st)
    (groundPlane st) (towerPreviewMesh st) (rangePreviewMesh st)
    (invalidPlacementMesh st) (textCanvas st) (textContext st) (sceneObjects st).

Definition withSceneObjects (l : list handle) (st : State) : State :=
  mkState (container st) (scene st) (camera st) (rendererSize st) (attached st)
    (listeners st) (mouse st) (currentHoverPosition st) (selectedTowerType st)
    (groundPlane st) (towerPreviewMesh st) (rangePreviewMesh st)
    (invalidPlacementMesh st) (textCanvas st) (textContext st) l.

Definition withMouse (m : Vec2) (st : State) : State :=
  mkState (container st) (scene st) (camera st) (rendererSize st) (attached st)
    (listeners st) m (currentHoverPosition st) (selectedTowerType st)
    (groundPlane st) (towerPreviewMesh st) (rangePreviewMesh st)
    (invalidPlacementMesh st) (textCanvas st) (textContext st) (sceneObjects st).

Definition withHover (p : Vec2) (st : State) : State :=
  mkState (container st) (scene st) (camera st) (rendererSize st) (attached st)
    (listeners st) (mouse st) p (selectedTowerType st)
    (groundPlane st) (towerPreviewMesh st) (rangePreviewMesh st)
    (invalidPlacementMesh st) (textCanvas st) (textContext st) (sceneObjects st).

Definition withTextContext (c : option (list TextItem)) (st : State) : State :=
  mkState (container st) (scene st) (camera st) (rendererSize st) (attached st)
    (listeners st) (mouse st) (currentHoverPosition st) (selectedTowerType st)
    (groundPlane st) (towerPreviewMesh st) (rangePreviewMesh st)
    (invalidPlacementMesh st) (textCanvas st) c (sceneObjects st).

Definition sentinel : Vec2 := mkVec2 (num (-1)) (num (-1)).

(** ** Construction and initialisation *)

Definition frustumSize : number := num 600.

(** The orthographic frustum for an aspect ratio (constructor and [handleResize]). *)
Definition frustum (aspectRatio : number) : Camera :=
  mkCamera (frustumSize * aspectRatio / num (-2))%number
           (frustumSize * aspectRatio / num 2)%number
           (frustumSize / num 2)%number
           (frustumSize / num (-2))%number.

(** [new THREE.…Light(…)], optionally [position.set(p)], then [scene.add]. *)
Definition addLight (p : option Vec3) (sc : Scene) : Scene :=
  let '(light, sc1) := newObject Light None NoMaterial [] sc in
  let sc2 := match p with
             | Some v => updateObject light (setPosition v) sc1
             | None => sc1
             end in
  Scene_add light sc2.

Definition constructor (env : Env) : State :=
  let sc0 := mkScene [] [] [] [] in
  (* ambientLight, directionalLight, fillLight, rimLight *)
  let sc1 := addLight None sc0 in
  let sc2 := addLight (Some (mkVec3 (num 300) (num 400) (num 300))) sc1 in
  let sc3 := addLight (Some (mkVec3 (num (-300)) (num 200) (num (-300)))) sc2 in
  let sc4 := addLight (Some (mkVec3 (num 0) (num (-200)) (num 0))) sc3 in
  {| container := None;
     scene := sc4;
     camera := frustum (originalWidth / originalHeight)%number;
     rendererSize := (num 300, num 150);
     attached := [];
     listeners := [];
     mouse := mkVec2 (num 0) (num 0);
     currentHoverPosition := sentinel;
     selectedTowerType := num 0;
     groundPlane := None;
     towerPreviewMesh := None;
     rangePreviewMesh := None;
     invalidPlacementMesh := None;
     textCanvas := (num 300, num 150);
     textContext := if context2d env then Some [] else None;
     sceneObjects := [] |}.

Definition setParts (ps : list handle) (o : Object3D) : Object3D :=
  mkObject (okind o) (geometry o) (material o) (visible o) (position o) (scale o) ps.

Definition accent : Color := Hex 0x00ffee.
Definition red : Color := Hex 0xff0000.

(** The scene part of [createTowerPreviewMeshes]: the handles of the
    placement cube, the range disc and the invalid-placement marker. *)
Definition createTowerPreviewMeshes (sc : Scene) : (handle * handle * handle) * Scene :=
  let size := num 30 in
  let '(previewGeometry, sc) :=
    newGeometry (BoxGeometry (size * dec 8 10) size (size * dec 8 10))%number sc in
  let '(previewMaterial, sc) := newMaterial MeshBasicMaterial accent None false sc in
  let '(towerPreviewMesh, sc) := newObject Mesh (Some previewGeometry) (One previewMaterial) [] sc in
  let sc := updateObject towerPreviewMesh (setVisible false) sc in
  let sc := Scene_add towerPreviewMesh sc in
  let '(rangeGeometry, sc) := newGeometry (CircleGeometry (num 100)) sc in
  let '(rangeMaterial, sc) := newMaterial MeshBasicMaterial accent None false sc in
  let '(rangePreviewMesh, sc) := newObject Mesh (Some rangeGeometry) (One rangeMaterial) [] sc in
  let sc := updateObject rangePreviewMesh (setVisible false) sc in
  let sc := Scene_add rangePreviewMesh sc in
  let '(invalidPlacementMesh, sc) := newObject Group None NoMaterial [] sc in
  let '(lineGeometry1, sc) := newGeometry (BoxGeometry (num 30) (num 5) (num 5)) sc in
  let '(lineGeometry2, sc) := newGeometry (BoxGeometry (num 5) (num 30) (num 5)) sc in
  let '(lineMaterial, sc) := newMaterial MeshBasicMaterial red None false sc in
  let '(line1, sc) := newObject Mesh (Some lineGeometry1) (One lineMaterial) [] sc in
  let '(line2, sc) := newObject Mesh (Some lineGeometry2) (One lineMaterial) [] sc in
  let sc := updateObject invalidPlacementMesh (setParts [line1; line2]) sc in
  let sc := updateObject invalidPlacementMesh (setVisible false) sc in
  let sc := Scene_add invalidPlacementMesh sc in
  ((towerPreviewMesh, rangePreviewMesh, invalidPlacementMesh), sc).

Definition createGroundPlane (st : State) : State :=
  let sc := scene st in
  let '(groundGeometry, sc) := newGeometry (PlaneGeometry originalWidth originalHeight) sc in
  let '(groundMaterial, sc) := newMaterial MeshStandardMaterial (Hex 0x222222) None false sc in
  let '(ground, sc) := newObject Mesh (Some groundGeometry) (One groundMaterial) [] sc in
  let sc := Scene_add ground sc in
  let '(gridHelper, sc) := newObject GridHelper None NoMaterial [] sc in
  let sc := updateObject gridHelper (setPosition (mkVec3 (num 0) (dec 1 10) (num 0))) sc in
  let sc := Scene_add gridHelper sc in
  let '((tower, range, invalid), sc) := createTowerPreviewMeshes sc in
  mkState (container st) sc (camera st) (rendererSize st) (attached st)
    (listeners st) (mouse st) (currentHoverPosition st) (selectedTowerType st)
    (Some ground) (Some tower) (Some range) (Some invalid)
    (textCanvas st) (textContext st) (sceneObjects st).

Definition setupEventListeners (st : State) : State :=
  mkState (container st) (scene st) (camera st) (rendererSize st) (attached st)
    (listeners st ++ ["mousemove"; "mouseleave"; "click";
                      "touchstart"; "touchmove"; "touchend"; "resize"]%string)
    (mouse st) (currentHoverPosition st) (selectedTowerType st)
    (groundPlane st) (towerPreviewMesh st) (rangePreviewMesh st)
    (invalidPlacementMesh st) (textCanvas st) (textContext st) (sceneObjects st).

(** The client size of the container; an element that has left the
    document has no layout box, so its client size is zero. *)
Definition clientSize (env : Env) (id : string) : Element :=
  default (mkElement (num 0) (num 0)) (document env !! id).

Definition handleResize (env : Env) (st : State) : State :=
  match container st with
  | None => st
  | Some id =>
      let containerWidth := clientWidth (clientSize env id) in
      let containerHeight := clientHeight (clientSize env id) in
      let aspectRatio := (containerWidth / containerHeight)%number in
      mkState (container st) (scene st) (frustum aspectRatio)
        (containerWidth, containerHeight) (attached st)
        (listeners st) (mouse st) (currentHoverPosition st) (selectedTowerType st)
        (groundPlane st) (towerPreviewMesh st) (rangePreviewMesh st)
        (invalidPlacementMesh st) (containerWidth, containerHeight)
        (textContext st) (sceneObjects st)
  end.

(** [container.appendChild(node)]: the node becomes the last child. *)
Definition appendChild (s : Surface) (l : list Surface) : list Surface :=
  filter (fun c => c <> s) l ++ [s].

Inductive Result (A : Type) :=
| Return (a : A)
| Throw (message : string).
Arguments Return {A} a.
Arguments Throw {A} message.

Definition containerId : string := "canvas-container".

(** [initialize()]: the state it leaves, and what it returns or throws. *)
Definition initialize (env : Env) (st : State) : State * Result (number * number) :=
  let found := document env !! containerId in
  let st0 :=
    mkState (match found with Some _ => Some containerId | None => None end)
      (scene st) (camera st) (rendererSize st) (attached st)
      (listeners st) (mouse st) (currentHoverPosition st) (selectedTowerType st)
      (groundPlane st) (towerPreviewMesh st) (rangePreviewMesh st)
      (invalidPlacementMesh st) (textCanvas st) (textContext st) (sceneObjects st) in
  match found with
  | None => (st0, Throw "Container element not found")
  | Some _ =>
      let st1 :=
        mkState (container st0) (scene st0) (camera st0)
          (originalWidth, originalHeight)
          (appendChild TextCanvas (appendChild RendererCanvas (attached st0)))
          (listeners st0) (mouse st0) (currentHoverPosition st0) (selectedTowerType st0)
          (groundPlane st0) (towerPreviewMesh st0) (rangePreviewMesh st0)
          (invalidPlacementMesh st0) (originalWidth, originalHeight)
          (textContext st0) (sceneObjects st0) in
      let st2 := createGroundPlane st1 in
      let st3 := setupEventListeners st2 in
      let st4 := handleResize env st3 in
      (st4, Return (originalWidth, originalHeight))
  end.

(** ** Pointer input *)

(** [screenToWorld]: the pointer vector of the ray caster is overwritten,
    then the first hit on the ground plane, if any, is snapped to the grid. *)
Definition screenToWorld (env : Env) (screenX screenY : number) (st : State)
    : State * option Vec3 :=
  match groundPlane st with
  | None => (st, None)
  | Some _ =>
      let rect := boundingClientRect env in
      let m :=
        mkVec2 ((screenX - rleft rect) / rwidth rect * num 2 - num 1)%number
               (- ((screenY - rtop rect) / rheight rect) * num 2 + num 1)%number in
      let st1 := withMouse m st in
      match intersectObject env m (camera st1) with
      | point :: _ =>
          let snappedX := snap (x3 point) in
          let snappedZ := snap (z3 point) in
          (st1, Some (mkVec3 snappedX (num 0) snappedZ))
      | [] => (st1, None)
      end
  end.

(** The hover update shared by [handleMouseMove], [handleTouchStart] and
    [handleTouchMove]. *)
Definition hoverAt (env : Env) (clientX clientY : number) (st : State) : State :=
  match screenToWorld env clientX clientY st with
  | (st1, Some worldPos) =>
      let gamePos := worldToGameCoords (x3 worldPos) (y3 worldPos) (z3 worldPos) in
      withHover gamePos st1
  | (st1, None) => st1
  end.

Definition handleMouseMove (env : Env) (clientX clientY : number) (st : State) : State :=
  hoverAt env clientX clientY st.

(** [if (mesh) mesh.visible = false] *)
Definition hide (mesh : option handle) (sc : Scene) : Scene :=
  match mesh with
  | Some h => updateObject h (setVisible false) sc
  | None => sc
  end.

Definition hidePreview (st : State) : State :=
  withScene
    (hide (invalidPlacementMesh st)
       (hide (rangePreviewMesh st)
          (hide (towerPreviewMesh st) (scene st)))) st.

Definition handleMouseLeave (st : State) : State :=
  hidePreview (withHover sentinel st).

(** [gameApp && gameApp.wasmLoader] *)
Definition hasWasmLoader (env : Env) : bool :=
  match gameApp env with
  | WasmLoader => true
  | _ => false
  end.

(** The handlers that may call [gameApp.wasmLoader.handleClick(x, y)]
    return the list of the calls they made, in order. *)
Definition handleClick (env : Env) (clientX clientY : number) (st : State)
    : State * list Vec2 :=
  match screenToWorld env clientX clientY st with
  | (st1, Some worldPos) =>
      let gamePos := worldToGameCoords (x3 worldPos) (y3 worldPos) (z3 worldPos) in
      if hasWasmLoader env then (st1, [gamePos]) else (st1, [])
  | (st1, None) => (st1, [])
  end.

Definition handleTouchStart (env : Env) (touches : list Vec2) (st : State) : State :=
  match touches with
  | [touch] => hoverAt env (x2 touch) (y2 touch) st
  | _ => st
  end.

Definition handleTouchMove (env : Env) (touches : list Vec2) (st : State) : State :=
  match touches with
  | [touch] => hoverAt env (x2 touch) (y2 touch) st
  | _ => st
  end.

Definition handleTouchEnd (env : Env) (st : State) : State * list Vec2 :=
  let hover := currentHoverPosition st in
  let calls :=
    if hasWasmLoader env && (x2 hover >=? num 0)%number && (y2 hover >=? num 0)%number
    then [hover] else [] in
  (withHover sentinel st, calls).

(** ** The frame: [clear], the draw calls, the preview *)

Definition disposeMaterials (m : MaterialRef) (sc : Scene) : Scene :=
  match m with
  | NoMaterial => sc
  | One h => disposeMaterial h sc
  | Many hs => foldl (fun s h => disposeMaterial h s) sc hs
  end.

(** The body of the loop of [clear] for one tracked object. *)
Definition clearObject (sc : Scene) (obj : handle) : Scene :=
  let sc1 := Scene_remove obj sc in
  match objects sc1 !! obj with
  | Some o =>
      match okind o with
      | Mesh =>
          let sc2 := match geometry o with
                     | Some g => disposeGeometry g sc1
                     | None => sc1
                     end in
          disposeMaterials (material o) sc2
      | _ => sc1
      end
  | None => sc1
  end.

Definition clear (st : State) : State :=
  let sc := foldl clearObject (scene st) (sceneObjects st) in
  withTextContext (match textContext st with
                   | Some _ => Some []
                   | None => None
                   end)
    (withSceneObjects [] (withScene sc st)).

(** [this.scene.add(mesh); this.sceneObjects.push(mesh)] *)
Definition track (mesh : handle) (sc : Scene) (st : State) : State :=
  withSceneObjects (sceneObjects st ++ [mesh]) (withScene (Scene_add mesh sc) st).

Definition rgb (r g b : number) : Color :=
  RGB (r / num 255)%number (g / num 255)%number (b / num 255)%number.

Definition glow (r g b k : number) : Color :=
  RGB (r / num 255 * k)%number (g / num 255 * k)%number (b / num 255 * k)%number.

Definition drawRect (x y width height r g b : number) (st : State) : State :=
  let worldPos := gameToWorldCoords (x + width / num 2)%number (y + height / num 2)%number in
  let size := Math.max width height in
  let '(geometry, sc) :=
    newGeometry (BoxGeometry (size * dec 8 10) size (size * dec 8 10))%number (scene st) in
  let '(material, sc) :=
    newMaterial MeshStandardMaterial (rgb r g b) (Some (glow r g b (dec 3 10))) false sc in
  let '(mesh, sc) := newObject Mesh (Some geometry) (One material) [] sc in
  let sc := updateObject mesh
              (setPosition (mkVec3 (x3 worldPos) (size / num 2)%number (z3 worldPos))) sc in
  track mesh sc st.

(** The filter of [drawCircle]: circles taken for health bars or other
    elements of the 2D interface are not drawn. *)
Definition skipCircle (y radius : number) (fill : bool) : bool :=
  (negb fill && (radius <? num 15)%number)
  || ((y <? num 20)%number && (radius <? num 10)%number)
  || (radius <? num 5)%number.

Definition drawCircle (x y radius r g b : number) (fill : bool) (st : State) : State :=
  if skipCircle y radius fill then st
  else
    let worldPos := gameToWorldCoords x y in
    let '(geometry, sc) := newGeometry (SphereGeometry radius) (scene st) in
    let '(material, sc) :=
      newMaterial MeshStandardMaterial (rgb r g b) (Some (glow r g b (dec 4 10)))
                  (negb fill) sc in
    let '(mesh, sc) := newObject Mesh (Some geometry) (One material) [] sc in
    let hovering := num 2 in
    let sc := updateObject mesh
                (setPosition (mkVec3 (x3 worldPos) (radius + hovering)%number (z3 worldPos))) sc in
    track mesh sc st.

Definition drawLine (x1 y1 x2 y2 thickness r g b : number) (st : State) : State :=
  let worldPos1 := gameToWorldCoords x1 y1 in
  let worldPos2 := gameToWorldCoords x2 y2 in
  let points := [ mkVec3 (x3 worldPos1) (num 5) (z3 worldPos1);
                  mkVec3 (x3 worldPos2) (num 5) (z3 worldPos2) ] in
  let '(geometry, sc) := newGeometry (BufferGeometry points) (scene st) in
  let '(material, sc) := newMaterial LineBasicMaterial (rgb r g b) None false sc in
  let '(line, sc) := newObject Line (Some geometry) (One material) [] sc in
  track line sc st.

Definition drawTriangle (x1 y1 x2 y2 x3' y3' r g b : number) (fill : bool)
    (st : State) : State :=
  let worldPos1 := gameToWorldCoords x1 y1 in
  let worldPos2 := gameToWorldCoords x2 y2 in
  let worldPos3 := gameToWorldCoords x3' y3' in
  let vertices := [ mkVec3 (x3 worldPos1) (num 5) (z3 worldPos1);
                    mkVec3 (x3 worldPos2) (num 5) (z3 worldPos2);
                    mkVec3 (x3 worldPos3) (num 5) (z3 worldPos3) ] in
  let '(geometry, sc) := newGeometry (BufferGeometry vertices) (scene st) in
  let '(material, sc) :=
    newMaterial (if fill then MeshBasicMaterial else LineBasicMaterial)
                (rgb r g b) None false sc in
  let '(mesh, sc) :=
    newObject (if fill then Mesh else Line) (Some geometry) (One material) [] sc in
  track mesh sc st.

(** [drawText] writes on the 2D overlay only. *)
Definition drawText (env : Env) (x y : number) (text : string) (size r g b : number)
    (st : State) : State :=
  match textContext st with
  | None => st
  | Some items =>
      let worldPos := gameToWorldCoords x y in
      let vector := project env (mkVec3 (x3 worldPos) (num 30) (z3 worldPos)) (camera st) in
      let screenX := ((x3 vector * dec 1 2 + dec 1 2) * fst (textCanvas st))%number in
      let screenY := ((- (y3 vector) * dec 1 2 + dec 1 2) * snd (textCanvas st))%number in
      withTextContext (Some (items ++ [mkText screenX screenY text size (RGB r g b)])) st
  end.

Definition drawTowerPreview (x y : number) (canPlace : bool) (range : number)
    (st : State) : State :=
  if (x <? num 0)%number || (y <? num 0)%number then hidePreview st
  else
    let worldPos := gameToWorldCoords x y in
    let sc := scene st in
    let sc :=
      match towerPreviewMesh st with
      | Some tower =>
          let size := num 30 in
          let sc := updateObject tower
                      (setPosition (mkVec3 (x3 worldPos) (size / num 2)%number (z3 worldPos))) sc in
          let sc := updateObject tower (setVisible true) sc in
          setMaterialColor tower (if canPlace then accent else red) sc
      | None => sc
      end in
    let sc :=
      match rangePreviewMesh st with
      | Some disc =>
          if canPlace && (range >? num 0)%number then
            let sc := updateObject disc
                        (setPosition (mkVec3 (x3 worldPos) (dec 1 2) (z3 worldPos))) sc in
            let s := (range / num 100)%number in
            let sc := updateObject disc (setScale (mkVec3 s s s)) sc in
            updateObject disc (setVisible true) sc
          else updateObject disc (setVisible false) sc
      | None => sc
      end in
    let sc :=
      match invalidPlacementMesh st with
      | Some marker =>
          let sc := updateObject marker
                      (setPosition (mkVec3 (x3 worldPos) (num 10) (z3 worldPos))) sc in
          updateObject marker (setVisible (negb canPlace)) sc
      | None => sc
      end in
    withScene sc st.

Definition setSelectedTowerType (type : number) (st : State) : State :=
  mkState (container st) (scene st) (camera st) (rendererSize st) (attached st)
    (listeners st) (mouse st) (currentHoverPosition st) type
    (groundPlane st) (towerPreviewMesh st) (rangePreviewMesh st)
    (invalidPlacementMesh st) (textCanvas st) (textContext st) (sceneObjects st).

Definition getHoverPosition (st : State) : Vec2 := currentHoverPosition st.

Definition getDimensions (st : State) : number * number :=
  (originalWidth, originalHeight).

Definition render (st : State) : State := st.

(** ** Events and calls *)

(** The browser events the manager listens to, with what the handlers read. *)
Inductive Event :=
| mousemove (clientX clientY : number)
| mouseleave
| click (clientX clientY : number)
| touchstart (touches : list Vec2)
| touchmove (touches : list Vec2)
| touchend
| resize.

(** The listener registered for each event by [setupEventListeners]. *)
Definition dispatch (env : Env) (ev : Event) (st : State) : State * list Vec2 :=
  match ev with
  | mousemove x y => (handleMouseMove env x y st, [])
  | mouseleave => (handleMouseLeave st, [])
  | click x y => handleClick env x y st
  | touchstart ts => (handleTouchStart env ts st, [])
  | touchmove ts => (handleTouchMove env ts st, [])
  | touchend => handleTouchEnd env st
  | resize => (handleResize env st, [])
  end.

(** The public methods, as the frame driver calls them. *)
Inductive Call :=
| Initialize
| Clear
| Render
| DrawRect (x y width height r g b : number)
| DrawCircle (x y radius r g b : number) (fill : bool)
| DrawLine (x1 y1 x2 y2 thickness r g b : number)
| DrawTriangle (x1 y1 x2 y2 x3 y3 r g b : number) (fill : bool)
| DrawText (x y : number) (text : string) (size r g b : number)
| DrawTowerPreview (x y : number) (canPlace : bool) (range : number)
| SetSelectedTowerType (type : number)
| Dispatch (ev : Event).

Definition call (env : Env) (c : Call) (st : State) : State :=
  match c with
  | Initialize => fst (initialize env st)
  | Clear => clear st
  | Render => render st
  | DrawRect x y w h r g b => drawRect x y w h r g b st
  | DrawCircle x y radius r g b fill => drawCircle x y radius r g b fill st
  | DrawLine x1 y1 x2 y2 t r g b => drawLine x1 y1 x2 y2 t r g b st
  | DrawTriangle x1 y1 x2 y2 x3 y3 r g b fill =>
      drawTriangle x1 y1 x2 y2 x3 y3 r g b fill st
  | DrawText x y text size r g b => drawText env x y text size r g b st
  | DrawTowerPreview x y canPlace range => drawTowerPreview x y canPlace range st
  | SetSelectedTowerType type => setSelectedTowerType type st
  | Dispatch ev => fst (dispatch env ev st)
  end.

(** The states a manager can be in: built by the constructor, then driven
    by calls and events, each in the environment of its moment. *)
Inductive reachable : State -> Prop :=
| reachable_new env : reachable (constructor env)
| reachable_call env c st : reachable st -> reachable (call env c st).

(** ** Checking a property on a range of integers *)


(** ** Sample environments and states *)

Definition noHit : Vec2 -> Camera -> list Vec3 := fun _ _ => [].
Definition hitAt (p : Vec3) : Vec2 -> Camera -> list Vec3 := fun _ _ => [p].
Definition noProjection : Vec3 -> Camera -> Vec3 := fun v _ => v.

Definition page : gmap string Element :=
  {[ containerId := mkElement (num 800) (num 600) ]}.

Definition canvasRect : Rect := mkRect (num 0) (num 0) (num 800) (num 600).

Definition browser (app : GameApp) (ray : Vec2 -> Camera -> list Vec3) : Env :=
  mkEnv page true app canvasRect ray noProjection.

(** A manager constructed and initialised in a page that has the container. *)
Definition started : State :=
  fst (initialize (browser WasmLoader noHit) (constructor (browser WasmLoader noHit))).


Definition cellCentre (k : Z) : number :=
  (num k * gridSize + gridSize / num 2)%number.


(** ** Vocabulary of the properties *)

(** The handles held by the three preview fields. *)
Definition previewHandles (st : State) : list handle :=
  omap id [towerPreviewMesh st; rangePreviewMesh st; invalidPlacementMesh st].

(** The ray of the event hits the ground plane. *)
Definition hits (env : Env) (ev : Event) (st : State) : Prop :=
  match ev with
  | mousemove x y => is_Some (snd (screenToWorld env x y st))
  | touchstart [t] => is_Some (snd (screenToWorld env (x2 t) (y2 t) st))
  | touchmove [t] => is_Some (snd (screenToWorld env (x2 t) (y2 t) st))
  | _ => False
  end.


(** What the discipline of [clear] reads in an object: its class and the
    handles of its geometry and materials. *)
Definition key (o : Object3D) : ObjKind * option handle * MaterialRef :=
  (okind o, geometry o, material o).

Definition keys (sc : Scene) : list (ObjKind * option handle * MaterialRef) :=
  key <$> objects sc.

Definition refs (m : MaterialRef) : list handle :=
  match m with
  | NoMaterial => []
  | One h => [h]
  | Many hs => hs
  end.

(** The objects that stay for the life of the manager: the ground plane,
    the three preview primitives, the lights. *)
Definition fixed (st : State) (h : handle) : Prop :=
  groundPlane st = Some h
  \/ h ∈ previewHandles st
  \/ exists g m, keys (scene st) !! h = Some (Light, g, m).

(** The invariant of the manager. *)
Record Inv (st : State) : Prop := mkInv {
  (* a tracked object is a mesh or a line with a geometry and one material *)
  inv_tracked : forall h, h ∈ sceneObjects st ->
    exists k g m, keys (scene st) !! h = Some (k, Some g, One m)
                  /\ (k = Mesh \/ k = Line);
  (* objects refer to allocated geometries and materials *)
  inv_resources : forall h k g ms, keys (scene st) !! h = Some (k, g, ms) ->
    (forall x, g = Some x -> x < length (geometries (scene st)))%nat
    /\ (forall x, x ∈ refs ms -> x < length (materials (scene st)))%nat;
  (* a tracked object shares its geometry and its material with no other object *)
  inv_owned : forall h h' k g m k' g' ms',
    h ∈ sceneObjects st -> h <> h' ->
    keys (scene st) !! h = Some (k, Some g, One m) ->
    keys (scene st) !! h' = Some (k', g', ms') ->
    g' <> Some g /\ m ∉ refs ms';
  (* the fixed objects exist, are in the scene and are not tracked *)
  inv_fixed : forall h, fixed st h ->
    h ∈ children (scene st) /\ (h ∉ sceneObjects st)
    /\ is_Some (keys (scene st) !! h);
  (* the three preview primitives are created together and are distinct *)
  inv_preview : forall t, towerPreviewMesh st = Some t ->
    exists d m g mat,
      rangePreviewMesh st = Some d /\ invalidPlacementMesh st = Some m
      /\ t <> d /\ t <> m /\ d <> m
      /\ keys (scene st) !! t = Some (Mesh, g, One mat)
      /\ is_Some (keys (scene st) !! d) /\ is_Some (keys (scene st) !! m) }.

(** [st'] is [st] after the drawing of one tracked primitive of class [k]:
    a fresh geometry, a fresh material and a fresh object, added to the
    scene and to the tracked collection. *)
Definition spawns (k : ObjKind) (st st' : State) : Prop :=
  keys (scene st') =
    keys (scene st) ++ [(k, Some (length (geometries (scene st))),
                            One (length (materials (scene st))))]
  /\ children (scene st') = children (scene st) ++ [length (objects (scene st))]
  /\ (exists s, geometries (scene st') = geometries (scene st) ++ [mkGeometry s false])
  /\ (exists m, materials (scene st') = materials (scene st) ++ [m]
                /\ mdisposed m = false)
  /\ sceneObjects st' = sceneObjects st ++ [length (objects (scene st))]
  /\ groundPlane st' = groundPlane st
  /\ towerPreviewMesh st' = towerPreviewMesh st
  /\ rangePreviewMesh st' = rangePreviewMesh st
  /\ invalidPlacementMesh st' = invalidPlacementMesh st.

(** ** Integers as doubles *)

(** The double of an integer below 2^53, written out. *)
Definition repr (z : Z) : number :=
  if z =? 0 then S754_zero false
  else S754_finite (z <? 0)
         (Z.to_pos (Z.abs z * 2 ^ (52 - Z.log2 (Z.abs z))))
         (Z.log2 (Z.abs z) - 52).


(** A coordinate on which the snapping is exact: a double between
    -2^47 and 2^47. *)
Definition inRange (p : number) : bool :=
  valid_binary prec emax p
  && (p <=? num (2 ^ 47))%number && (p >=? num (- 2 ^ 47))%number.

(** [st'] differs from [st] in nothing that the scene graph, the tracked
    collection, the listeners or the fixed fields can show. *)
Definition quiet (st st' : State) : Prop :=
  keys (scene st') = keys (scene st)
  /\ children (scene st') = children (scene st)
  /\ sceneObjects st' = sceneObjects st
  /\ listeners st' = listeners st
  /\ groundPlane st' = groundPlane st
  /\ towerPreviewMesh st' = towerPreviewMesh st
  /\ rangePreviewMesh st' = rangePreviewMesh st
  /\ invalidPlacementMesh st' = invalidPlacementMesh st.

(** A sequence of calls, each in the environment of its moment. *)
Definition run (cs : list (Env * Call)) (st : State) : State :=
  foldl (fun s ec => call (fst ec) (snd ec) s) st cs.

(** Whether the geometry and the material allocated by a draw call made in
    [st] are disposed once [clear] has run on [st1]. *)
Definition disposedByClear (st st1 : State) : option bool * option bool :=
  (gdisposed <$> geometries (scene (clear st1)) !! length (geometries (scene st)),
   mdisposed <$> materials (scene (clear st1)) !! length (materials (scene st))).

(** What the renderer reads of the store beside the keys: the parts of
    each object and the disposal flags of the geometries and materials. *)
Definition partsOf (sc : Scene) : list (list handle) := parts <$> objects sc.
Definition gflags (sc : Scene) : list bool := gdisposed <$> geometries sc.
Definition mflags (sc : Scene) : list bool := mdisposed <$> materials sc.

(** The object is a part of a group. *)
Definition isPart (sc : Scene) (h : handle) : Prop :=
  exists q ps, partsOf sc !! q = Some ps /\ h ∈ ps.

(** The object refers to a disposed geometry or to a disposed material. *)
Definition usesDisposed (sc : Scene) (h : handle) : Prop :=
  exists k g ms, keys sc !! h = Some (k, g, ms)
    /\ ((exists x, g = Some x /\ gflags sc !! x = Some true)
        \/ (exists m, m ∈ refs ms /\ mflags sc !! m = Some true)).

(** What [renderer.render(scene, camera)] draws: the children of the
    scene and the parts of the groups among them. *)
Definition shown (sc : Scene) (h : handle) : Prop :=
  h ∈ children sc
  \/ exists q ps, q ∈ children sc /\ partsOf sc !! q = Some ps /\ h ∈ ps.

(** The invariant of disposal: an object with a disposed resource has left
    the scene for good, and the parts of a group are never tracked. *)
Record Inv2 (st : State) : Prop := mkInv2 {
  inv_disposed : forall h, usesDisposed (scene st) h ->
    (h ∉ children (scene st)) /\ (h ∉ sceneObjects st) /\ ~ isPart (scene st) h;
  inv_parts : forall h, isPart (scene st) h ->
    (h ∉ sceneObjects st) /\ (h < length (objects (scene st)))%nat }.

(** [st'] is [st] with objects, resources, children and tracked handles
    added at the end, and nothing else changed in what the invariants read. *)
Definition grows (ks : list (ObjKind * option handle * MaterialRef))
    (pss : list (list handle)) (gs ms : list bool) (cs ts : list handle)
    (st st' : State) : Prop :=
  keys (scene st') = keys (scene st) ++ ks
  /\ partsOf (scene st') = partsOf (scene st) ++ pss
  /\ gflags (scene st') = gflags (scene st) ++ gs
  /\ mflags (scene st') = mflags (scene st) ++ ms
  /\ children (scene st') = children (scene st) ++ cs
  /\ sceneObjects st' = sceneObjects st ++ ts.

(** * Properties *)

(** ** A range check is a proof for every integer of the range *)


(** ** The store: lookups after an update *)

Lemma setVisible_idem (b : bool) (o : Object3D) :
  setVisible b (setVisible b o) = setVisible b o.
Proof. reflexivity. Qed.

Lemma hide_objects (m : option handle) (sc : Scene) (h : handle) :
  objects (hide m sc) !! h =
  if decide (m = Some h) then setVisible false <$> objects sc !! h
  else objects sc !! h.
Proof.
  destruct m as [h' |]; simpl.
  - destruct (decide (Some h' = Some h)) as [E | N].
    + injection E as ->. apply list_lookup_alter_eq.
    + apply list_lookup_alter_ne. congruence.
  - destruct (decide (None = Some h)); [discriminate | reflexivity].
Qed.

Lemma hide_frame (m : option handle) (sc : Scene) :
  children (hide m sc) = children sc
  /\ geometries (hide m sc) = geometries sc
  /\ materials (hide m sc) = materials sc.
Proof. destruct m; repeat split. Qed.


Lemma elem_of_previewHandles (st : State) (h : handle) :
  h ∈ previewHandles st <->
  towerPreviewMesh st = Some h \/ rangePreviewMesh st = Some h
  \/ invalidPlacementMesh st = Some h.
Proof.
  unfold previewHandles. rewrite list_elem_of_omap. split.
  - intros (m & Hin & Hm). simpl in Hm. subst m.
    rewrite !elem_of_cons in Hin. rewrite elem_of_nil in Hin.
    destruct Hin as [-> | [-> | [-> | []]]]; auto.
  - intros H. exists (Some h). split; [| reflexivity].
    rewrite !elem_of_cons. destruct H as [<- | [<- | <-]]; auto.
Qed.

Lemma hidePreview_objects (st : State) (h : handle) :
  objects (scene (hidePreview st)) !! h =
  if decide (h ∈ previewHandles st) then setVisible false <$> objects (scene st) !! h
  else objects (scene st) !! h.
Proof.
  unfold hidePreview. cbn [scene withScene].
  rewrite !hide_objects.
  destruct (decide (h ∈ previewHandles st)) as [Hin | Hout];
    rewrite elem_of_previewHandles in *.
  - repeat case_decide; try reflexivity;
      try (destruct (objects (scene st) !! h); reflexivity).
    exfalso. destruct Hin as [? | [? | ?]]; congruence.
  - repeat case_decide; try reflexivity; exfalso; apply Hout; auto.
Qed.

Lemma hidePreview_frame (st : State) :
  hidePreview st =
  withScene (mkScene (children (scene st)) (objects (scene (hidePreview st)))
                     (geometries (scene st)) (materials (scene st))) st.
Proof.
  unfold hidePreview, withScene. cbn [scene]. f_equal.
  destruct (hide_frame (invalidPlacementMesh st)
              (hide (rangePreviewMesh st) (hide (towerPreviewMesh st) (scene st))))
    as (C1 & G1 & M1).
  destruct (hide_frame (rangePreviewMesh st) (hide (towerPreviewMesh st) (scene st)))
    as (C2 & G2 & M2).
  destruct (hide_frame (towerPreviewMesh st) (scene st)) as (C3 & G3 & M3).
  rewrite <- C3, <- C2, <- C1, <- G3, <- G2, <- G1, <- M3, <- M2, <- M1.
  destruct (hide _ _); reflexivity.
Qed.

(** ** The sentinel hides the preview *)

(** C4. For every state of the three preview primitives, [drawTowerPreview]
    with [x < 0] or [y < 0] makes each of them invisible and changes nothing
    else: every other attribute of the three objects, every other object,
    the geometries, the materials (hence the colours), the scene membership
    and every other field of the manager are as before. *)
Theorem drawTowerPreview_sentinel_hides
    (st : State) (x y : number) (canPlace : bool) (range : number) :
  (x <? num 0)%number = true \/ (y <? num 0)%number = true ->
  let st' := drawTowerPreview x y canPlace range st in
  (forall h o, h ∈ previewHandles st -> objects (scene st) !! h = Some o ->
     objects (scene st') !! h = Some (setVisible false o))
  /\ (forall h, h ∉ previewHandles st ->
        objects (scene st') !! h = objects (scene st) !! h)
  /\ st' = withScene (mkScene (children (scene st)) (objects (scene st'))
                              (geometries (scene st)) (materials (scene st))) st.
Proof.
  intros Hneg st'.
  assert (E : st' = hidePreview st).
  { unfold st', drawTowerPreview.
    destruct Hneg as [-> | ->]; [reflexivity |].
    rewrite orb_true_r. reflexivity. }
  rewrite E. split; [| split].
  - intros h o Hin Ho. rewrite hidePreview_objects, decide_True by exact Hin.
    rewrite Ho. reflexivity.
  - intros h Hout. rewrite hidePreview_objects, decide_False by exact Hout.
    reflexivity.
  - apply hidePreview_frame.
Qed.

Lemma drawTowerPreview_sentinel_hides_witness :
  (num (-1) <? num 0)%number = true
  /\ visible <$> objects (scene (drawTowerPreview (num (-1)) (num (-1)) true (num 100)
                                   started)) !! 6%nat
     = Some false.
Proof.
  split; [reflexivity |].
  destruct (objects (scene started) !! 6%nat) as [o |] eqn:Ho;
    [| vm_compute in Ho; discriminate].
  rewrite (proj1 (drawTowerPreview_sentinel_hides started (num (-1)) (num (-1)) true
                    (num 100) (or_introl eq_refl)) 6%nat o).
  - reflexivity.
  - apply elem_of_previewHandles. left. reflexivity.
  - exact Ho.
Defined.

(** ** The circle filter *)

Lemma drawCircle_skipped (x y radius r g b : number) (fill : bool) (st : State) :
  skipCircle y radius fill = true -> drawCircle x y radius r g b fill st = st.
Proof. intros H. unfold drawCircle. rewrite H. reflexivity. Qed.

Lemma drawCircle_drawn (x y radius r g b : number) (fill : bool) (st : State) :
  skipCircle y radius fill = false ->
  let st' := drawCircle x y radius r g b fill st in
  sceneObjects st' = sceneObjects st ++ [length (objects (scene st))]
  /\ children (scene st') = children (scene st) ++ [length (objects (scene st))]
  /\ length (objects (scene st')) = S (length (objects (scene st))).
Proof.
  intros H. unfold drawCircle. rewrite H. cbn.
  repeat split. rewrite length_alter, length_app. cbn. lia.
Qed.

(** C5. [drawCircle] adds nothing (the state is unchanged) when the circle
    is unfilled with a radius below 15, when [y < 20] with a radius below
    10, and when the radius is below 5; [drawCircle(x, 18, 8, r, g, b, false)]
    adds nothing, and [drawCircle(x, 100, 20, r, g, b, true)] adds exactly
    one object, to the scene and to the tracked collection. *)
Theorem drawCircle_filter (st : State) (x y radius r g b : number) (fill : bool) :
  ((fill = false /\ (radius <? num 15)%number = true)
   \/ ((y <? num 20)%number = true /\ (radius <? num 10)%number = true)
   \/ (radius <? num 5)%number = true ->
   drawCircle x y radius r g b fill st = st)
  /\ drawCircle x (num 18) (num 8) r g b false st = st
  /\ (let st' := drawCircle x (num 100) (num 20) r g b true st in
      sceneObjects st' = sceneObjects st ++ [length (objects (scene st))]
      /\ children (scene st') = children (scene st) ++ [length (objects (scene st))]
      /\ length (objects (scene st')) = S (length (objects (scene st)))).
Proof.
  split; [| split].
  - intros H. apply drawCircle_skipped. unfold skipCircle.
    destruct H as [[-> ->] | [[-> ->] | ->]]; cbn [negb andb orb];
      rewrite ?orb_true_r; reflexivity.
  - apply drawCircle_skipped. reflexivity.
  - apply drawCircle_drawn. reflexivity.
Qed.

Lemma drawCircle_filter_witness :
  (num 12 <? num 15)%number = true
  /\ drawCircle (num 50) (num 300) (num 12) (num 0) (num 255) (num 0) false started
     = started.
Proof.
  split; [reflexivity |].
  apply (proj1 (drawCircle_filter started (num 50) (num 300) (num 12)
                  (num 0) (num 255) (num 0) false)).
  left. split; reflexivity.
Defined.

(** ** Initialisation *)

(** C7. [initialize()] throws exactly when the document has no element
    with the container's identifier; it then leaves the manager as it was,
    with no container.  When the element exists, it returns the logical
    dimensions, 800 by 600. *)
Theorem initialize_throws_iff_no_container (env : Env) (st : State) :
  ((exists message, snd (initialize env st) = Throw message)
   <-> document env !! containerId = None)
  /\ (document env !! containerId = None ->
      snd (initialize env st) = Throw "Container element not found"
      /\ fst (initialize env st) =
         mkState None (scene st) (camera st) (rendererSize st) (attached st)
           (listeners st) (mouse st) (currentHoverPosition st) (selectedTowerType st)
           (groundPlane st) (towerPreviewMesh st) (rangePreviewMesh st)
           (invalidPlacementMesh st) (textCanvas st) (textContext st) (sceneObjects st))
  /\ (forall element, document env !! containerId = Some element ->
      snd (initialize env st) = Return (num 800, num 600)).
Proof.
  unfold initialize.
  destruct (document env !! containerId) as [element |]; cbn [fst snd].
  - split; [split |].
    + intros [message H]. discriminate.
    + discriminate.
    + split; [discriminate | intros ? _; reflexivity].
  - split; [split |].
    + reflexivity.
    + intros _. eexists. reflexivity.
    + split; [intros _; split; reflexivity | discriminate].
Qed.

Lemma initialize_throws_iff_no_container_witness :
  document (browser WasmLoader noHit) !! containerId = Some (mkElement (num 800) (num 600))
  /\ snd (initialize (browser WasmLoader noHit) (constructor (browser WasmLoader noHit)))
     = Return (num 800, num 600).
Proof.
  split; [reflexivity |].
  apply (proj2 (proj2 (initialize_throws_iff_no_container
                         (browser WasmLoader noHit)
                         (constructor (browser WasmLoader noHit))))
           (mkElement (num 800) (num 600))).
  reflexivity.
Defined.

(** ** Pointer input *)

(** [screenToWorld] writes nothing but the pointer vector of the ray caster. *)
Lemma screenToWorld_frame (env : Env) (x y : number) (st : State) :
  fst (screenToWorld env x y st) = withMouse (mouse (fst (screenToWorld env x y st))) st.
Proof.
  unfold screenToWorld.
  destruct (groundPlane st); [| destruct st; reflexivity].
  destruct (intersectObject env _ _); reflexivity.
Qed.

(** What [screenToWorld] returns, from the hits of the ray. *)
Lemma screenToWorld_result (env : Env) (x y : number) (st : State) :
  snd (screenToWorld env x y st) =
  match groundPlane st with
  | None => None
  | Some _ =>
      match intersectObject env (mouse (fst (screenToWorld env x y st))) (camera st) with
      | point :: _ => Some (mkVec3 (snap (x3 point)) (num 0) (snap (z3 point)))
      | [] => None
      end
  end.
Proof.
  unfold screenToWorld.
  destruct (groundPlane st); [| reflexivity].
  cbn [camera withMouse].
  destruct (intersectObject env _ _) eqn:E; cbn [fst snd mouse withMouse]; rewrite E; reflexivity.
Qed.

Lemma hoverAt_miss (env : Env) (x y : number) (st : State) :
  snd (screenToWorld env x y st) = None ->
  currentHoverPosition (hoverAt env x y st) = currentHoverPosition st.
Proof.
  intros H. unfold hoverAt.
  pose proof (screenToWorld_frame env x y st) as F.
  destruct (screenToWorld env x y st) as [st1 [w |]]; [discriminate |].
  cbn [fst] in F. rewrite F. reflexivity.
Qed.

Lemma hoverAt_hit (env : Env) (x y : number) (st : State) (w : Vec3) :
  snd (screenToWorld env x y st) = Some w ->
  currentHoverPosition (hoverAt env x y st) = worldToGameCoords (x3 w) (y3 w) (z3 w).
Proof.
  intros H. unfold hoverAt.
  destruct (screenToWorld env x y st) as [st1 [w' |]]; [| discriminate].
  injection H as ->. reflexivity.
Qed.


(** C9. A pointer move or a touch move whose ray misses the ground plane
    leaves the stored hover position as it was; and whenever an event
    changes the hover position, the event is a pointer leave, a touch end,
    or a move or touch whose ray hits the ground plane. *)
Theorem hover_kept_on_miss (env : Env) (st : State) :
  (forall x y, snd (screenToWorld env x y st) = None ->
     currentHoverPosition (handleMouseMove env x y st) = currentHoverPosition st)
  /\ (forall t, snd (screenToWorld env (x2 t) (y2 t) st) = None ->
        currentHoverPosition (handleTouchMove env [t] st) = currentHoverPosition st)
  /\ (forall ev,
        currentHoverPosition (fst (dispatch env ev st)) <> currentHoverPosition st ->
        ev = mouseleave \/ ev = touchend \/ hits env ev st).
Proof.
  split; [| split].
  - intros x y H. apply hoverAt_miss, H.
  - intros t H. apply hoverAt_miss, H.
  - intros ev Hch.
    destruct ev as [x y | | x y | ts | ts | |]; cbn [dispatch fst] in Hch; auto.
    + right. right. cbn [hits].
      destruct (snd (screenToWorld env x y st)) eqn:E; [eexists; reflexivity |].
      exfalso. apply Hch. apply hoverAt_miss, E.
    + exfalso. apply Hch. unfold handleClick.
      pose proof (screenToWorld_frame env x y st) as F.
      destruct (screenToWorld env x y st) as [st1 [w |]]; cbn [fst] in F;
        [destruct (hasWasmLoader env) |]; cbn [fst]; rewrite F; reflexivity.
    + right. right. destruct ts as [| t [| t' ts]]; cbn [hits];
        try (exfalso; apply Hch; reflexivity).
      cbn [handleTouchStart] in Hch.
      destruct (snd (screenToWorld env (x2 t) (y2 t) st)) eqn:E; [eexists; reflexivity |].
      exfalso. apply Hch. apply hoverAt_miss, E.
    + right. right. destruct ts as [| t [| t' ts]]; cbn [hits];
        try (exfalso; apply Hch; reflexivity).
      cbn [handleTouchMove] in Hch.
      destruct (snd (screenToWorld env (x2 t) (y2 t) st)) eqn:E; [eexists; reflexivity |].
      exfalso. apply Hch. apply hoverAt_miss, E.
    + exfalso. apply Hch. unfold handleResize.
      destruct (container st); reflexivity.
Qed.

Lemma hover_kept_on_miss_witness :
  snd (screenToWorld (browser WasmLoader noHit) (num 10) (num 10) started) = None
  /\ currentHoverPosition (handleMouseMove (browser WasmLoader noHit) (num 10) (num 10) started)
     = currentHoverPosition started.
Proof.
  split; [reflexivity |].
  apply (proj1 (hover_kept_on_miss (browser WasmLoader noHit) started)).
  reflexivity.
Defined.

(** C6, as stated, fails: without [window.gameApp] a click whose ray hits
    the ground plane forwards nothing; and a hit at the game point
    (120, 80), which is the world point (-280, 0, -220), forwards (140, 80). *)
Lemma handleClick_counterexample :
  snd (screenToWorld (browser NoGameApp (hitAt (mkVec3 (num (-280)) (num 0) (num (-220)))))
         (num 10) (num 10) started)
  = Some (mkVec3 (num (-260)) (num 0) (num (-220)))
  /\ snd (handleClick (browser NoGameApp (hitAt (mkVec3 (num (-280)) (num 0) (num (-220)))))
            (num 10) (num 10) started) = []
  /\ worldToGameCoords (num (-280)) (num 0) (num (-220)) = mkVec2 (num 120) (num 80)
  /\ snd (handleClick (browser WasmLoader (hitAt (mkVec3 (num (-280)) (num 0) (num (-220)))))
            (num 10) (num 10) started) = [mkVec2 (num 140) (num 80)].
Proof. repeat split; vm_compute; reflexivity. Qed.

(** C6, amended. A click whose ray hits the ground plane calls the game's
    click handler once, with the game coordinates of the grid-snapped hit,
    when [window.gameApp.wasmLoader] exists, and does not call it
    otherwise; a click whose ray misses calls nothing.  In every case the
    click writes nothing but the pointer vector of the ray caster. *)
Theorem handleClick_forwards (env : Env) (x y : number) (st : State) :
  (forall w, snd (screenToWorld env x y st) = Some w ->
     snd (handleClick env x y st) =
     if hasWasmLoader env then [worldToGameCoords (x3 w) (num 0) (z3 w)] else [])
  /\ (forall w, snd (screenToWorld env x y st) = Some w ->
        exists point rest,
          intersectObject env (mouse (fst (handleClick env x y st))) (camera st)
          = point :: rest
          /\ w = mkVec3 (snap (x3 point)) (num 0) (snap (z3 point)))
  /\ (snd (screenToWorld env x y st) = None -> snd (handleClick env x y st) = [])
  /\ fst (handleClick env x y st) = withMouse (mouse (fst (handleClick env x y st))) st.
Proof.
  assert (F : fst (handleClick env x y st) = fst (screenToWorld env x y st)).
  { unfold handleClick. destruct (screenToWorld env x y st) as [st1 [w |]];
      [destruct (hasWasmLoader env) |]; reflexivity. }
  split; [| split; [| split]].
  - intros w H. unfold handleClick.
    pose proof (screenToWorld_result env x y st) as R. rewrite H in R.
    destruct (screenToWorld env x y st) as [st1 [w' |]]; [| discriminate].
    injection H as ->.
    assert (y3 w = num 0) as <-.
    { destruct (groundPlane st); [| discriminate].
      destruct (intersectObject env _ _); [discriminate |]. injection R as ->. reflexivity. }
    destruct (hasWasmLoader env); reflexivity.
  - intros w H. rewrite F.
    pose proof (screenToWorld_result env x y st) as R. rewrite H in R.
    destruct (groundPlane st); [| discriminate].
    destruct (intersectObject env _ _) as [| point rest]; [discriminate |].
    injection R as ->. eauto.
  - intros H. unfold handleClick.
    destruct (screenToWorld env x y st) as [st1 [w |]]; [discriminate | reflexivity].
  - rewrite F. apply screenToWorld_frame.
Qed.

Lemma handleClick_forwards_witness :
  snd (screenToWorld (browser WasmLoader (hitAt (mkVec3 (num (-280)) (num 0) (num (-220)))))
         (num 10) (num 10) started)
  = Some (mkVec3 (num (-260)) (num 0) (num (-220)))
  /\ snd (handleClick (browser WasmLoader (hitAt (mkVec3 (num (-280)) (num 0) (num (-220)))))
            (num 10) (num 10) started)
     = [worldToGameCoords (num (-260)) (num 0) (num (-220))].
Proof.
  split; [vm_compute; reflexivity |].
  apply (proj1 (handleClick_forwards
                  (browser WasmLoader (hitAt (mkVec3 (num (-280)) (num 0) (num (-220)))))
                  (num 10) (num 10) started)
           (mkVec3 (num (-260)) (num 0) (num (-220)))).
  vm_compute. reflexivity.
Defined.

(** ** The invariant *)

Lemma keys_lookup (sc : Scene) (h : handle) :
  keys sc !! h = key <$> objects sc !! h.
Proof. apply list_lookup_fmap. Qed.

Lemma keys_lookup_Some (sc : Scene) (h : handle) (o : Object3D) :
  objects sc !! h = Some o -> keys sc !! h = Some (okind o, geometry o, material o).
Proof. intros H. rewrite keys_lookup, H. reflexivity. Qed.

Lemma keys_updateObject (h : handle) (f : Object3D -> Object3D) (sc : Scene) :
  (forall o, key (f o) = key o) -> keys (updateObject h f sc) = keys sc.
Proof.
  intros Hf. unfold keys, updateObject. cbn [objects].
  rewrite (list_fmap_alter key f id).
  - apply list_alter_id. reflexivity.
  - apply Forall_forall. intros o _. apply Hf.
Qed.

Lemma keys_hide (m : option handle) (sc : Scene) : keys (hide m sc) = keys sc.
Proof. destruct m; [apply keys_updateObject |]; reflexivity. Qed.

Lemma setMaterialColor_frame (h : handle) (c : Color) (sc : Scene) :
  children (setMaterialColor h c sc) = children sc
  /\ objects (setMaterialColor h c sc) = objects sc
  /\ geometries (setMaterialColor h c sc) = geometries sc
  /\ length (materials (setMaterialColor h c sc)) = length (materials sc).
Proof.
  unfold setMaterialColor.
  destruct (objects sc !! h) as [o |]; [| auto].
  destruct (material o); cbn; rewrite ?length_alter; auto.
Qed.

(** The invariant reads the scene through [keys], [children] and the
    sizes of the stores only. *)
Lemma Inv_ext (st st' : State) :
  keys (scene st') = keys (scene st) ->
  children (scene st') = children (scene st) ->
  length (geometries (scene st')) = length (geometries (scene st)) ->
  length (materials (scene st')) = length (materials (scene st)) ->
  sceneObjects st' = sceneObjects st ->
  groundPlane st' = groundPlane st ->
  towerPreviewMesh st' = towerPreviewMesh st ->
  rangePreviewMesh st' = rangePreviewMesh st ->
  invalidPlacementMesh st' = invalidPlacementMesh st ->
  Inv st -> Inv st'.
Proof.
  intros K C G M T P1 P2 P3 P4 [I1 I2 I3 I4 I5].
  assert (F : forall h, fixed st' h -> fixed st h).
  { intros h. unfold fixed, previewHandles. rewrite K, P1, P2, P3, P4. auto. }
  split; rewrite ?K, ?C, ?G, ?M, ?T, ?P2, ?P3, ?P4; auto.
Qed.

Lemma Inv_withMouse (m : Vec2) (st : State) : Inv st -> Inv (withMouse m st).
Proof. apply Inv_ext; reflexivity. Qed.

Lemma Inv_withHover (p : Vec2) (st : State) : Inv st -> Inv (withHover p st).
Proof. apply Inv_ext; reflexivity. Qed.

Lemma Inv_withTextContext (c : option (list TextItem)) (st : State) :
  Inv st -> Inv (withTextContext c st).
Proof. apply Inv_ext; reflexivity. Qed.

Lemma Inv_hidePreview (st : State) : Inv st -> Inv (hidePreview st).
Proof.
  apply Inv_ext; try reflexivity; unfold hidePreview; cbn [scene withScene].
  - rewrite !keys_hide. reflexivity.
  - destruct (invalidPlacementMesh st), (rangePreviewMesh st), (towerPreviewMesh st);
      reflexivity.
  - destruct (invalidPlacementMesh st), (rangePreviewMesh st), (towerPreviewMesh st);
      reflexivity.
  - destruct (invalidPlacementMesh st), (rangePreviewMesh st), (towerPreviewMesh st);
      reflexivity.
Qed.

Lemma Inv_screenToWorld (env : Env) (x y : number) (st : State) :
  Inv st -> Inv (fst (screenToWorld env x y st)).
Proof. rewrite screenToWorld_frame. apply Inv_withMouse. Qed.

Lemma Inv_hoverAt (env : Env) (x y : number) (st : State) :
  Inv st -> Inv (hoverAt env x y st).
Proof.
  intros H. unfold hoverAt.
  pose proof (Inv_screenToWorld env x y st H) as H1.
  destruct (screenToWorld env x y st) as [st1 [w |]]; cbn [fst] in H1;
    [apply Inv_withHover |]; exact H1.
Qed.

Lemma Inv_dispatch (env : Env) (ev : Event) (st : State) :
  Inv st -> Inv (fst (dispatch env ev st)).
Proof.
  intros H. destruct ev as [x y | | x y | ts | ts | |]; cbn [dispatch fst].
  - apply Inv_hoverAt, H.
  - apply Inv_hidePreview, Inv_withHover, H.
  - unfold handleClick. pose proof (Inv_screenToWorld env x y st H) as H1.
    destruct (screenToWorld env x y st) as [st1 [w |]];
      [destruct (hasWasmLoader env) |]; exact H1.
  - destruct ts as [| t [| t' ts]]; cbn; auto using Inv_hoverAt.
  - destruct ts as [| t [| t' ts]]; cbn; auto using Inv_hoverAt.
  - apply Inv_withHover, H.
  - unfold handleResize. destruct (container st); [| exact H].
    revert H. apply Inv_ext; reflexivity.
Qed.

Lemma fmap_key_alter (f : Object3D -> Object3D) (i : nat) (l : list Object3D) :
  (forall o, key (f o) = key o) -> key <$> alter f i l = key <$> l.
Proof.
  intros Hf. rewrite (list_fmap_alter key f id).
  - apply list_alter_id. reflexivity.
  - apply Forall_forall. intros o _. apply Hf.
Qed.

(** Brings the keys of a scene built by allocations and attribute updates
    to the form [keys sc ++ news]. *)
Ltac norm_keys :=
  unfold keys; cbn [objects];
  repeat first [ rewrite fmap_app
               | rewrite fmap_key_alter by (intros []; reflexivity) ];
  cbn [fmap list_fmap key okind geometry material];
  rewrite ?length_alter, ?length_app; cbn [length];
  rewrite <- ?app_assoc; cbn [app].

Lemma Inv_tracked_valid (st : State) (h : handle) :
  Inv st -> h ∈ sceneObjects st -> (h < length (keys (scene st)))%nat.
Proof.
  intros I Hin. destruct (inv_tracked st I h Hin) as (k & g & m & Hk & _).
  eapply lookup_lt_Some, Hk.
Qed.

Lemma Inv_tracked_bounds (st : State) (h : handle) k g m :
  Inv st -> keys (scene st) !! h = Some (k, Some g, One m) ->
  (g < length (geometries (scene st)))%nat /\ (m < length (materials (scene st)))%nat.
Proof.
  intros I Hk. destruct (inv_resources st I h _ _ _ Hk) as [Hg Hm]. split.
  - apply Hg. reflexivity.
  - apply Hm. cbn. apply list_elem_of_singleton. reflexivity.
Qed.

(** *** Drawing a tracked primitive *)

Lemma Inv_spawns (k : ObjKind) (st st' : State) :
  k = Mesh \/ k = Line -> spawns k st st' -> Inv st -> Inv st'.
Proof.
  intros Hk (K & C & (s & G) & (mat & M & _) & T & P1 & P2 & P3 & P4) I.
  pose proof (Inv_tracked_valid st) as V.
  destruct I as [I1 I2 I3 I4 I5].
  assert (LG : length (geometries (scene st')) = S (length (geometries (scene st)))).
  { rewrite G, length_app. cbn. lia. }
  assert (LM : length (materials (scene st')) = S (length (materials (scene st)))).
  { rewrite M, length_app. cbn. lia. }
  assert (LK : length (keys (scene st)) = length (objects (scene st))).
  { unfold keys. apply length_fmap. }
  assert (New : forall h x, keys (scene st') !! h = Some x ->
            keys (scene st) !! h = Some x
            \/ h = length (objects (scene st))
               /\ x = (k, Some (length (geometries (scene st))),
                       One (length (materials (scene st))))).
  { intros h x. rewrite K, lookup_app_Some. intros [H | [Hle H]]; [auto | right].
    apply list_lookup_singleton_Some in H as [H0 <-]. split; [lia | reflexivity]. }
  split.
  - intros h. rewrite T, K, elem_of_app, list_elem_of_singleton. intros [Hin | ->].
    + destruct (I1 h Hin) as (k0 & g & m & E & Hk0).
      exists k0, g, m. split; [| exact Hk0]. apply lookup_app_l_Some, E.
    + exists k, (length (geometries (scene st))), (length (materials (scene st))).
      split; [| exact Hk]. rewrite lookup_app_r, <- LK by (rewrite LK; lia).
      rewrite Nat.sub_diag. reflexivity.
  - intros h k0 g ms E. rewrite LG, LM.
    destruct (New h _ E) as [E0 | [-> [= -> -> ->]]].
    + destruct (I2 h k0 g ms E0) as [Hg Hm]. split; intros x Hx.
      * specialize (Hg x Hx). lia.
      * specialize (Hm x Hx). lia.
    + split; intros x Hx.
      * injection Hx as <-. lia.
      * cbn in Hx. apply list_elem_of_singleton in Hx as ->. lia.
  - intros h h' k0 g m k' g' ms'. rewrite T, elem_of_app, list_elem_of_singleton.
    intros Hin Hne E E'.
    destruct (New h _ E) as [E0 | [-> [= -> -> ->]]];
      destruct (New h' _ E') as [E0' | [-> [= -> -> ->]]].
    + destruct Hin as [Hin | ->].
      * eapply I3; eassumption.
      * apply lookup_lt_Some in E0. lia.
    + destruct (Inv_tracked_bounds st h k0 g m (mkInv st I1 I2 I3 I4 I5) E0) as [Hg Hm].
      split; [intros [= <-]; lia |].
      cbn. rewrite list_elem_of_singleton. lia.
    + destruct (I2 h' k' g' ms' E0') as [Hg Hm]. split.
      * intros ->. specialize (Hg _ eq_refl). lia.
      * intros Hx. specialize (Hm _ Hx). lia.
    + contradiction.
  - intros h F.
    assert (F0 : fixed st h).
    { unfold fixed, previewHandles in *. rewrite P1, P2, P3, P4 in F.
      destruct F as [F | [F | (g & m & F)]]; auto.
      destruct (New h _ F) as [E0 | [_ E]]; [eauto |].
      destruct Hk as [-> | ->]; discriminate. }
    destruct (I4 h F0) as (Hc & Ht & [x Hx]).
    rewrite C, T, K. split; [| split].
    + apply elem_of_app. auto.
    + rewrite not_elem_of_app, list_elem_of_singleton. split; [exact Ht |].
      apply lookup_lt_Some in Hx. lia.
    + exists x. apply lookup_app_l_Some, Hx.
  - intros t. rewrite P2, P3, P4, K. intros Ht.
    destruct (I5 t Ht) as (d & m & g & mt & Hd & Hm & N1 & N2 & N3 & E & [xd Ed] & [xm Em]).
    exists d, m, g, mt. repeat split; auto.
    + apply lookup_app_l_Some, E.
    + exists xd. apply lookup_app_l_Some, Ed.
    + exists xm. apply lookup_app_l_Some, Em.
Qed.

Ltac spawns_tac :=
  cbv beta delta [drawRect drawCircle drawLine drawTriangle track
                  newGeometry newMaterial newObject updateObject Scene_add
                  withScene withSceneObjects] iota zeta;
  cbn [scene sceneObjects groundPlane towerPreviewMesh rangePreviewMesh
       invalidPlacementMesh children objects geometries materials fst snd];
  repeat split; eauto; norm_keys; reflexivity.

Lemma drawRect_spawns (x y width height r g b : number) (st : State) :
  spawns Mesh st (drawRect x y width height r g b st).
Proof. unfold spawns. spawns_tac. Qed.

Lemma drawCircle_spawns (x y radius r g b : number) (fill : bool) (st : State) :
  skipCircle y radius fill = false ->
  spawns Mesh st (drawCircle x y radius r g b fill st).
Proof. intros H. unfold spawns, drawCircle. rewrite H. spawns_tac. Qed.

Lemma drawLine_spawns (x1 y1 x2 y2 thickness r g b : number) (st : State) :
  spawns Line st (drawLine x1 y1 x2 y2 thickness r g b st).
Proof. unfold spawns. spawns_tac. Qed.

Lemma drawTriangle_spawns (x1 y1 x2 y2 x3 y3 r g b : number) (fill : bool) (st : State) :
  spawns (if fill then Mesh else Line) st (drawTriangle x1 y1 x2 y2 x3 y3 r g b fill st).
Proof. unfold spawns. destruct fill; spawns_tac. Qed.

(** *** Creating the ground plane and the preview primitives *)

Lemma createGroundPlane_shape (st : State) :
  let a := length (objects (scene st)) in
  let ng := length (geometries (scene st)) in
  let nm := length (materials (scene st)) in
  let st' := createGroundPlane st in
  keys (scene st') =
    keys (scene st) ++
    [ (Mesh, Some ng, One nm); (GridHelper, None, NoMaterial);
      (Mesh, Some (ng + 1), One (nm + 1)); (Mesh, Some (ng + 2), One (nm + 2));
      (Group, None, NoMaterial);
      (Mesh, Some (ng + 3), One (nm + 3)); (Mesh, Some (ng + 4), One (nm + 3)) ]%nat
  /\ children (scene st') = children (scene st) ++ [a; a + 1; a + 2; a + 3; a + 4]%nat
  /\ length (geometries (scene st')) = (ng + 5)%nat
  /\ length (materials (scene st')) = (nm + 4)%nat
  /\ groundPlane st' = Some a
  /\ towerPreviewMesh st' = Some (a + 2)%nat
  /\ rangePreviewMesh st' = Some (a + 3)%nat
  /\ invalidPlacementMesh st' = Some (a + 4)%nat
  /\ sceneObjects st' = sceneObjects st.
Proof.
  intros a ng nm st'. subst a ng nm st'.
  unfold createGroundPlane, createTowerPreviewMeshes.
  cbn -[num dec Number.mul originalWidth originalHeight].
  norm_keys.
  rewrite ?length_alter, ?length_app; cbn [length].
  rewrite ?length_alter, ?length_app; cbn [length].
  unfold key; cbn [okind geometry material].
  rewrite <- ?Nat.add_assoc; cbn [Nat.add].
  repeat split.
Qed.

Lemma Inv_createGroundPlane (st : State) : Inv st -> Inv (createGroundPlane st).
Proof.
  intros I.
  destruct (createGroundPlane_shape st) as (K & C & G & M & P1 & P2 & P3 & P4 & T).
  pose proof (fun h => Inv_tracked_valid st h I) as V.
  pose proof (Inv_tracked_bounds st) as B.
  assert (LK : length (keys (scene st)) = length (objects (scene st))).
  { unfold keys. apply length_fmap. }
  set (st' := createGroundPlane st) in *. clearbody st'.
  pose (a := length (objects (scene st))).
  pose (ng := length (geometries (scene st))).
  pose (nm := length (materials (scene st))).
  fold a ng nm in K, C, G, M, P1, P2, P3, P4, LK.
  assert (New : forall h x, keys (scene st') !! h = Some x ->
            keys (scene st) !! h = Some x
            \/ (a <= h)%nat /\
               [ (Mesh, Some ng, One nm); (GridHelper, None, NoMaterial);
                 (Mesh, Some (ng + 1), One (nm + 1)); (Mesh, Some (ng + 2), One (nm + 2));
                 (Group, None, NoMaterial);
                 (Mesh, Some (ng + 3), One (nm + 3));
                 (Mesh, Some (ng + 4), One (nm + 3)) ]%nat !! (h - a)%nat = Some x).
  { intros h x. rewrite K, lookup_app_Some, LK. tauto. }
  assert (Old : forall h x, keys (scene st) !! h = Some x -> keys (scene st') !! h = Some x).
  { intros h x E. rewrite K. apply lookup_app_l_Some, E. }
  assert (At : forall i x,
            [ (Mesh, Some ng, One nm); (GridHelper, None, NoMaterial);
              (Mesh, Some (ng + 1), One (nm + 1)); (Mesh, Some (ng + 2), One (nm + 2));
              (Group, None, NoMaterial);
              (Mesh, Some (ng + 3), One (nm + 3));
              (Mesh, Some (ng + 4), One (nm + 3)) ]%nat !! i = Some x ->
            keys (scene st') !! (a + i)%nat = Some x).
  { intros i x E. rewrite K, lookup_app_r by lia.
    replace (a + i - length (keys (scene st)))%nat with i by lia. exact E. }
  destruct I as [I1 I2 I3 I4 I5].
  split.
  - intros h. rewrite T. intros Hin.
    destruct (I1 h Hin) as (k & g & m & E & Hk). eauto 10.
  - intros h k g ms E. rewrite G, M.
    destruct (New h _ E) as [E0 | [Hle E1]].
    + destruct (I2 h k g ms E0) as [Hg Hm]. split; intros x Hx.
      * specialize (Hg x Hx). lia.
      * specialize (Hm x Hx). lia.
    + destruct (h - a)%nat as [| [| [| [| [| [| [| i]]]]]]]; cbn in E1; simplify_eq;
        split; intros x Hx; cbn in Hx; simplify_eq;
        try (apply list_elem_of_singleton in Hx as ->); try lia;
        try (apply elem_of_nil in Hx; contradiction).
  - intros h h' k g m k' g' ms'. rewrite T. intros Hin Hne E E'.
    destruct (I1 h Hin) as (k0 & g0 & m0 & E0 & _).
    rewrite (Old _ _ E0) in E. injection E as <- <- <-.
    destruct (B h _ _ _ (mkInv st I1 I2 I3 I4 I5) E0) as [Hg Hm].
    destruct (New h' _ E') as [E0' | [Hle E1]].
    + eapply I3; eassumption.
    + destruct (h' - a)%nat as [| [| [| [| [| [| [| i]]]]]]]; simplify_eq/=;
        (split; [intros ?; simplify_eq; lia
                | cbn; rewrite ?list_elem_of_singleton, ?elem_of_nil; lia || tauto]).
  - intros h F.
    assert (Hfix : forall i, (i < 5)%nat ->
              (a + i)%nat ∈ children (scene st) ++ [a; a + 1; a + 2; a + 3; a + 4]%nat
              /\ ((a + i)%nat ∉ sceneObjects st)
              /\ is_Some (keys (scene st') !! (a + i)%nat)).
    { intros i Hi. split; [| split].
      - apply elem_of_app. right.
        destruct i as [| [| [| [| [| i]]]]]; [.. | lia];
          rewrite ?Nat.add_0_r, !elem_of_cons; auto 10.
      - intros Hin. specialize (V _ Hin). lia.
      - destruct i as [| [| [| [| [| i]]]]]; [.. | lia];
          eexists; apply At; reflexivity. }
    rewrite C, T.
    destruct F as [F | [F | (g & m & F)]].
    + rewrite P1 in F. injection F as E.
      replace h with (a + 0)%nat by lia. apply Hfix. lia.
    + apply elem_of_previewHandles in F. rewrite P2, P3, P4 in F.
      destruct F as [[= E] | [[= E] | [= E]]]; rewrite <- E; apply Hfix; lia.
    + destruct (New h _ F) as [E0 | [Hle E1]].
      * destruct (I4 h) as (Hc & Ht & [x Hx]).
        { right. right. eauto. }
        split; [apply elem_of_app; auto | split; [exact Ht | eauto]].
      * destruct (h - a)%nat as [| [| [| [| [| [| [| i]]]]]]]; cbn in E1; simplify_eq.
  - intros t. rewrite P2, P3, P4. intros [= <-].
    exists (a + 3)%nat, (a + 4)%nat, (Some (ng + 1)%nat), (nm + 1)%nat.
    repeat split; try lia.
    + apply At. reflexivity.
    + eexists. apply At. reflexivity.
    + eexists. apply At. reflexivity.
Qed.

(** *** What [clear] does to the store *)

Lemma disposeMaterials_frame (ms : MaterialRef) (sc : Scene) :
  children (disposeMaterials ms sc) = children sc
  /\ objects (disposeMaterials ms sc) = objects sc
  /\ geometries (disposeMaterials ms sc) = geometries sc
  /\ length (materials (disposeMaterials ms sc)) = length (materials sc).
Proof.
  destruct ms as [| m | hs]; cbn; rewrite ?length_alter; auto.
  revert sc. induction hs as [| h hs IH]; intros sc; cbn; [auto |].
  destruct (IH (disposeMaterial h sc)) as (C & O & G & M).
  rewrite C, O, G, M. cbn. rewrite length_alter. auto.
Qed.

(** Disposing never changes a colour, and never revives a material. *)
Lemma disposeMaterials_lookup (ms : MaterialRef) (sc : Scene) (m : handle) :
  (m ∉ refs ms -> materials (disposeMaterials ms sc) !! m = materials sc !! m)
  /\ (m ∈ refs ms ->
      mdisposed <$> materials (disposeMaterials ms sc) !! m
      = (fun _ => true) <$> materials sc !! m)
  /\ color <$> materials (disposeMaterials ms sc) !! m = color <$> materials sc !! m
  /\ (mdisposed <$> materials sc !! m = Some true ->
      mdisposed <$> materials (disposeMaterials ms sc) !! m = Some true).
Proof.
  assert (One1 : forall h sc0,
    (m <> h -> materials (disposeMaterial h sc0) !! m = materials sc0 !! m)
    /\ (m = h -> mdisposed <$> materials (disposeMaterial h sc0) !! m
                 = (fun _ => true) <$> materials sc0 !! m)
    /\ color <$> materials (disposeMaterial h sc0) !! m = color <$> materials sc0 !! m
    /\ (mdisposed <$> materials sc0 !! m = Some true ->
        mdisposed <$> materials (disposeMaterial h sc0) !! m = Some true)).
  { intros h sc0. cbn. rewrite list_lookup_alter.
    destruct (decide (h = m)) as [-> | N]; repeat split; try congruence;
      destruct (materials sc0 !! m); cbn; auto. }
  destruct ms as [| h | hs]; cbn [disposeMaterials refs].
  - repeat split; auto. intros H. apply elem_of_nil in H. contradiction.
  - destruct (One1 h sc) as (A & B & C & D). repeat split; auto.
    + intros H. apply A. intros ->. apply H, list_elem_of_singleton. reflexivity.
    + intros H. apply B, list_elem_of_singleton, H.
  - revert sc. induction hs as [| h hs IH]; intros sc; cbn [foldl].
    + repeat split; auto. intros H. apply elem_of_nil in H. contradiction.
    + destruct (IH (disposeMaterial h sc)) as (A & B & C & D).
      destruct (One1 h sc) as (A1 & B1 & C1 & D1).
      repeat split.
      * intros H. apply not_elem_of_cons in H as [H1 H2].
        rewrite A by exact H2. apply A1, H1.
      * intros H. destruct (decide (m ∈ hs)) as [Hin | Hout].
        -- rewrite B by exact Hin.
           destruct (decide (m = h)) as [E | N].
           ++ specialize (B1 E). destruct (materials (disposeMaterial h sc) !! m),
                (materials sc !! m); cbn in *; congruence.
           ++ rewrite A1 by exact N. reflexivity.
        -- rewrite A by exact Hout. apply B1.
           apply elem_of_cons in H as [H | H]; [exact H | contradiction].
      * rewrite C. apply C1.
      * intros H. apply D, D1, H.
Qed.

Lemma clearObject_frame (sc : Scene) (h : handle) :
  children (clearObject sc h) = filter (fun c => c <> h) (children sc)
  /\ objects (clearObject sc h) = objects sc
  /\ length (geometries (clearObject sc h)) = length (geometries sc)
  /\ length (materials (clearObject sc h)) = length (materials sc).
Proof.
  unfold clearObject. cbn [objects Scene_remove].
  destruct (objects sc !! h) as [o |]; [| cbn; auto].
  destruct (okind o); try (cbn; auto; fail).
  destruct (disposeMaterials_frame (material o)
              (match geometry o with
               | Some g => disposeGeometry g (Scene_remove h sc)
               | None => Scene_remove h sc
               end)) as (C & O & G & M).
  rewrite C, O, G, M. destruct (geometry o); cbn; rewrite ?length_alter; auto.
Qed.

Lemma clearObject_geometry (sc : Scene) (h g : handle) :
  ((forall ms, keys sc !! h <> Some (Mesh, Some g, ms)) ->
   geometries (clearObject sc h) !! g = geometries sc !! g)
  /\ (forall ms, keys sc !! h = Some (Mesh, Some g, ms) ->
      gdisposed <$> geometries (clearObject sc h) !! g
      = (fun _ => true) <$> geometries sc !! g)
  /\ (gdisposed <$> geometries sc !! g = Some true ->
      gdisposed <$> geometries (clearObject sc h) !! g = Some true).
Proof.
  unfold clearObject. cbn [objects Scene_remove]. rewrite keys_lookup.
  destruct (objects sc !! h) as [o |]; cbn [fmap option_fmap option_map]; unfold key;
    [| repeat split; auto; intros; discriminate].
  destruct (okind o) eqn:K; try (repeat split; auto; intros; discriminate).
  destruct (disposeMaterials_frame (material o)
              (match geometry o with
               | Some g0 => disposeGeometry g0 (Scene_remove h sc)
               | None => Scene_remove h sc
               end)) as (_ & _ & -> & _).
  destruct (geometry o) as [g0 |]; cbn [geometries disposeGeometry Scene_remove];
    [| repeat split; auto; intros; discriminate].
  rewrite list_lookup_alter.
  destruct (decide (g0 = g)) as [-> | N].
  - repeat split.
    + intros H. exfalso. apply (H (material o)). reflexivity.
    + intros _ _. destruct (geometries sc !! g); reflexivity.
    + intros H. destruct (geometries sc !! g); [reflexivity | discriminate H].
  - repeat split; auto. intros ms E. simplify_eq.
Qed.

Lemma clearObject_material (sc : Scene) (h m : handle) :
  ((forall g ms, keys sc !! h = Some (Mesh, g, ms) -> m ∉ refs ms) ->
   materials (clearObject sc h) !! m = materials sc !! m)
  /\ (forall g ms, keys sc !! h = Some (Mesh, g, ms) -> m ∈ refs ms ->
      mdisposed <$> materials (clearObject sc h) !! m
      = (fun _ => true) <$> materials sc !! m)
  /\ color <$> materials (clearObject sc h) !! m = color <$> materials sc !! m
  /\ (mdisposed <$> materials sc !! m = Some true ->
      mdisposed <$> materials (clearObject sc h) !! m = Some true).
Proof.
  unfold clearObject. cbn [objects Scene_remove]. rewrite keys_lookup.
  destruct (objects sc !! h) as [o |]; cbn [fmap option_fmap option_map]; unfold key;
    [| repeat split; auto; intros; discriminate].
  destruct (okind o) eqn:K; try (repeat split; auto; intros; discriminate).
  destruct (disposeMaterials_lookup (material o)
              (match geometry o with
               | Some g0 => disposeGeometry g0 (Scene_remove h sc)
               | None => Scene_remove h sc
               end) m) as (A & B & C & D).
  assert (E : materials (match geometry o with
                         | Some g0 => disposeGeometry g0 (Scene_remove h sc)
                         | None => Scene_remove h sc
                         end) = materials sc).
  { destruct (geometry o); reflexivity. }
  rewrite E in A, B, C, D. repeat split; auto.
  - intros H. apply A. eapply H. reflexivity.
  - intros g ms [= <- <-]. exact B.
Qed.

Lemma clear_frame (l : list handle) (sc : Scene) :
  objects (foldl clearObject sc l) = objects sc
  /\ length (geometries (foldl clearObject sc l)) = length (geometries sc)
  /\ length (materials (foldl clearObject sc l)) = length (materials sc)
  /\ (forall h, h ∈ children (foldl clearObject sc l) <-> h ∈ children sc /\ h ∉ l).
Proof.
  revert sc. induction l as [| x l IH]; intros sc; cbn [foldl].
  - split; [| split; [| split]]; auto.
    intros h. split.
    + intros H. split; [exact H | apply not_elem_of_nil].
    + intros [H _]. exact H.
  - destruct (IH (clearObject sc x)) as (O & G & M & C).
    destruct (clearObject_frame sc x) as (C1 & O1 & G1 & M1).
    rewrite O, G, M, O1, G1, M1. split; [| split; [| split]]; auto.
    intros h. split.
    + intros H. apply C in H as [H Hl]. rewrite C1 in H.
      apply list_elem_of_filter in H as [Hne H].
      split; [exact H |]. apply not_elem_of_cons. auto.
    + intros [H Hl]. apply not_elem_of_cons in Hl as [Hne Hl].
      apply C. split; [| exact Hl]. rewrite C1.
      apply list_elem_of_filter. auto.
Qed.

Lemma clear_keys (l : list handle) (sc : Scene) :
  keys (foldl clearObject sc l) = keys sc.
Proof. unfold keys. destruct (clear_frame l sc) as (-> & _). reflexivity. Qed.

Lemma clearObject_keys (sc : Scene) (h : handle) : keys (clearObject sc h) = keys sc.
Proof. apply (clear_keys [h] sc). Qed.

Lemma clear_geometry (l : list handle) (sc : Scene) (g : handle) :
  ((forall h ms, h ∈ l -> keys sc !! h <> Some (Mesh, Some g, ms)) ->
   geometries (foldl clearObject sc l) !! g = geometries sc !! g)
  /\ (forall h ms, h ∈ l -> keys sc !! h = Some (Mesh, Some g, ms) ->
      gdisposed <$> geometries (foldl clearObject sc l) !! g
      = (fun _ => true) <$> geometries sc !! g)
  /\ (gdisposed <$> geometries sc !! g = Some true ->
      gdisposed <$> geometries (foldl clearObject sc l) !! g = Some true).
Proof.
  revert sc. induction l as [| x l IH]; intros sc; cbn [foldl].
  - repeat split; auto. intros h ms H. apply elem_of_nil in H. contradiction.
  - destruct (IH (clearObject sc x)) as (A & B & C).
    destruct (clearObject_geometry sc x g) as (A1 & B1 & C1).
    rewrite clearObject_keys in A, B.
    repeat split.
    + intros H. rewrite A.
      * apply A1. intros ms. apply H. left.
      * intros h ms Hin. apply H. right. exact Hin.
    + intros h ms Hin Hk.
      assert (Valid : gdisposed <$> geometries (clearObject sc x) !! g = Some true
                      -> gdisposed <$> geometries (foldl clearObject (clearObject sc x) l) !! g
                         = (fun _ => true) <$> geometries sc !! g).
      { intros D. rewrite (C D).
        destruct (geometries sc !! g) eqn:E; [reflexivity |].
        apply lookup_ge_None in E.
        destruct (clearObject_frame sc x) as (_ & _ & L & _).
        destruct (geometries (clearObject sc x) !! g) eqn:E'; [| discriminate].
        apply lookup_lt_Some in E'. lia. }
      assert (Hcase : (exists ms', keys sc !! x = Some (Mesh, Some g, ms'))
                      \/ (forall ms', keys sc !! x <> Some (Mesh, Some g, ms'))).
      { destruct (keys sc !! x) as [[[k gx] msx] |]; [| right; discriminate].
        destruct (decide (k = Mesh /\ gx = Some g)) as [[-> ->] | N].
        - left. eauto.
        - right. intros ms' [= -> -> _]. apply N. auto. }
      destruct Hcase as [[ms' Hx] | Hx].
      * specialize (B1 _ Hx).
        destruct (geometries sc !! g) eqn:E.
        -- apply Valid. rewrite B1. reflexivity.
        -- destruct (clearObject_frame sc x) as (_ & _ & L & _).
           apply lookup_ge_None in E.
           rewrite (proj2 (lookup_ge_None _ g)); [reflexivity |].
           destruct (clear_frame l (clearObject sc x)) as (_ & L' & _). lia.
      * rewrite <- A1 by exact Hx.
        apply elem_of_cons in Hin as [-> | Hin]; [exfalso; eapply Hx; eauto |].
        eapply B; eassumption.
    + intros H. apply C, C1, H.
Qed.

Lemma clear_material (l : list handle) (sc : Scene) (m : handle) :
  ((forall h g ms, h ∈ l -> keys sc !! h = Some (Mesh, g, ms) -> m ∉ refs ms) ->
   materials (foldl clearObject sc l) !! m = materials sc !! m)
  /\ color <$> materials (foldl clearObject sc l) !! m = color <$> materials sc !! m
  /\ (mdisposed <$> materials sc !! m = Some true ->
      mdisposed <$> materials (foldl clearObject sc l) !! m = Some true).
Proof.
  revert sc. induction l as [| x l IH]; intros sc; cbn [foldl].
  - auto.
  - destruct (IH (clearObject sc x)) as (A & C & D).
    destruct (clearObject_material sc x m) as (A1 & _ & C1 & D1).
    rewrite clearObject_keys in A.
    split; [| split].
    + intros H. rewrite A.
      * apply A1. intros g ms. apply H. left.
      * intros h g ms Hin. apply H. right. exact Hin.
    + rewrite C. exact C1.
    + intros H. apply D, D1, H.
Qed.

Lemma clear_material_disposed (l : list handle) (sc : Scene) (h m : handle) g ms :
  h ∈ l -> keys sc !! h = Some (Mesh, g, ms) -> m ∈ refs ms ->
  (m < length (materials sc))%nat ->
  mdisposed <$> materials (foldl clearObject sc l) !! m = Some true.
Proof.
  revert sc. induction l as [| x l IH]; intros sc Hin Hk Hm Hlt; cbn [foldl].
  - apply elem_of_nil in Hin. contradiction.
  - destruct (clearObject_frame sc x) as (_ & _ & _ & L).
    apply elem_of_cons in Hin as [-> | Hin].
    + apply clear_material.
      destruct (clearObject_material sc x m) as (_ & B & _).
      rewrite (B _ _ Hk Hm).
      destruct (lookup_lt_is_Some_2 _ _ Hlt) as [y ->]. reflexivity.
    + apply IH; [exact Hin | rewrite clearObject_keys; exact Hk | exact Hm | lia].
Qed.

Lemma clear_scene (st : State) :
  scene (clear st) = foldl clearObject (scene st) (sceneObjects st)
  /\ sceneObjects (clear st) = []
  /\ groundPlane (clear st) = groundPlane st
  /\ towerPreviewMesh (clear st) = towerPreviewMesh st
  /\ rangePreviewMesh (clear st) = rangePreviewMesh st
  /\ invalidPlacementMesh (clear st) = invalidPlacementMesh st
  /\ currentHoverPosition (clear st) = currentHoverPosition st.
Proof. repeat split. Qed.

Lemma Inv_clear (st : State) : Inv st -> Inv (clear st).
Proof.
  intros [I1 I2 I3 I4 I5].
  destruct (clear_scene st) as (S & T & P1 & P2 & P3 & P4 & _).
  destruct (clear_frame (sceneObjects st) (scene st)) as (_ & G & M & C).
  pose proof (clear_keys (sceneObjects st) (scene st)) as K.
  rewrite <- S in G, M, C, K.
  split; rewrite ?T, ?K, ?G, ?M, ?P2, ?P3, ?P4; auto.
  - intros h H. apply elem_of_nil in H. contradiction.
  - intros h h' k g m k' g' ms' H. apply elem_of_nil in H. contradiction.
  - intros h F.
    assert (F0 : fixed st h).
    { unfold fixed, previewHandles in *. rewrite K, P1, P2, P3, P4 in F. exact F. }
    destruct (I4 h F0) as (Hc & Ht & Hs).
    split; [apply C; auto | split; [apply not_elem_of_nil | exact Hs]].
Qed.

(** *** The preview, the constructor, initialisation *)

Lemma drawTowerPreview_frame (x y : number) (canPlace : bool) (range : number)
    (st : State) :
  let st' := drawTowerPreview x y canPlace range st in
  keys (scene st') = keys (scene st)
  /\ children (scene st') = children (scene st)
  /\ geometries (scene st') = geometries (scene st)
  /\ length (materials (scene st')) = length (materials (scene st))
  /\ sceneObjects st' = sceneObjects st
  /\ groundPlane st' = groundPlane st
  /\ towerPreviewMesh st' = towerPreviewMesh st
  /\ rangePreviewMesh st' = rangePreviewMesh st
  /\ invalidPlacementMesh st' = invalidPlacementMesh st
  /\ currentHoverPosition st' = currentHoverPosition st.
Proof.
  unfold drawTowerPreview.
  destruct ((x <? num 0)%number || (y <? num 0)%number).
  - rewrite hidePreview_frame. cbn [scene withScene children geometries materials].
    unfold keys at 1. cbn [objects]. fold (keys (scene (hidePreview st))).
    unfold hidePreview at 1. cbn [scene withScene]. rewrite !keys_hide.
    repeat split.
  - cbn [scene withScene sceneObjects groundPlane towerPreviewMesh rangePreviewMesh
         invalidPlacementMesh currentHoverPosition].
    destruct (invalidPlacementMesh st) as [marker |],
             (rangePreviewMesh st) as [disc |],
             (towerPreviewMesh st) as [tower |],
             (canPlace && (range >? num 0)%number);
      rewrite ?keys_updateObject by (intros []; reflexivity);
      cbn [children geometries materials updateObject];
      try (destruct (setMaterialColor_frame tower (if canPlace then accent else red)
                       (updateObject tower (setVisible true)
                          (updateObject tower
                             (setPosition
                                (mkVec3 (x3 (gameToWorldCoords x y)) (num 30 / num 2)%number
                                        (z3 (gameToWorldCoords x y))))
                             (scene st)))) as (C & O & G & M);
           rewrite C, G, M; unfold keys; rewrite O;
           fold (keys (updateObject tower (setVisible true)
                          (updateObject tower
                             (setPosition
                                (mkVec3 (x3 (gameToWorldCoords x y)) (num 30 / num 2)%number
                                        (z3 (gameToWorldCoords x y))))
                             (scene st))));
           rewrite ?keys_updateObject by (intros []; reflexivity));
      repeat split.
Qed.

Lemma Inv_drawTowerPreview (x y : number) (canPlace : bool) (range : number)
    (st : State) :
  Inv st -> Inv (drawTowerPreview x y canPlace range st).
Proof.
  destruct (drawTowerPreview_frame x y canPlace range st)
    as (K & C & G & M & T & P1 & P2 & P3 & P4 & _).
  apply Inv_ext; auto. rewrite G. reflexivity.
Qed.

Lemma Inv_constructor (env : Env) : Inv (constructor env).
Proof.
  split; cbn [constructor scene sceneObjects towerPreviewMesh].
  - intros h H. apply elem_of_nil in H. contradiction.
  - intros h k g ms H.
    destruct h as [| [| [| [| h]]]]; cbn in H; unfold key in H; cbn in H; simplify_eq;
      split; intros x Hx; first [discriminate | apply elem_of_nil in Hx; contradiction].
  - intros h h' k g m k' g' ms' H. apply elem_of_nil in H. contradiction.
  - intros h [F | [F | (g & m & F)]].
    + discriminate.
    + apply elem_of_previewHandles in F. cbn in F. destruct F as [F | [F | F]]; discriminate.
    + split; [| split; [apply not_elem_of_nil | eauto]].
      destruct h as [| [| [| [| h]]]]; cbn in F; unfold key in F; cbn in F;
        simplify_eq; cbn; rewrite !elem_of_cons; auto.
  - discriminate.
Qed.

Lemma Inv_handleResize (env : Env) (st : State) : Inv st -> Inv (handleResize env st).
Proof.
  unfold handleResize. destruct (container st); [| auto].
  apply Inv_ext; reflexivity.
Qed.

Lemma Inv_setupEventListeners (st : State) : Inv st -> Inv (setupEventListeners st).
Proof. apply Inv_ext; reflexivity. Qed.

Lemma Inv_initialize (env : Env) (st : State) : Inv st -> Inv (fst (initialize env st)).
Proof.
  intros I. unfold initialize.
  destruct (document env !! containerId) as [element |]; cbn [fst].
  - apply Inv_handleResize, Inv_setupEventListeners, Inv_createGroundPlane.
    revert I. apply Inv_ext; reflexivity.
  - revert I. apply Inv_ext; reflexivity.
Qed.

(** Every reachable state satisfies the invariant. *)
Lemma reachable_Inv (st : State) : reachable st -> Inv st.
Proof.
  induction 1 as [env | env c st R IH].
  - apply Inv_constructor.
  - destruct c; cbn [call].
    + apply Inv_initialize, IH.
    + apply Inv_clear, IH.
    + exact IH.
    + eapply Inv_spawns; [| apply drawRect_spawns | exact IH]. auto.
    + destruct (skipCircle y radius fill) eqn:S.
      * rewrite drawCircle_skipped by exact S. exact IH.
      * eapply Inv_spawns; [| apply drawCircle_spawns, S | exact IH]. auto.
    + eapply Inv_spawns; [| apply drawLine_spawns | exact IH]. auto.
    + eapply Inv_spawns; [| apply drawTriangle_spawns | exact IH].
      destruct fill; auto.
    + unfold drawText. destruct (textContext st); [| exact IH].
      apply Inv_withTextContext, IH.
    + apply Inv_drawTowerPreview, IH.
    + revert IH. apply Inv_ext; reflexivity.
    + apply Inv_dispatch, IH.
Qed.

Lemma started_reachable : reachable started.
Proof.
  unfold started.
  apply (reachable_call (browser WasmLoader noHit) Initialize).
  apply reachable_new.
Qed.

(** ** [clear] and the tracked objects *)

(** No tracked mesh refers to the geometry or to a material of an object
    that is not tracked. *)
Lemma untracked_resources (st : State) (h : handle) (o : Object3D) :
  Inv st -> h ∉ sceneObjects st -> objects (scene st) !! h = Some o ->
  (forall g, geometry o = Some g ->
     forall h' ms, h' ∈ sceneObjects st -> keys (scene st) !! h' <> Some (Mesh, Some g, ms))
  /\ (forall m, m ∈ refs (material o) ->
        forall h' g ms, h' ∈ sceneObjects st ->
          keys (scene st) !! h' = Some (Mesh, g, ms) -> m ∉ refs ms).
Proof.
  intros I Hout Ho. apply keys_lookup_Some in Ho.
  split.
  - intros g Hg h' ms Hin Hk.
    destruct (inv_tracked st I h' Hin) as (k & g' & m' & Hk' & _).
    rewrite Hk in Hk'. injection Hk' as <- <- ->.
    assert (Hne : h' <> h) by (intros ->; contradiction).
    destruct (inv_owned st I h' h _ _ _ _ _ _ Hin Hne Hk Ho) as [N _].
    apply N, Hg.
  - intros m Hm h' g ms Hin Hk.
    destruct (inv_tracked st I h' Hin) as (k & g' & m' & Hk' & _).
    rewrite Hk in Hk'. injection Hk' as <- -> ->.
    assert (Hne : h' <> h) by (intros ->; contradiction).
    destruct (inv_owned st I h' h _ _ _ _ _ _ Hin Hne Hk Ho) as [_ N].
    cbn. rewrite list_elem_of_singleton. intros ->. contradiction.
Qed.

(** What [clear] does achieve: every tracked mesh has its geometry and its
    material disposed, and the tracked collection is emptied. *)
Lemma clear_disposes_meshes (st : State) (h g m : handle) :
  reachable st -> h ∈ sceneObjects st ->
  keys (scene st) !! h = Some (Mesh, Some g, One m) ->
  sceneObjects (clear st) = []
  /\ (h ∉ children (scene (clear st)))
  /\ gdisposed <$> geometries (scene (clear st)) !! g = Some true
  /\ mdisposed <$> materials (scene (clear st)) !! m = Some true.
Proof.
  intros R Hin Hk. pose proof (reachable_Inv st R) as I.
  destruct (Inv_tracked_bounds st h _ _ _ I Hk) as [Hg Hm].
  destruct (clear_scene st) as (-> & T & _).
  split; [exact T | split; [| split]].
  - intros Hc. apply clear_frame in Hc as [_ Hc]. contradiction.
  - destruct (clear_geometry (sceneObjects st) (scene st) g) as (_ & B & _).
    rewrite (B h _ Hin Hk).
    destruct (lookup_lt_is_Some_2 _ _ Hg) as [x ->]. reflexivity.
  - eapply clear_material_disposed; [exact Hin | exact Hk | | exact Hm].
    cbn. apply list_elem_of_singleton. reflexivity.
Qed.

(** C1, on the code: drawing a line and clearing, from any reachable
    state.  The line is tracked, [clear] empties the tracked collection and
    takes the line out of the scene, but the geometry and the material of
    the line are left undisposed, since [clear] disposes the resources of
    instances of [THREE.Mesh] only. *)
Theorem clear_leaves_line_resources
    (st : State) (x1 y1 x2 y2 thickness r g b : number) :
  reachable st ->
  let st1 := drawLine x1 y1 x2 y2 thickness r g b st in
  let st2 := clear st1 in
  let line := length (objects (scene st)) in
  let geometry := length (geometries (scene st)) in
  let material := length (materials (scene st)) in
  sceneObjects st1 = sceneObjects st ++ [line]
  /\ keys (scene st1) !! line = Some (Line, Some geometry, One material)
  /\ sceneObjects st2 = []
  /\ (line ∉ children (scene st2))
  /\ gdisposed <$> geometries (scene st2) !! geometry = Some false
  /\ mdisposed <$> materials (scene st2) !! material = Some false.
Proof.
  intros R st1 st2 line gh mh. pose proof (reachable_Inv st R) as I.
  destruct (drawLine_spawns x1 y1 x2 y2 thickness r g b st)
    as (K & C & (s & G) & (mat & M & D) & T & _).
  fold st1 in K, C, G, M, T.
  assert (LK : length (keys (scene st)) = line) by (unfold keys; apply length_fmap).
  assert (Hk : keys (scene st1) !! line = Some (Line, Some gh, One mh)).
  { rewrite K, lookup_app_r by lia. rewrite LK, Nat.sub_diag. reflexivity. }
  assert (Old : forall h, h ∈ sceneObjects st1 -> h <> line ->
            exists k g0 m0, keys (scene st1) !! h = Some (k, Some g0, One m0)
                            /\ (g0 < gh)%nat /\ (m0 < mh)%nat).
  { intros h Hin Hne. rewrite T, elem_of_app, list_elem_of_singleton in Hin.
    destruct Hin as [Hin | ->]; [| contradiction].
    destruct (inv_tracked st I h Hin) as (k & g0 & m0 & E & _).
    destruct (Inv_tracked_bounds st h _ _ _ I E) as [Hg Hm].
    exists k, g0, m0. rewrite K. split; [apply lookup_app_l_Some, E | auto]. }
  destruct (clear_scene st1) as (S & T2 & _). fold st2 in S, T2.
  split; [exact T | split; [exact Hk | split; [exact T2 | split; [| split]]]].
  - rewrite S. intros Hc. apply clear_frame in Hc as [_ Hc]. apply Hc.
    rewrite T, elem_of_app, list_elem_of_singleton. auto.
  - rewrite S.
    destruct (clear_geometry (sceneObjects st1) (scene st1) gh) as (A & _).
    rewrite A.
    + rewrite G, lookup_app_r by lia. rewrite Nat.sub_diag. reflexivity.
    + intros h ms Hin E. destruct (decide (h = line)) as [-> | Hne].
      * rewrite Hk in E. discriminate.
      * destruct (Old h Hin Hne) as (k & g0 & m0 & E0 & Hg & _).
        rewrite E in E0. injection E0 as _ <- _. lia.
  - rewrite S.
    destruct (clear_material (sceneObjects st1) (scene st1) mh) as (A & _).
    rewrite A.
    + rewrite M, lookup_app_r by lia. rewrite Nat.sub_diag. cbn. rewrite D. reflexivity.
    + intros h g0 ms Hin E. destruct (decide (h = line)) as [-> | Hne].
      * rewrite Hk in E. discriminate.
      * destruct (Old h Hin Hne) as (k & g1 & m0 & E0 & _ & Hm).
        rewrite E in E0. injection E0 as _ _ ->.
        cbn. rewrite list_elem_of_singleton. lia.
Qed.

Lemma clear_leaves_line_resources_witness :
  reachable started
  /\ gdisposed <$> geometries (scene (clear (drawLine (num 0) (num 0) (num 100) (num 100)
                                              (num 1) (num 255) (num 0) (num 0) started)))
                   !! 5%nat = Some false.
Proof.
  split; [exact started_reachable |].
  apply (clear_leaves_line_resources started (num 0) (num 0) (num 100) (num 100)
           (num 1) (num 255) (num 0) (num 0) started_reachable).
Defined.

(** C8. [clear] changes no object: visibility, position and scale of every
    object are as before, and so is the colour of every material; the
    fields holding the ground plane and the preview primitives are as
    before; only tracked objects leave the scene.  In a reachable state
    the ground plane, the preview primitives and the lights are not
    tracked, so they stay in the scene, and no object that is not tracked
    has its geometry or a material disposed. *)
Theorem clear_keeps_fixed_objects (st : State) :
  (objects (scene (clear st)) = objects (scene st)
   /\ (forall m, color <$> materials (scene (clear st)) !! m
                 = color <$> materials (scene st) !! m)
   /\ groundPlane (clear st) = groundPlane st
   /\ towerPreviewMesh (clear st) = towerPreviewMesh st
   /\ rangePreviewMesh (clear st) = rangePreviewMesh st
   /\ invalidPlacementMesh (clear st) = invalidPlacementMesh st)
  /\ (forall h, h ∈ children (scene st) -> h ∉ sceneObjects st ->
        h ∈ children (scene (clear st)))
  /\ (reachable st ->
      (forall h, fixed st h ->
         (h ∉ sceneObjects st) /\ h ∈ children (scene (clear st)))
      /\ (forall h o, h ∉ sceneObjects st -> objects (scene st) !! h = Some o ->
            (forall g, geometry o = Some g ->
               geometries (scene (clear st)) !! g = geometries (scene st) !! g)
            /\ (forall m, m ∈ refs (material o) ->
                  materials (scene (clear st)) !! m = materials (scene st) !! m))).
Proof.
  destruct (clear_scene st) as (S & T & P1 & P2 & P3 & P4 & _).
  destruct (clear_frame (sceneObjects st) (scene st)) as (O & _ & _ & C).
  rewrite S. split; [| split].
  - repeat split; auto. intros m. apply clear_material.
  - intros h Hc Ht. apply C. auto.
  - intros R. pose proof (reachable_Inv st R) as I. split.
    + intros h F. destruct (inv_fixed st I h F) as (Hc & Ht & _).
      split; [exact Ht | apply C; auto].
    + intros h o Ht Ho.
      destruct (untracked_resources st h o I Ht Ho) as [Hg Hm]. split.
      * intros g E. apply clear_geometry. apply Hg, E.
      * intros m E. apply clear_material. apply Hm, E.
Qed.

Lemma clear_keeps_fixed_objects_witness :
  reachable started
  /\ fixed started 6%nat
  /\ 6%nat ∈ children (scene (clear started)).
Proof.
  split; [exact started_reachable |].
  assert (F : fixed started 6%nat).
  { right. left. apply elem_of_previewHandles. left. reflexivity. }
  split; [exact F |].
  apply (proj1 (proj2 (proj2 (clear_keeps_fixed_objects started)) started_reachable) 6%nat F).
Defined.

(** ** The preview of a placeable tower *)

Lemma ge_zero_not_lt (x : number) :
  (x >=? num 0)%number = true -> (x <? num 0)%number = false.
Proof. destruct x as [s | s | | s m e]; try destruct s; cbv; congruence. Qed.

Lemma le_zero_not_gt (x : number) :
  (x <=? num 0)%number = true -> (x >? num 0)%number = false.
Proof. destruct x as [s | s | | s m e]; try destruct s; cbv; congruence. Qed.

Lemma updateObject_lookup (h i : handle) (f : Object3D -> Object3D) (sc : Scene) :
  objects (updateObject h f sc) !! i =
  if decide (h = i) then f <$> objects sc !! i else objects sc !! i.
Proof.
  cbn [updateObject objects]. rewrite list_lookup_alter.
  destruct (decide (h = i)) as [-> |]; reflexivity.
Qed.

(** C10. In a reachable state whose preview primitives exist,
    [drawTowerPreview] with non-negative coordinates and [canPlace = true]
    makes the range disc visible exactly when [range > 0]; the placement
    cube is visible and its material has the accent colour; with
    [range <= 0] the disc is hidden. *)
Theorem drawTowerPreview_range_disc
    (st : State) (x y range : number) (tower disc : handle) :
  reachable st ->
  towerPreviewMesh st = Some tower -> rangePreviewMesh st = Some disc ->
  (x >=? num 0)%number = true -> (y >=? num 0)%number = true ->
  let st' := drawTowerPreview x y true range st in
  visible <$> objects (scene st') !! disc = Some (range >? num 0)%number
  /\ visible <$> objects (scene st') !! tower = Some true
  /\ (exists o mat, objects (scene st') !! tower = Some o /\ material o = One mat
                    /\ color <$> materials (scene st') !! mat = Some accent)
  /\ ((range <=? num 0)%number = true ->
      visible <$> objects (scene st') !! disc = Some false).
Proof.
  intros R Pt Pd Hx Hy st'. pose proof (reachable_Inv st R) as I.
  destruct (inv_preview st I tower Pt)
    as (d & marker & g & mat & Pd' & Pm & N1 & N2 & N3 & Kt & [kd Kd] & [km Km]).
  rewrite Pd in Pd'. injection Pd' as <-.
  assert (Hmat : (mat < length (materials (scene st)))%nat).
  { destruct (inv_resources st I tower _ _ _ Kt) as [_ Hm]. apply Hm.
    cbn. apply list_elem_of_singleton. reflexivity. }
  rewrite keys_lookup in Kt, Kd.
  destruct (objects (scene st) !! tower) as [ot |] eqn:Ot; [| discriminate].
  destruct (objects (scene st) !! disc) as [od |] eqn:Od; [| discriminate].
  injection Kt as _ _ Mt.
  unfold st', drawTowerPreview.
  rewrite (ge_zero_not_lt x Hx), (ge_zero_not_lt y Hy), Pt, Pd, Pm.
  cbn [orb andb negb scene withScene].
  set (sc1 := updateObject tower (setVisible true)
                (updateObject tower
                   (setPosition (mkVec3 (x3 (gameToWorldCoords x y)) (num 30 / num 2)%number
                                        (z3 (gameToWorldCoords x y))))
                   (scene st))).
  assert (O1t : objects sc1 !! tower
                = Some (setVisible true
                          (setPosition (mkVec3 (x3 (gameToWorldCoords x y))
                                               (num 30 / num 2)%number
                                               (z3 (gameToWorldCoords x y))) ot))).
  { unfold sc1. rewrite !updateObject_lookup, !decide_True, Ot by reflexivity.
    reflexivity. }
  assert (O1d : objects sc1 !! disc = Some od).
  { unfold sc1. rewrite !updateObject_lookup, !decide_False by exact N1. exact Od. }
  set (sc2 := setMaterialColor tower accent sc1).
  assert (O2 : objects sc2 = objects sc1).
  { apply setMaterialColor_frame. }
  assert (M2 : materials sc2 = alter (setColor accent) mat (materials (scene st))).
  { unfold sc2, setMaterialColor. rewrite O1t. cbn [material setVisible setPosition].
    rewrite Mt. reflexivity. }
  assert (Col : color <$> alter (setColor accent) mat (materials (scene st)) !! mat
                = Some accent).
  { rewrite list_lookup_alter_eq.
    destruct (lookup_lt_is_Some_2 _ _ Hmat) as [m0 ->]. reflexivity. }
  assert (Disc : forall b : bool,
            (range >? num 0)%number = b ->
            visible <$> objects
              (updateObject marker (setVisible (negb true))
                 (updateObject marker
                    (setPosition (mkVec3 (x3 (gameToWorldCoords x y)) (num 10)
                                         (z3 (gameToWorldCoords x y))))
                    (if (range >? num 0)%number
                     then updateObject disc (setVisible true)
                            (updateObject disc
                               (setScale (mkVec3 (range / num 100) (range / num 100)
                                                 (range / num 100))%number)
                               (updateObject disc
                                  (setPosition
                                     (mkVec3 (x3 (gameToWorldCoords x y)) (dec 1 2)
                                             (z3 (gameToWorldCoords x y)))) sc2))
                     else updateObject disc (setVisible false) sc2))) !! disc
            = Some b).
  { intros b <-. rewrite !updateObject_lookup, !decide_False by (intros E; apply N3; auto).
    destruct (range >? num 0)%number;
      rewrite !updateObject_lookup, !decide_True, O2, O1d by reflexivity; reflexivity. }
  split; [apply Disc; reflexivity | split; [| split]].
  - rewrite !updateObject_lookup, !decide_False by (intros E; apply N2; auto).
    destruct (range >? num 0)%number;
      rewrite !updateObject_lookup, !decide_False, O2, O1t by (intros E; apply N1; auto);
      reflexivity.
  - eexists _, mat. split; [| split].
    + rewrite !updateObject_lookup, !decide_False by (intros E; apply N2; auto).
      destruct (range >? num 0)%number;
        rewrite !updateObject_lookup, !decide_False, O2, O1t
          by (intros E; apply N1; auto); reflexivity.
    + cbn [material setVisible setPosition]. exact Mt.
    + destruct (range >? num 0)%number; cbn [materials updateObject];
        rewrite M2; exact Col.
  - intros Hr. apply Disc. apply le_zero_not_gt, Hr.
Qed.

Lemma drawTowerPreview_range_disc_witness :
  reachable started
  /\ (num 100 >=? num 0)%number = true
  /\ visible <$> objects (scene (drawTowerPreview (num 100) (num 100) true (num 0) started))
                 !! 7%nat = Some false.
Proof.
  split; [exact started_reachable |]. split; [reflexivity |].
  apply (drawTowerPreview_range_disc started (num 100) (num 100) (num 0) 6%nat 7%nat
           started_reachable eq_refl eq_refl eq_refl eq_refl).
  reflexivity.
Defined.

(** ** Coordinate conversion on doubles *)

Lemma roundTrip_components (x y : number) :
  roundTrip x y =
  mkVec2 (x - originalWidth / num 2 + originalWidth / num 2)%number
         (y - originalHeight / num 2 + originalHeight / num 2)%number.
Proof. reflexivity. Qed.




(** ** Grid snapping on doubles *)





(** ** Exact arithmetic on doubles *)

Lemma digits2_pos_size (p : positive) : digits2_pos p = Pos.size p.
Proof. induction p as [p IH | p IH |]; cbn; rewrite ?IH; reflexivity. Qed.

Lemma Zdigits2_log2 (q : Z) : 0 < q -> Zdigits2 q = Z.log2 q + 1.
Proof.
  destruct q as [| p | p]; try lia. intros _. cbn [Zdigits2].
  rewrite digits2_pos_size. destruct p; cbn; lia.
Qed.

Lemma fexp_eq (e : Z) : fexp prec emax e = Z.max (e - 53) (-1074).
Proof. reflexivity. Qed.

Lemma shr_1_exact (m : Z) :
  0 <= m -> m mod 2 = 0 ->
  shr_1 (Build_shr_record m false false) = Build_shr_record (m / 2) false false.
Proof.
  intros Hm He. destruct m as [| p | p]; try lia; [reflexivity |].
  destruct p as [p | p |]; try (cbn in He; discriminate).
  - exfalso. rewrite Pos2Z.inj_xI in He. 
    rewrite Z.add_comm, Z.mul_comm, Z.mod_add in He by lia. discriminate.
  - cbn [shr_1 orb]. f_equal. rewrite Pos2Z.inj_xO, Z.mul_comm, Z.div_mul; lia.
Qed.

Lemma iter_shr_exact (p : positive) :
  forall m, 0 <= m -> m mod 2 ^ Zpos p = 0 ->
  SpecFloat.iter_pos shr_1 p (Build_shr_record m false false)
  = Build_shr_record (m / 2 ^ Zpos p) false false.
Proof.
  assert (Step : forall m k, 0 <= m -> 0 <= k -> m mod 2 ^ (k + 1) = 0 ->
            m mod 2 = 0 /\ (m / 2) mod 2 ^ k = 0 /\ 0 <= m / 2).
  { intros m k Hm Hk H. apply Z.mod_divide in H; [| lia].
    destruct H as [c ->]. rewrite Z.pow_add_r, Z.pow_1_r by lia.
    replace (c * (2 ^ k * 2)) with (c * 2 ^ k * 2) by ring.
    rewrite Z.mod_mul, Z.div_mul by lia. split; [reflexivity |].
    split; [apply Z.mod_mul; lia |]. 
    assert (0 < 2 ^ k) by (apply Z.pow_pos_nonneg; lia). nia. }
  assert (Half : forall m k d, 0 <= m -> 0 < d -> 0 <= k -> m mod 2 ^ (k + d) = 0 ->
            m mod 2 ^ k = 0 /\ (m / 2 ^ k) mod 2 ^ d = 0 /\ 0 <= m / 2 ^ k).
  { intros m k d Hm Hd Hk H. apply Z.mod_divide in H; [| lia].
    destruct H as [c ->]. rewrite Z.pow_add_r by lia.
    replace (c * (2 ^ k * 2 ^ d)) with (c * 2 ^ d * 2 ^ k) by ring.
    assert (0 < 2 ^ k) by (apply Z.pow_pos_nonneg; lia).
    assert (0 < 2 ^ d) by (apply Z.pow_pos_nonneg; lia).
    rewrite Z.mod_mul, Z.div_mul by lia. split; [reflexivity |].
    split; [apply Z.mod_mul; lia | nia]. }
  induction p as [p IH | p IH |]; intros m Hm Hd; cbn [SpecFloat.iter_pos].
  - replace (Zpos p~1) with (Zpos p + Zpos p + 1) in Hd |- * by lia.
    destruct (Step m (Zpos p + Zpos p) Hm ltac:(lia) Hd) as (H1 & H2 & H3).
    rewrite shr_1_exact by assumption.
    destruct (Half (m / 2) (Zpos p) (Zpos p) H3 ltac:(lia) ltac:(lia) H2) as (H4 & H5 & H6).
    rewrite IH by assumption. rewrite IH by assumption.
    f_equal. rewrite !Z.div_div by (try apply Z.pow_pos_nonneg; lia).
    f_equal. rewrite !Z.pow_add_r by lia. ring.
  - replace (Zpos p~0) with (Zpos p + Zpos p) in Hd |- * by lia.
    destruct (Half m (Zpos p) (Zpos p) Hm ltac:(lia) ltac:(lia) Hd) as (H4 & H5 & H6).
    rewrite IH by assumption. rewrite IH by assumption.
    f_equal. rewrite !Z.div_div by (try apply Z.pow_pos_nonneg; lia).
    f_equal. rewrite !Z.pow_add_r by lia. ring.
  - apply shr_1_exact; assumption.
Qed.

Lemma log2_div_pow2 (q n : Z) :
  0 < q -> 0 <= n -> q mod 2 ^ n = 0 -> Z.log2 (q / 2 ^ n) = Z.log2 q - n /\ 0 < q / 2 ^ n.
Proof.
  intros Hq Hn Hd. apply Z.mod_divide in Hd; [| apply Z.pow_nonzero; lia].
  destruct Hd as [c ->].
  assert (0 < 2 ^ n) by (apply Z.pow_pos_nonneg; lia).
  assert (0 < c) by nia.
  rewrite Z.div_mul by lia. rewrite Z.log2_mul_pow2 by lia. lia.
Qed.

(** Rounding a value that fits: the mantissa is shifted, nothing is lost. *)
Lemma round_aux_exact (s : bool) (q e : Z) :
  0 < q ->
  let n := Z.max 0 (fexp prec emax (Zdigits2 q + e) - e) in
  q mod 2 ^ n = 0 -> e + n <= 971 ->
  binary_round_aux prec emax s q e loc_Exact
  = S754_finite s (Z.to_pos (q / 2 ^ n)) (e + n).
Proof.
  intros Hq n.
  assert (Hn : n = Z.max 0 (fexp prec emax (Zdigits2 q + e) - e)) by reflexivity.
  clearbody n. intros Hd He.
  destruct (log2_div_pow2 q n Hq ltac:(lia) Hd) as [HL Hpos].
  assert (First : shr_fexp prec emax q e loc_Exact
                  = (Build_shr_record (q / 2 ^ n) false false, e + n)).
  { unfold shr_fexp, shr. cbn [shr_record_of_loc].
    destruct (fexp prec emax (Zdigits2 q + e) - e) as [| p | p] eqn:E.
    - replace n with 0 by lia. rewrite Z.pow_0_r, Z.div_1_r, Z.add_0_r. reflexivity.
    - replace n with (Zpos p) in * by lia.
      rewrite iter_shr_exact by (try lia; exact Hd). reflexivity.
    - replace n with 0 by lia. rewrite Z.pow_0_r, Z.div_1_r, Z.add_0_r. reflexivity. }
  unfold binary_round_aux. rewrite First. cbn [shr_m loc_of_shr_record round_nearest_even].
  assert (Second : shr_fexp prec emax (q / 2 ^ n) (e + n) loc_Exact
                   = (Build_shr_record (q / 2 ^ n) false false, e + n)).
  { unfold shr_fexp, shr. cbn [shr_record_of_loc].
    rewrite (Zdigits2_log2 _ Hpos), HL.
    rewrite (Zdigits2_log2 _ Hq) in Hn.
    destruct (fexp prec emax (Z.log2 q - n + 1 + (e + n)) - (e + n)) as [| p | p] eqn:E;
      try reflexivity.
    exfalso. rewrite fexp_eq in *. lia. }
  rewrite Second. cbn [shr_m].
  destruct (q / 2 ^ n) as [| m | m] eqn:Q; try lia.
  replace (e + n <=? emax - prec) with true by (symmetry; apply Z.leb_le; cbv [emax prec]; lia).
  reflexivity.
Qed.

Lemma log2_bounds (c : Z) : 0 < c < 2 ^ 53 -> 0 <= Z.log2 c <= 52.
Proof.
  intros [H1 H2]. split; [apply Z.log2_nonneg |].
  apply Z.log2_lt_pow2 in H2; lia.
Qed.

Lemma round_aux_repr (s : bool) (c k : Z) :
  0 < c < 2 ^ 53 -> 0 <= k -> 52 - Z.log2 c <= k ->
  binary_round_aux prec emax s (c * 2 ^ k) (- k) loc_Exact
  = S754_finite s (Z.to_pos (c * 2 ^ (52 - Z.log2 c))) (Z.log2 c - 52).
Proof.
  intros Hc Hk Hk'. pose proof (log2_bounds c Hc) as HL.
  assert (P : 0 < 2 ^ k) by (apply Z.pow_pos_nonneg; lia).
  assert (Hq : 0 < c * 2 ^ k) by nia.
  pose proof (round_aux_exact s (c * 2 ^ k) (- k) Hq) as R. cbv zeta in R.
  rewrite (Zdigits2_log2 _ Hq), Z.log2_mul_pow2, fexp_eq in R by lia.
  replace (Z.max 0 (Z.max (k + Z.log2 c + 1 + - k - 53) (-1074) - - k))
    with (Z.log2 c - 52 + k) in R by lia.
  assert (E : c * 2 ^ k = c * 2 ^ (52 - Z.log2 c) * 2 ^ (Z.log2 c - 52 + k)).
  { rewrite <- Z.mul_assoc, <- Z.pow_add_r by lia. do 2 f_equal. lia. }
  assert (P' : 0 < 2 ^ (Z.log2 c - 52 + k)) by (apply Z.pow_pos_nonneg; lia).
  rewrite R.
  - f_equal; [| lia]. f_equal. rewrite E at 1. apply Z.div_mul. lia.
  - rewrite E at 1. apply Z.mod_mul. lia.
  - lia.
Qed.

Lemma pos_iter_xO (m d : positive) : Zpos (Pos.iter xO m d) = Zpos m * 2 ^ Zpos d.
Proof.
  induction d as [| d IH] using Pos.peano_ind.
  - cbn. lia.
  - rewrite Pos.iter_succ, Pos2Z.inj_succ, Z.pow_succ_r by lia.
    rewrite Pos2Z.inj_xO, IH. ring.
Qed.

Lemma round_repr (s : bool) (m : positive) (c k : Z) :
  0 < c < 2 ^ 53 -> 0 <= k -> Zpos m = c * 2 ^ k ->
  binary_round prec emax s m (- k)
  = S754_finite s (Z.to_pos (c * 2 ^ (52 - Z.log2 c))) (Z.log2 c - 52).
Proof.
  intros Hc Hk Hm. pose proof (log2_bounds c Hc) as HL.
  unfold binary_round.
  change (Zpos (digits2_pos m)) with (Zdigits2 (Zpos m)).
  rewrite Zdigits2_log2, Hm, Z.log2_mul_pow2, fexp_eq by lia.
  replace (Z.max (k + Z.log2 c + 1 + - k - 53) (-1074)) with (Z.log2 c - 52) by lia.
  unfold shl_align.
  destruct (Z.log2 c - 52 - - k) as [| d | d] eqn:E.
  - rewrite Hm. apply round_aux_repr; lia.
  - rewrite Hm. apply round_aux_repr; lia.
  - rewrite pos_iter_xO, Hm.
    replace (c * 2 ^ k * 2 ^ Zpos d) with (c * 2 ^ (52 - Z.log2 c)).
    + replace (Z.log2 c - 52) with (- (52 - Z.log2 c)) at 1 by lia.
      apply round_aux_repr; lia.
    + rewrite <- Z.mul_assoc, <- Z.pow_add_r by lia. do 2 f_equal. lia.
Qed.

Lemma normalize_repr (c k : Z) :
  Z.abs c < 2 ^ 53 -> 0 <= k ->
  binary_normalize prec emax (c * 2 ^ k) (- k) false = repr c.
Proof.
  intros Hc Hk. unfold repr, binary_normalize.
  assert (P : 0 < 2 ^ k) by (apply Z.pow_pos_nonneg; lia).
  destruct (Z.eqb_spec c 0) as [-> | Hne]; [reflexivity |].
  destruct (c * 2 ^ k) as [| m | m] eqn:E; [nia | |].
  - assert (0 < c) by nia.
    replace (c <? 0) with false by (symmetry; apply Z.ltb_ge; lia).
    rewrite Z.abs_eq by lia. apply round_repr; lia.
  - assert (c < 0) by nia.
    replace (c <? 0) with true by (symmetry; apply Z.ltb_lt; lia).
    apply round_repr; lia.
Qed.

Lemma num_repr (z : Z) : Z.abs z < 2 ^ 53 -> num z = repr z.
Proof.
  intros H. unfold num.
  replace z with (z * 2 ^ 0) at 1 by (rewrite Z.pow_0_r; ring).
  change 0 with (- 0) at 2. apply normalize_repr; lia.
Qed.

Lemma shl_align_val (m : positive) (e e' : Z) :
  e' <= e -> Zpos (fst (shl_align m e e')) = Zpos m * 2 ^ (e - e').
Proof.
  intros H. unfold shl_align. destruct (e' - e) as [| d | d] eqn:E; cbn [fst].
  - replace (e - e') with 0 by lia. lia.
  - lia.
  - rewrite pos_iter_xO. do 2 f_equal. lia.
Qed.

(** The aligned mantissa of [repr z], with its sign, is [z] scaled. *)
Lemma repr_aligned (z e' : Z) :
  z <> 0 -> Z.abs z < 2 ^ 53 -> e' <= Z.log2 (Z.abs z) - 52 ->
  cond_Zopp (z <? 0)
    (Zpos (fst (shl_align (Z.to_pos (Z.abs z * 2 ^ (52 - Z.log2 (Z.abs z))))
                          (Z.log2 (Z.abs z) - 52) e')))
  = z * 2 ^ (- e').
Proof.
  intros Hz Hb He. pose proof (log2_bounds (Z.abs z) ltac:(lia)) as HL.
  assert (P : 0 < 2 ^ (52 - Z.log2 (Z.abs z))) by (apply Z.pow_pos_nonneg; lia).
  rewrite shl_align_val by exact He. rewrite Z2Pos.id by nia.
  rewrite <- Z.mul_assoc, <- Z.pow_add_r by lia.
  replace (52 - Z.log2 (Z.abs z) + (Z.log2 (Z.abs z) - 52 - e')) with (- e') by lia.
  destruct (Z.ltb_spec z 0); cbn [cond_Zopp].
  - rewrite Z.abs_neq by lia. ring.
  - rewrite Z.abs_eq by lia. reflexivity.
Qed.

Lemma add_repr (a b : Z) :
  Z.abs a < 2 ^ 53 -> Z.abs b < 2 ^ 53 -> Z.abs (a + b) < 2 ^ 53 ->
  SFadd prec emax (repr a) (repr b) = repr (a + b).
Proof.
  intros Ha Hb Hab. unfold repr at 1 2.
  destruct (Z.eqb_spec a 0) as [-> | Na]; destruct (Z.eqb_spec b 0) as [-> | Nb].
  - reflexivity.
  - cbn [SFadd]. unfold repr. rewrite Z.add_0_l.
    destruct (Z.eqb_spec b 0); [contradiction | reflexivity].
  - cbn [SFadd]. unfold repr. rewrite Z.add_0_r.
    destruct (Z.eqb_spec a 0); [contradiction | reflexivity].
  - cbn [SFadd].
    set (ez := Z.min (Z.log2 (Z.abs a) - 52) (Z.log2 (Z.abs b) - 52)).
    pose proof (log2_bounds (Z.abs a) ltac:(lia)).
    pose proof (log2_bounds (Z.abs b) ltac:(lia)).
    rewrite !repr_aligned by (try assumption; lia).
    rewrite <- Z.mul_add_distr_r.
    replace ez with (- - ez) at 2 by lia.
    apply normalize_repr; lia.
Qed.

Lemma repr_opp (b : Z) : b <> 0 ->
  repr (- b) = S754_finite (negb (b <? 0))
                 (Z.to_pos (Z.abs b * 2 ^ (52 - Z.log2 (Z.abs b))))
                 (Z.log2 (Z.abs b) - 52).
Proof.
  intros Hb. unfold repr. rewrite Z.abs_opp.
  destruct (Z.eqb_spec (- b) 0); [lia |].
  f_equal. destruct (Z.ltb_spec (- b) 0), (Z.ltb_spec b 0); try reflexivity; lia.
Qed.

Lemma sub_repr (a b : Z) :
  Z.abs a < 2 ^ 53 -> Z.abs b < 2 ^ 53 -> Z.abs (a - b) < 2 ^ 53 ->
  SFsub prec emax (repr a) (repr b) = repr (a - b).
Proof.
  intros Ha Hb Hab. unfold repr at 1 2.
  destruct (Z.eqb_spec a 0) as [-> | Na]; destruct (Z.eqb_spec b 0) as [-> | Nb].
  - reflexivity.
  - cbn [SFsub]. rewrite Z.sub_0_l. symmetry. apply repr_opp, Nb.
  - cbn [SFsub]. unfold repr. rewrite Z.sub_0_r.
    destruct (Z.eqb_spec a 0); [contradiction | reflexivity].
  - cbn [SFsub].
    set (ez := Z.min (Z.log2 (Z.abs a) - 52) (Z.log2 (Z.abs b) - 52)).
    pose proof (log2_bounds (Z.abs a) ltac:(lia)).
    pose proof (log2_bounds (Z.abs b) ltac:(lia)).
    rewrite !repr_aligned by (try assumption; lia).
    rewrite <- Z.mul_sub_distr_r.
    replace ez with (- - ez) at 2 by lia.
    apply normalize_repr; lia.
Qed.

Lemma add_num (a b : Z) :
  Z.abs a < 2 ^ 53 -> Z.abs b < 2 ^ 53 -> Z.abs (a + b) < 2 ^ 53 ->
  (num a + num b)%number = num (a + b).
Proof. intros. rewrite !num_repr by assumption. apply add_repr; assumption. Qed.

Lemma sub_num (a b : Z) :
  Z.abs a < 2 ^ 53 -> Z.abs b < 2 ^ 53 -> Z.abs (a - b) < 2 ^ 53 ->
  (num a - num b)%number = num (a - b).
Proof. intros. rewrite !num_repr by assumption. apply sub_repr; assumption. Qed.

Lemma repr_nonzero (z : Z) : z <> 0 ->
  repr z = S754_finite (z <? 0)
             (Z.to_pos (Z.abs z * 2 ^ (52 - Z.log2 (Z.abs z))))
             (Z.log2 (Z.abs z) - 52).
Proof. intros H. unfold repr. destruct (Z.eqb_spec z 0); [contradiction | reflexivity]. Qed.

Lemma mant_val (z : Z) : z <> 0 -> Z.abs z < 2 ^ 53 ->
  Zpos (Z.to_pos (Z.abs z * 2 ^ (52 - Z.log2 (Z.abs z))))
  = Z.abs z * 2 ^ (52 - Z.log2 (Z.abs z)).
Proof.
  intros Hz Hb. pose proof (log2_bounds (Z.abs z) ltac:(lia)).
  assert (0 < 2 ^ (52 - Z.log2 (Z.abs z))) by (apply Z.pow_pos_nonneg; lia).
  apply Z2Pos.id. nia.
Qed.

Lemma sign_mul (a b : Z) : a <> 0 -> b <> 0 ->
  xorb (a <? 0) (b <? 0) = (a * b <? 0).
Proof.
  intros Ha Hb.
  destruct (Z.ltb_spec a 0), (Z.ltb_spec b 0), (Z.ltb_spec (a * b) 0);
    try reflexivity; nia.
Qed.

Lemma mul_repr (a b : Z) :
  0 < b -> Z.abs a < 2 ^ 53 -> Z.abs b < 2 ^ 53 -> Z.abs (a * b) < 2 ^ 53 ->
  SFmul prec emax (repr a) (repr b) = repr (a * b).
Proof.
  intros Hb0 Ha Hb Hab.
  rewrite (repr_nonzero b) by lia.
  destruct (Z.eq_dec a 0) as [-> | Na].
  - cbn [repr Z.eqb SFmul Z.mul xorb].
    replace (b <? 0) with false by (symmetry; apply Z.ltb_ge; lia). reflexivity.
  - rewrite (repr_nonzero a), (repr_nonzero (a * b)) by nia.
    cbn [SFmul]. rewrite sign_mul by lia.
    pose proof (log2_bounds (Z.abs a) ltac:(lia)) as La.
    pose proof (log2_bounds (Z.abs b) ltac:(lia)) as Lb.
    pose proof (log2_bounds (Z.abs (a * b)) ltac:(nia)) as Lab.
    pose proof (Z.log2_mul_below (Z.abs a) (Z.abs b) ltac:(lia) ltac:(lia)) as Below.
    rewrite <- Z.abs_mul in Below.
    rewrite Pos2Z.inj_mul, !mant_val by lia.
    set (k := 104 - Z.log2 (Z.abs a) - Z.log2 (Z.abs b)).
    replace (Z.abs a * 2 ^ (52 - Z.log2 (Z.abs a)) * (Z.abs b * 2 ^ (52 - Z.log2 (Z.abs b))))
      with (Z.abs (a * b) * 2 ^ k).
    + replace (Z.log2 (Z.abs a) - 52 + (Z.log2 (Z.abs b) - 52)) with (- k) by lia.
      apply round_aux_repr; lia.
    + unfold k. rewrite Z.abs_mul.
      replace (104 - Z.log2 (Z.abs a) - Z.log2 (Z.abs b))
        with ((52 - Z.log2 (Z.abs a)) + (52 - Z.log2 (Z.abs b))) by lia.
      rewrite Z.pow_add_r by lia. ring.
Qed.

Lemma div_eucl_exact (a b c : Z) : 0 < b -> a = b * c -> Z.div_eucl a b = (c, 0).
Proof.
  intros Hb ->. rewrite (surjective_pairing (Z.div_eucl (b * c) b)).
  change (fst (Z.div_eucl (b * c) b)) with (b * c / b).
  change (snd (Z.div_eucl (b * c) b)) with ((b * c) mod b).
  rewrite Z.mul_comm, Z.div_mul, Z.mod_mul by lia. reflexivity.
Qed.

Lemma new_location_zero (n : Z) : new_location n 0 = loc_Exact.
Proof. unfold new_location. destruct (Z.even n); reflexivity. Qed.

(** When the quotient of two integers is [w / 2^j], the division of their
    doubles is exact and [Math.floor] of it is the integer part. *)
Lemma floor_div_repr (a b w j : Z) :
  a <> 0 -> b <> 0 ->
  Z.abs a < 2 ^ 53 -> Z.abs b < 2 ^ 53 -> Z.abs w < 2 ^ 53 ->
  0 <= j <= 52 -> a * 2 ^ j = b * w ->
  Math.floor (SFdiv prec emax (repr a) (repr b)) = num (w / 2 ^ j).
Proof.
  intros Na Nb Ha Hb Hw Hj E.
  assert (Pj : 0 < 2 ^ j) by (apply Z.pow_pos_nonneg; lia).
  assert (Nw : w <> 0) by nia.
  pose proof (log2_bounds (Z.abs a) ltac:(lia)) as La.
  pose proof (log2_bounds (Z.abs b) ltac:(lia)) as Lb.
  pose proof (log2_bounds (Z.abs w) ltac:(lia)) as Lw.
  set (la := Z.log2 (Z.abs a)) in *. set (lb := Z.log2 (Z.abs b)) in *.
  set (lw := Z.log2 (Z.abs w)) in *.
  assert (Eabs : Z.abs a * 2 ^ j = Z.abs b * Z.abs w).
  { rewrite <- Z.abs_mul, <- E, Z.abs_mul, (Z.abs_eq (2 ^ j)) by lia. reflexivity. }
  assert (Hl : la + j <= lb + lw + 1).
  { pose proof (Z.log2_mul_above (Z.abs b) (Z.abs w) ltac:(lia) ltac:(lia)) as A.
    rewrite <- Eabs, Z.log2_mul_pow2 in A by lia. unfold la, lb, lw. lia. }
  set (t := 53 + lb - la - j).
  assert (Ht : 0 <= t) by (unfold t; lia).
  rewrite (repr_nonzero a), (repr_nonzero b) by assumption.
  fold la lb. cbn [SFdiv].
  unfold SFdiv_core_binary.
  pose proof (mant_val a Na Ha) as Ma. pose proof (mant_val b Nb Hb) as Mb.
  fold la in Ma. fold lb in Mb.
  assert (Da : Zdigits2 (Zpos (Z.to_pos (Z.abs a * 2 ^ (52 - la)))) = 53).
  { rewrite Zdigits2_log2, Ma, Z.log2_mul_pow2 by lia. fold la. lia. }
  assert (Db : Zdigits2 (Zpos (Z.to_pos (Z.abs b * 2 ^ (52 - lb)))) = 53).
  { rewrite Zdigits2_log2, Mb, Z.log2_mul_pow2 by lia. fold lb. lia. }
  rewrite Da, Db, fexp_eq.
  replace (Z.min (Z.max (53 + (la - 52) - (53 + (lb - 52)) - 53) (-1074))
                 (la - 52 - (lb - 52))) with (la - lb - 53) by lia.
  replace (la - 52 - (lb - 52) - (la - lb - 53)) with 53 by lia.
  rewrite Ma, Mb, Z.shiftl_mul_pow2 by lia.
  assert (Pa : 0 < 2 ^ (52 - la)) by (apply Z.pow_pos_nonneg; lia).
  assert (Pb : 0 < 2 ^ (52 - lb)) by (apply Z.pow_pos_nonneg; lia).
  assert (Pt : 0 < 2 ^ t) by (apply Z.pow_pos_nonneg; lia).
  rewrite (div_eucl_exact _ _ (Z.abs w * 2 ^ t)).
  2: nia.
  2: { transitivity (Z.abs a * 2 ^ j * 2 ^ (105 - la - j)).
       - rewrite <- !Z.mul_assoc, <- !Z.pow_add_r by lia. do 2 f_equal. lia.
       - rewrite Eabs. unfold t.
         transitivity (Z.abs b * Z.abs w * (2 ^ (52 - lb) * 2 ^ (53 + lb - la - j))).
         + rewrite <- Z.pow_add_r by lia. do 2 f_equal. lia.
         + ring. }
  rewrite new_location_zero.
  assert (Hq : 0 < Z.abs w * 2 ^ t) by nia.
  pose proof (round_aux_exact (xorb (a <? 0) (b <? 0)) (Z.abs w * 2 ^ t) (la - lb - 53) Hq)
    as R. cbv zeta in R.
  rewrite (Zdigits2_log2 _ Hq), Z.log2_mul_pow2, fexp_eq in R by lia. fold lw in R.
  set (n := lw - 52 + t) in *.
  replace (Z.max 0 (Z.max (t + lw + 1 + (la - lb - 53) - 53) (-1074) - (la - lb - 53)))
    with (Z.max 0 n) in R by (unfold n, t; lia).
  assert (Hn : 0 <= Z.max 0 n <= t) by (unfold n; lia).
  assert (Pn : 0 < 2 ^ Z.max 0 n) by (apply Z.pow_pos_nonneg; lia).
  assert (Split : Z.abs w * 2 ^ t = Z.abs w * 2 ^ (t - Z.max 0 n) * 2 ^ Z.max 0 n).
  { rewrite <- Z.mul_assoc, <- Z.pow_add_r by lia. do 2 f_equal. lia. }
  rewrite R.
  2: { rewrite Split. apply Z.mod_mul. lia. }
  2: { unfold t in *. lia. }
  cbn [Math.floor]. f_equal.
  rewrite Split at 1. rewrite Z.div_mul by lia.
  assert (Pd : 0 < 2 ^ (t - Z.max 0 n)) by (apply Z.pow_pos_nonneg; lia).
  rewrite Z2Pos.id by nia.
  assert (Sg : cond_Zopp (xorb (a <? 0) (b <? 0)) (Z.abs w * 2 ^ (t - Z.max 0 n))
               = w * 2 ^ (t - Z.max 0 n)).
  { destruct (Z.ltb_spec a 0), (Z.ltb_spec b 0); cbn [xorb cond_Zopp];
      [rewrite Z.abs_eq by nia | rewrite Z.abs_neq by nia
      | rewrite Z.abs_neq by nia | rewrite Z.abs_eq by nia]; ring. }
  rewrite Sg, <- Z.shiftl_mul_pow2, Z.shiftl_shiftl by lia.
  replace (t - Z.max 0 n + (la - lb - 53 + Z.max 0 n)) with (- j) by (unfold t; lia).
  rewrite Z.shiftl_opp_r, Z.shiftr_div_pow2 by lia. reflexivity.
Qed.

Lemma cellCentre_num (k : Z) :
  Z.abs k <= 2 ^ 47 -> cellCentre k = num (40 * k + 20).
Proof.
  intros Hk. unfold cellCentre.
  change gridSize with (num 40). change (num 40 / num 2)%number with (num 20).
  assert (40 * 2 ^ 47 + 20 < 2 ^ 53) by reflexivity.
  rewrite (num_repr k), (num_repr 40) by lia.
  unfold Number.mul. rewrite mul_repr by lia.
  rewrite <- num_repr by lia. rewrite add_num by lia.
  f_equal. lia.
Qed.

Lemma floor_div_centre (k : Z) :
  Z.abs k <= 2 ^ 47 ->
  Math.floor (num (40 * k + 20) / gridSize) = num k.
Proof.
  intros Hk. change gridSize with (num 40).
  assert (40 * 2 ^ 47 + 20 < 2 ^ 53) by reflexivity.
  rewrite (num_repr (40 * k + 20)), (num_repr 40) by lia.
  unfold Number.div.
  rewrite (floor_div_repr (40 * k + 20) 40 (2 * k + 1) 1) by lia.
  f_equal. change (2 ^ 1) with 2.
  rewrite Z.add_comm, Z.mul_comm, Z.div_add by lia. reflexivity.
Qed.

Lemma snap_cellCentre (k : Z) :
  Z.abs k <= 2 ^ 47 -> snap (cellCentre k) = cellCentre k.
Proof.
  intros Hk. rewrite cellCentre_num by exact Hk.
  unfold snap. rewrite floor_div_centre by exact Hk.
  rewrite <- cellCentre_num by exact Hk. reflexivity.
Qed.

(** ** Rounding in general: a bound *)

Lemma shr_1_val (mrs : shr_record) :
  0 <= shr_m mrs -> shr_m (shr_1 mrs) = shr_m mrs / 2.
Proof.
  destruct mrs as [m r s]. cbn [shr_m]. intros Hm.
  rewrite <- Z.div2_div.
  destruct m as [| p | p]; try lia; [reflexivity |].
  destruct p; reflexivity.
Qed.

Lemma iter_shr_val (p : positive) :
  forall mrs, 0 <= shr_m mrs ->
  shr_m (SpecFloat.iter_pos shr_1 p mrs) = shr_m mrs / 2 ^ Zpos p.
Proof.
  assert (Nonneg : forall a k, 0 <= a -> 0 <= k -> 0 <= a / 2 ^ k).
  { intros a k Ha Hk. apply Z.div_pos; [exact Ha | apply Z.pow_pos_nonneg; lia]. }
  induction p as [p IH | p IH |]; intros mrs Hm; cbn [SpecFloat.iter_pos].
  - assert (H1 : 0 <= shr_m (shr_1 mrs)).
    { rewrite shr_1_val by exact Hm. apply Z.div_pos; lia. }
    assert (H2 : 0 <= shr_m (SpecFloat.iter_pos shr_1 p (shr_1 mrs))).
    { rewrite IH by exact H1. apply Nonneg; lia. }
    rewrite (IH _ H2), (IH _ H1), shr_1_val by exact Hm.
    rewrite !Z.div_div by (try apply Z.pow_pos_nonneg; lia).
    f_equal. replace (Zpos p~1) with (1 + Zpos p + Zpos p) by lia.
    rewrite !Z.pow_add_r by lia. ring.
  - assert (H2 : 0 <= shr_m (SpecFloat.iter_pos shr_1 p mrs)).
    { rewrite IH by exact Hm. apply Nonneg; lia. }
    rewrite (IH _ H2), (IH _ Hm).
    rewrite !Z.div_div by (try apply Z.pow_pos_nonneg; lia).
    f_equal. replace (Zpos p~0) with (Zpos p + Zpos p) by lia.
    rewrite !Z.pow_add_r by lia. ring.
  - rewrite shr_1_val by exact Hm. reflexivity.
Qed.

Lemma shr_record_of_loc_m (m : Z) (l : location) : shr_m (shr_record_of_loc m l) = m.
Proof. destruct l as [| []]; reflexivity. Qed.

Lemma shr_fexp_val (q e : Z) (l : location) :
  0 <= q ->
  let n := Z.max 0 (fexp prec emax (Zdigits2 q + e) - e) in
  exists mrs, shr_fexp prec emax q e l = (mrs, e + n) /\ shr_m mrs = q / 2 ^ n.
Proof.
  intros Hq n. unfold shr_fexp, shr. subst n.
  destruct (fexp prec emax (Zdigits2 q + e) - e) as [| p | p] eqn:E.
  - eexists. split; [rewrite Z.add_0_r; reflexivity |].
    rewrite shr_record_of_loc_m. cbn. rewrite Z.div_1_r. reflexivity.
  - eexists. split; [reflexivity |].
    replace (Z.max 0 (Zpos p)) with (Zpos p) by lia.
    rewrite iter_shr_val; rewrite shr_record_of_loc_m; [reflexivity | exact Hq].
  - eexists. split; [rewrite Z.add_0_r; reflexivity |].
    rewrite shr_record_of_loc_m. cbn. rewrite Z.div_1_r. reflexivity.
Qed.

Lemma round_nearest_even_bound (m : Z) (l : location) :
  m <= round_nearest_even m l <= m + 1.
Proof. destruct l as [| []]; cbn; try destruct (Z.even m); lia. Qed.

(** What rounding returns is, in magnitude, at most the value rounded plus
    one unit in the last place. *)
Lemma round_aux_bound (s : bool) (q e : Z) (l : location) :
  0 <= q ->
  let n := Z.max 0 (fexp prec emax (Zdigits2 q + e) - e) in
  exists m3 e3,
    0 <= m3 /\ e <= e3 /\ m3 * 2 ^ (e3 - e) <= q + 2 ^ n
    /\ binary_round_aux prec emax s q e l
       = match m3 with
         | Z0 => S754_zero s
         | Zpos m => if e3 <=? 971 then S754_finite s m e3 else S754_infinity s
         | Zneg _ => S754_nan
         end.
Proof.
  intros Hq n.
  destruct (shr_fexp_val q e l Hq) as (mrs1 & E1 & M1). fold n in E1, M1.
  assert (Hn : 0 <= n) by (unfold n; lia).
  assert (Pn : 0 < 2 ^ n) by (apply Z.pow_pos_nonneg; lia).
  pose proof (round_nearest_even_bound (shr_m mrs1) (loc_of_shr_record mrs1)) as B.
  set (m2 := round_nearest_even (shr_m mrs1) (loc_of_shr_record mrs1)) in *.
  assert (H1 : 0 <= q / 2 ^ n) by (apply Z.div_pos; lia).
  assert (Hm2 : 0 <= m2) by lia.
  destruct (shr_fexp_val m2 (e + n) loc_Exact Hm2) as (mrs2 & E2 & M2).
  set (n2 := Z.max 0 (fexp prec emax (Zdigits2 m2 + (e + n)) - (e + n))) in *.
  assert (Hn2 : 0 <= n2) by (unfold n2; lia).
  assert (Pn2 : 0 < 2 ^ n2) by (apply Z.pow_pos_nonneg; lia).
  exists (m2 / 2 ^ n2), (e + n + n2).
  split; [apply Z.div_pos; lia |]. split; [lia |]. split.
  - replace (e + n + n2 - e) with (n2 + n) by lia. rewrite Z.pow_add_r by lia.
    pose proof (Z.mul_div_le m2 (2 ^ n2) Pn2).
    pose proof (Z.mul_div_le q (2 ^ n) Pn).
    rewrite M1 in B. nia.
  - unfold binary_round_aux. rewrite E1. fold m2. rewrite E2, M2. reflexivity.
Qed.

Lemma shiftl_bound (x e3 : Z) :
  e3 <= 47 -> Z.abs x <= 2 ^ (47 - e3) -> Z.abs (Z.shiftl x e3) <= 2 ^ 47.
Proof.
  intros He Hx. destruct (Z_le_gt_dec 0 e3) as [Hpos | Hneg].
  - rewrite Z.shiftl_mul_pow2 by lia.
    assert (P : 0 < 2 ^ e3) by (apply Z.pow_pos_nonneg; lia).
    rewrite Z.abs_mul, (Z.abs_eq (2 ^ e3)) by lia.
    replace (2 ^ 47) with (2 ^ (47 - e3) * 2 ^ e3)
      by (rewrite <- Z.pow_add_r by lia; f_equal; lia).
    nia.
  - replace e3 with (- - e3) at 1 by lia.
    rewrite Z.shiftl_opp_r, Z.shiftr_div_pow2 by lia.
    assert (P : 0 < 2 ^ (- e3)) by (apply Z.pow_pos_nonneg; lia).
    assert (S : 2 ^ (47 - e3) = 2 ^ 47 * 2 ^ (- e3))
      by (rewrite <- Z.pow_add_r by lia; f_equal; lia).
    rewrite S in Hx.
    assert (L : - 2 ^ 47 <= x / 2 ^ (- e3)) by (apply Z.div_le_lower_bound; lia).
    assert (U : x / 2 ^ (- e3) <= 2 ^ 47) by (apply Z.div_le_upper_bound; lia).
    lia.
Qed.

Lemma log2_le_of_le_pow2 (a b : Z) : 0 < a -> 0 <= b -> a <= 2 ^ b -> Z.log2 a <= b.
Proof.
  intros Ha Hb H. rewrite <- (Z.log2_pow2 b) by exact Hb. apply Z.log2_le_mono, H.
Qed.

Lemma shift_case (x sft : Z) :
  0 <= sft ->
  match sft with
  | 0 => x
  | Zpos _ => Z.shiftl x sft
  | Zneg _ => 0
  end = x * 2 ^ sft.
Proof.
  intros Hs. destruct sft as [| p | p]; [lia | | lia].
  apply Z.shiftl_mul_pow2. lia.
Qed.

(** The cell index of a double of magnitude at most 2^47 is an integer of
    magnitude at most 2^47, or the negative zero. *)
Lemma floor_div_bound (s : bool) (m : positive) (e : Z) :
  Zpos m <= 2 ^ (47 - e) ->
  Math.floor (S754_finite s m e / gridSize) = S754_zero true
  \/ exists k, Z.abs k <= 2 ^ 47 /\ Math.floor (S754_finite s m e / gridSize) = num k.
Proof.
  intros Hm.
  assert (He : 0 <= 47 - e).
  { destruct (Z_le_gt_dec 0 (47 - e)) as [H | H]; [exact H |].
    rewrite Z.pow_neg_r in Hm by lia. lia. }
  change gridSize with (S754_finite false 5629499534213120 (-47)).
  unfold Number.div. cbn [SFdiv]. unfold SFdiv_core_binary.
  change (Zdigits2 5629499534213120) with 53.
  rewrite (Zdigits2_log2 (Zpos m)) by lia.
  pose proof (log2_le_of_le_pow2 (Zpos m) (47 - e) ltac:(lia) He Hm) as HL.
  pose proof (Z.log2_nonneg (Zpos m)) as HL0.
  set (e' := Z.min (fexp prec emax (Z.log2 (Zpos m) + 1 + e - (53 + -47))) (e - -47)).
  assert (He' : e' <= -11 /\ e' <= e + 47).
  { unfold e'. rewrite fexp_eq. lia. }
  set (sft := e - -47 - e').
  assert (Hs : 0 <= sft) by (unfold sft; lia).
  assert (Em' : match sft with
                | 0 => Zpos m
                | Zpos _ => Z.shiftl (Zpos m) sft
                | Zneg _ => 0
                end = Zpos m * 2 ^ sft).
  { apply shift_case, Hs. }
  rewrite Em'.
  assert (Ps : 0 < 2 ^ sft) by (apply Z.pow_pos_nonneg; lia).
  rewrite (surjective_pairing (Z.div_eucl (Zpos m * 2 ^ sft) 5629499534213120)).
  change (fst (Z.div_eucl (Zpos m * 2 ^ sft) 5629499534213120))
    with (Zpos m * 2 ^ sft / 5629499534213120).
  set (q := Zpos m * 2 ^ sft / 5629499534213120).
  assert (Hq0 : 0 <= q) by (apply Z.div_pos; lia).
  assert (Hq1 : q * 5629499534213120 <= Zpos m * 2 ^ sft).
  { unfold q. rewrite Z.mul_comm. apply Z.mul_div_le. lia. }
  set (X := 2 ^ (47 - e')).
  assert (HX : 2 ^ (47 - e) * 2 ^ sft = 2 ^ 47 * X).
  { unfold X, sft. rewrite <- !Z.pow_add_r by lia. f_equal. lia. }
  assert (PX : 0 < X) by (apply Z.pow_pos_nonneg; lia).
  assert (Hq2 : 40 * q <= X).
  { change 5629499534213120 with (40 * 2 ^ 47) in Hq1.
    assert (Zpos m * 2 ^ sft <= 2 ^ 47 * X) by (rewrite <- HX; nia).
    assert (0 < 2 ^ 47) by reflexivity. nia. }
  set (l := new_location 5629499534213120
              (snd (Z.div_eucl (Zpos m * 2 ^ sft) 5629499534213120))).
  destruct (round_aux_bound (xorb s false) q e' l Hq0) as (m3 & e3 & H3 & He3 & B & ->).
  set (n := Z.max 0 (fexp prec emax (Zdigits2 q + e') - e')) in B.
  assert (Hn : 0 <= n /\ n + e' <= 46).
  { unfold n. rewrite fexp_eq. destruct (Z.eq_dec q 0) as [-> | Nq].
    - cbn [Zdigits2]. lia.
    - rewrite Zdigits2_log2 by lia.
      pose proof (log2_le_of_le_pow2 q (47 - e') ltac:(lia) ltac:(lia) ltac:(fold X; lia)).
      lia. }
  assert (Hn2 : 2 * 2 ^ n <= X).
  { unfold X. replace (47 - e') with (1 + (46 - e')) by lia.
    rewrite Z.pow_add_r, Z.pow_1_r by lia.
    assert (2 ^ n <= 2 ^ (46 - e')) by (apply Z.pow_le_mono_r; lia). lia. }
  assert (B' : m3 * 2 ^ (e3 - e') <= X) by lia.
  rewrite xorb_false_r.
  destruct m3 as [| mm | mm]; [| | lia].
  - cbn [Math.floor]. destruct s; [left; reflexivity |].
    right. exists 0. split; [cbn; lia | reflexivity].
  - assert (P3 : 0 < 2 ^ (e3 - e')) by (apply Z.pow_pos_nonneg; lia).
    assert (E47 : e3 <= 47).
    { destruct (Z_le_gt_dec e3 47) as [H | H]; [exact H | exfalso].
      assert (2 ^ (47 - e') < 2 ^ (e3 - e')) by (apply Z.pow_lt_mono_r; lia).
      fold X in H0. nia. }
    replace (e3 <=? 971) with true by (symmetry; apply Z.leb_le; lia).
    right. eexists. split; [| reflexivity].
    apply shiftl_bound; [exact E47 |].
    assert (XS : X = 2 ^ (47 - e3) * 2 ^ (e3 - e')).
    { unfold X. rewrite <- Z.pow_add_r by lia. f_equal. lia. }
    assert (Zpos mm <= 2 ^ (47 - e3)).
    { assert (0 < 2 ^ (47 - e3)) by (apply Z.pow_pos_nonneg; lia). nia. }
    destruct s; cbn [cond_Zopp]; lia.
Qed.

Lemma magnitude (p : number) :
  valid_binary prec emax p = true ->
  (p <=? num (2 ^ 47))%number = true -> (p >=? num (- 2 ^ 47))%number = true ->
  match p with
  | S754_finite _ m e => Zpos m <= 2 ^ (47 - e)
  | S754_zero _ => True
  | _ => False
  end.
Proof.
  intros V Hle Hge.
  change (num (2 ^ 47)) with (S754_finite false 4503599627370496 (-5)) in Hle.
  change (num (- 2 ^ 47)) with (S754_finite true 4503599627370496 (-5)) in Hge.
  destruct p as [s | s | | s m e]; [exact I | | discriminate |].
  - destruct s; [discriminate Hge | discriminate Hle].
  - cbn [valid_binary] in V. unfold bounded, canonical_mantissa in V.
    apply andb_prop in V as [V _]. apply Z.eqb_eq in V.
    change (Zpos (digits2_pos m)) with (Zdigits2 (Zpos m)) in V.
    rewrite Zdigits2_log2, fexp_eq in V by lia.
    assert (Hm : Zpos m < 2 ^ 53).
    { apply Z.log2_lt_pow2; lia. }
    assert (Small : e < -5 -> Zpos m <= 2 ^ (47 - e)).
    { intros He. assert (2 ^ 53 <= 2 ^ (47 - e)) by (apply Z.pow_le_mono_r; lia). lia. }
    unfold Number.le, Number.ge, SFleb, SFcompare in Hle, Hge.
    destruct s.
    + destruct (Z.compare_spec (-5) e) as [<- | H | H]; [| discriminate | auto with zarith].
      change (Pos.compare_cont Eq 4503599627370496 m)
          with (Pos.compare 4503599627370496 m) in Hge.
        destruct (Pos.compare_spec 4503599627370496 m) as [<- | H | H];
          [reflexivity | discriminate |].
        change (2 ^ (47 - -5)) with 4503599627370496. apply Pos2Z.pos_le_pos, Pos.lt_le_incl, H.
    + destruct (Z.compare_spec e (-5)) as [-> | H | H]; [| auto | discriminate].
      clear Hge Small Hm V.
      destruct (Pos.compare_cont Eq m 4503599627370496) eqn:E; [| | discriminate Hle].
      * apply (Pos.compare_eq m 4503599627370496) in E. rewrite E. reflexivity.
      * apply (proj1 (Pos.compare_lt_iff m 4503599627370496)) in E.
        change (2 ^ (47 - -5)) with 4503599627370496. apply Pos2Z.pos_le_pos, Pos.lt_le_incl, E.
Qed.

(** Every double between -2^47 and 2^47 snaps to the centre of a cell. *)
Lemma snap_cell (p : number) :
  valid_binary prec emax p = true ->
  (p <=? num (2 ^ 47))%number = true -> (p >=? num (- 2 ^ 47))%number = true ->
  exists k, Z.abs k <= 2 ^ 47 /\ snap p = cellCentre k.
Proof.
  intros V Hle Hge. pose proof (magnitude p V Hle Hge) as M.
  destruct p as [s | s | | s m e]; try contradiction.
  - exists 0. split; [cbn; lia |]. destruct s; vm_compute; reflexivity.
  - destruct (floor_div_bound s m e M) as [Z | (k & Hk & E)].
    + exists 0. split; [cbn; lia |]. unfold snap. rewrite Z. vm_compute. reflexivity.
    + exists k. split; [exact Hk |]. unfold snap, cellCentre. rewrite E. reflexivity.
Qed.

(** ** Coordinates of the board *)

Lemma inRange_spec (p : number) :
  inRange p = true ->
  valid_binary prec emax p = true
  /\ (p <=? num (2 ^ 47))%number = true /\ (p >=? num (- 2 ^ 47))%number = true.
Proof.
  unfold inRange. intros H.
  apply andb_prop in H as [H H3]. apply andb_prop in H as [H1 H2]. auto.
Qed.

(** X1. The two conversions are inverse to each other on integer
    coordinates of magnitude at most 2^52: a game point converted to the
    world and back is the same game point, and a point of the ground plane
    converted to game coordinates and back is the same world point. *)
Theorem conversions_inverse_on_integers (x y : Z) :
  Z.abs x <= 2 ^ 52 -> Z.abs y <= 2 ^ 52 ->
  roundTrip (num x) (num y) = mkVec2 (num x) (num y)
  /\ (forall worldY,
        let g := worldToGameCoords (num x) worldY (num y) in
        gameToWorldCoords (x2 g) (y2 g) = mkVec3 (num x) (num 0) (num y)).
Proof.
  intros Hx Hy.
  assert (B : 2 ^ 52 + 400 < 2 ^ 53) by reflexivity.
  split.
  - rewrite roundTrip_components.
    change (originalWidth / num 2)%number with (num 400).
    change (originalHeight / num 2)%number with (num 300).
    rewrite !sub_num, !add_num by lia.
    f_equal; f_equal; lia.
  - intros worldY g. subst g. unfold worldToGameCoords, gameToWorldCoords.
    cbn [x2 y2].
    change (originalWidth / num 2)%number with (num 400).
    change (originalHeight / num 2)%number with (num 300).
    rewrite !add_num, !sub_num by lia.
    f_equal; f_equal; lia.
Qed.

Lemma conversions_inverse_on_integers_witness :
  Z.abs 1000000 <= 2 ^ 52 /\ Z.abs (-7) <= 2 ^ 52
  /\ roundTrip (num 1000000) (num (-7)) = mkVec2 (num 1000000) (num (-7)).
Proof.
  split; [vm_compute; discriminate |]. split; [vm_compute; discriminate |].
  apply (conversions_inverse_on_integers 1000000 (-7)); vm_compute; discriminate.
Defined.

(** X2. The snapping of [screenToWorld] sends every double between -2^47
    and 2^47 to the centre of a grid cell: an integer [40 k + 20]. *)
Theorem snap_gives_cell_centre (p : number) :
  inRange p = true ->
  exists k : Z, Z.abs k <= 2 ^ 47 /\ snap p = num (40 * k + 20).
Proof.
  intros H. apply inRange_spec in H as (V & Hle & Hge).
  destruct (snap_cell p V Hle Hge) as (k & Hk & E).
  exists k. split; [exact Hk |]. rewrite E. apply cellCentre_num, Hk.
Qed.

Lemma snap_gives_cell_centre_witness :
  inRange (dec 1375 10) = true
  /\ exists k : Z, Z.abs k <= 2 ^ 47 /\ snap (dec 1375 10) = num (40 * k + 20).
Proof.
  split; [vm_compute; reflexivity |].
  apply (snap_gives_cell_centre (dec 1375 10)). vm_compute. reflexivity.
Defined.

(** X3. Snapping is idempotent on every double between -2^47 and 2^47. *)
Theorem snap_idempotent_in_range (p : number) :
  inRange p = true -> snap (snap p) = snap p.
Proof.
  intros H. apply inRange_spec in H as (V & Hle & Hge).
  destruct (snap_cell p V Hle Hge) as (k & Hk & ->).
  apply snap_cellCentre, Hk.
Qed.

Lemma snap_idempotent_in_range_witness :
  inRange (dec (-98765432101) 1000) = true
  /\ snap (snap (dec (-98765432101) 1000)) = snap (dec (-98765432101) 1000).
Proof.
  split; [vm_compute; reflexivity |].
  apply (snap_idempotent_in_range (dec (-98765432101) 1000)). vm_compute. reflexivity.
Defined.

Lemma game_of_cell (i j : Z) :
  Z.abs i <= 2 ^ 47 -> Z.abs j <= 2 ^ 47 ->
  worldToGameCoords (num (40 * i + 20)) (num 0) (num (40 * j + 20))
  = mkVec2 (num (40 * i + 420)) (num (40 * j + 320)).
Proof.
  intros Hi Hj. unfold worldToGameCoords.
  change (originalWidth / num 2)%number with (num 400).
  change (originalHeight / num 2)%number with (num 300).
  assert (B : 40 * 2 ^ 47 + 420 < 2 ^ 53) by reflexivity.
  rewrite !add_num by lia. f_equal; f_equal; lia.
Qed.

(** X4. When the ray of the pointer hits the ground plane at a point whose
    coordinates are between -2^47 and 2^47, the world position is the
    centre of a cell, [(40 i + 20, 0, 40 j + 20)], and the game position
    stored by a pointer move and forwarded by a click is
    [(40 i + 420, 40 j + 320)]. *)
Theorem hit_gives_cell_coordinates
    (env : Env) (x y : number) (st : State) (point : Vec3) (rest : list Vec3) :
  is_Some (groundPlane st) ->
  intersectObject env (mouse (fst (screenToWorld env x y st))) (camera st)
    = point :: rest ->
  inRange (x3 point) = true -> inRange (z3 point) = true ->
  exists i j : Z,
    Z.abs i <= 2 ^ 47 /\ Z.abs j <= 2 ^ 47
    /\ snd (screenToWorld env x y st)
       = Some (mkVec3 (num (40 * i + 20)) (num 0) (num (40 * j + 20)))
    /\ getHoverPosition (handleMouseMove env x y st)
       = mkVec2 (num (40 * i + 420)) (num (40 * j + 320))
    /\ snd (handleClick env x y st)
       = if hasWasmLoader env
         then [mkVec2 (num (40 * i + 420)) (num (40 * j + 320))] else [].
Proof.
  intros [ground G] Hit Hx Hz.
  apply inRange_spec in Hx as (Vx & Lx & Gx). apply inRange_spec in Hz as (Vz & Lz & Gz).
  destruct (snap_cell _ Vx Lx Gx) as (i & Hi & Ei).
  destruct (snap_cell _ Vz Lz Gz) as (j & Hj & Ej).
  rewrite cellCentre_num in Ei, Ej by assumption.
  exists i, j.
  assert (W : snd (screenToWorld env x y st)
              = Some (mkVec3 (num (40 * i + 20)) (num 0) (num (40 * j + 20)))).
  { rewrite screenToWorld_result, G, Hit, Ei, Ej. reflexivity. }
  split; [exact Hi |]. split; [exact Hj |]. split; [exact W |]. split.
  - unfold getHoverPosition, handleMouseMove.
    rewrite (hoverAt_hit env x y st _ W). cbn [x3 y3 z3].
    apply game_of_cell; assumption.
  - unfold handleClick. destruct (screenToWorld env x y st) as [st1 [w |]];
      cbn [snd] in W; [| discriminate].
    injection W as ->. cbn [x3 y3 z3]. rewrite game_of_cell by assumption.
    destruct (hasWasmLoader env); reflexivity.
Qed.

Lemma hit_gives_cell_coordinates_witness :
  is_Some (groundPlane started)
  /\ inRange (dec (-2755) 10) = true /\ inRange (dec 1001 10) = true
  /\ exists i j : Z,
       Z.abs i <= 2 ^ 47 /\ Z.abs j <= 2 ^ 47
       /\ snd (screenToWorld (browser WasmLoader (hitAt (mkVec3 (dec (-2755) 10) (num 0) (dec 1001 10))))
                 (num 10) (num 10) started)
          = Some (mkVec3 (num (40 * i + 20)) (num 0) (num (40 * j + 20)))
       /\ getHoverPosition
            (handleMouseMove (browser WasmLoader (hitAt (mkVec3 (dec (-2755) 10) (num 0) (dec 1001 10))))
               (num 10) (num 10) started)
          = mkVec2 (num (40 * i + 420)) (num (40 * j + 320))
       /\ snd (handleClick (browser WasmLoader (hitAt (mkVec3 (dec (-2755) 10) (num 0) (dec 1001 10))))
                 (num 10) (num 10) started)
          = if hasWasmLoader (browser WasmLoader (hitAt (mkVec3 (dec (-2755) 10) (num 0) (dec 1001 10))))
            then [mkVec2 (num (40 * i + 420)) (num (40 * j + 320))] else [].
Proof.
  split; [eexists; vm_compute; reflexivity |].
  split; [vm_compute; reflexivity |]. split; [vm_compute; reflexivity |].
  apply (hit_gives_cell_coordinates
           (browser WasmLoader (hitAt (mkVec3 (dec (-2755) 10) (num 0) (dec 1001 10))))
           (num 10) (num 10) started (mkVec3 (dec (-2755) 10) (num 0) (dec 1001 10)) []).
  - eexists. vm_compute. reflexivity.
  - reflexivity.
  - vm_compute. reflexivity.
  - vm_compute. reflexivity.
Defined.

(** ** Pointer and touch input *)

Lemma withScene_withScene (sc sc' : Scene) (st : State) :
  withScene sc' (withScene sc st) = withScene sc' st.
Proof. reflexivity. Qed.

Lemma hidePreview_idem (st : State) : hidePreview (hidePreview st) = hidePreview st.
Proof.
  rewrite (hidePreview_frame (hidePreview st)).
  assert (O : objects (scene (hidePreview (hidePreview st)))
              = objects (scene (hidePreview st))).
  { apply list_eq. intros h. rewrite (hidePreview_objects (hidePreview st)).
    assert (P : previewHandles (hidePreview st) = previewHandles st) by reflexivity.
    rewrite P. destruct (decide (h ∈ previewHandles st)) as [Hin | Hout]; [| reflexivity].
    rewrite hidePreview_objects, decide_True by exact Hin.
    destruct (objects (scene st) !! h); reflexivity. }
  rewrite O. generalize (hidePreview st). intros s.
  destruct s as [? sc ? ? ? ? ? ? ? ? ? ? ? ? ? ?]. destruct sc. reflexivity.
Qed.

(** X5. When the pointer leaves the canvas the hover position becomes the
    sentinel (-1, -1), each of the three preview primitives becomes
    invisible and nothing else changes; drawing the tower preview at the
    hover position then changes nothing. *)
Theorem handleMouseLeave_resets (st : State) :
  let st' := handleMouseLeave st in
  getHoverPosition st' = sentinel
  /\ (forall h o, h ∈ previewHandles st -> objects (scene st) !! h = Some o ->
        objects (scene st') !! h = Some (setVisible false o))
  /\ (forall h, h ∉ previewHandles st ->
        objects (scene st') !! h = objects (scene st) !! h)
  /\ st' = withHover sentinel
             (withScene (mkScene (children (scene st)) (objects (scene st'))
                                 (geometries (scene st)) (materials (scene st))) st)
  /\ (forall canPlace range,
        drawTowerPreview (x2 (getHoverPosition st')) (y2 (getHoverPosition st'))
          canPlace range st' = st').
Proof.
  intros st'.
  assert (E : st' = hidePreview (withHover sentinel st)) by reflexivity.
  assert (O : forall h, objects (scene st') !! h
                        = objects (scene (hidePreview st)) !! h) by reflexivity.
  split; [reflexivity |]. split; [| split; [| split]].
  - intros h o Hin Ho. rewrite O, hidePreview_objects, decide_True by exact Hin.
    rewrite Ho. reflexivity.
  - intros h Hout. rewrite O, hidePreview_objects, decide_False by exact Hout.
    reflexivity.
  - rewrite E. rewrite (hidePreview_frame (withHover sentinel st)) at 1. reflexivity.
  - intros canPlace range.
    assert (S : getHoverPosition st' = sentinel) by reflexivity.
    rewrite S. unfold drawTowerPreview.
    change (x2 sentinel <? num 0)%number with true. cbn [orb].
    rewrite E. apply hidePreview_idem.
Qed.

(** X6. A touch whose ray hits the ground plane, followed by the end of
    the touch, forwards what a click at the same place forwards, provided
    both game coordinates are at least 0; with a negative (or NaN)
    coordinate the tap forwards nothing.  In either case the hover position
    is the sentinel afterwards. *)
Theorem tap_forwards_like_click (env : Env) (t : Vec2) (st : State) (w : Vec3) :
  snd (screenToWorld env (x2 t) (y2 t) st) = Some w ->
  let game := worldToGameCoords (x3 w) (y3 w) (z3 w) in
  let st' := handleTouchEnd env (handleTouchStart env [t] st) in
  snd st' = (if (x2 game >=? num 0)%number && (y2 game >=? num 0)%number
             then snd (handleClick env (x2 t) (y2 t) st) else [])
  /\ getHoverPosition (fst st') = sentinel.
Proof.
  intros W game st'. split; [| reflexivity].
  unfold st', handleTouchEnd, handleTouchStart. cbn [snd].
  rewrite (hoverAt_hit env (x2 t) (y2 t) st w W). fold game.
  unfold handleClick.
  destruct (screenToWorld env (x2 t) (y2 t) st) as [st1 [w' |]]; [| discriminate].
  cbn [snd] in W. injection W as ->. fold game.
  destruct (hasWasmLoader env), (x2 game >=? num 0)%number, (y2 game >=? num 0)%number;
    reflexivity.
Qed.

Lemma tap_forwards_like_click_witness :
  snd (screenToWorld (browser WasmLoader (hitAt (mkVec3 (num (-280)) (num 0) (num (-220)))))
         (num 10) (num 10) started)
  = Some (mkVec3 (num (-260)) (num 0) (num (-220)))
  /\ snd (handleTouchEnd (browser WasmLoader (hitAt (mkVec3 (num (-280)) (num 0) (num (-220)))))
            (handleTouchStart
               (browser WasmLoader (hitAt (mkVec3 (num (-280)) (num 0) (num (-220)))))
               [mkVec2 (num 10) (num 10)] started))
     = [mkVec2 (num 140) (num 80)].
Proof.
  split; [vm_compute; reflexivity |].
  rewrite (proj1 (tap_forwards_like_click
                    (browser WasmLoader (hitAt (mkVec3 (num (-280)) (num 0) (num (-220)))))
                    (mkVec2 (num 10) (num 10)) started
                    (mkVec3 (num (-260)) (num 0) (num (-220)))
                    ltac:(vm_compute; reflexivity))).
  vm_compute. reflexivity.
Defined.

(** X7. A touch whose ray misses the ground plane leaves the stored hover
    position, so the end of the touch forwards that older position
    (when the game's loader exists and both coordinates are at least 0),
    whereas a click at the same place forwards nothing. *)
Theorem tap_off_ground_forwards_stored_hover (env : Env) (t : Vec2) (st : State) :
  snd (screenToWorld env (x2 t) (y2 t) st) = None ->
  snd (handleTouchEnd env (handleTouchStart env [t] st))
  = (if hasWasmLoader env
        && (x2 (getHoverPosition st) >=? num 0)%number
        && (y2 (getHoverPosition st) >=? num 0)%number
     then [getHoverPosition st] else [])
  /\ snd (handleClick env (x2 t) (y2 t) st) = [].
Proof.
  intros W. split.
  - unfold handleTouchEnd, handleTouchStart, getHoverPosition. cbn [snd].
    rewrite (hoverAt_miss env (x2 t) (y2 t) st W). reflexivity.
  - unfold handleClick.
    destruct (screenToWorld env (x2 t) (y2 t) st) as [st1 [w |]];
      [discriminate | reflexivity].
Qed.

Lemma tap_off_ground_forwards_stored_hover_witness :
  snd (screenToWorld (browser WasmLoader noHit) (num 10) (num 10)
         (handleMouseMove
            (browser WasmLoader (hitAt (mkVec3 (num (-280)) (num 0) (num (-220)))))
            (num 10) (num 10) started)) = None
  /\ snd (handleTouchEnd (browser WasmLoader noHit)
            (handleTouchStart (browser WasmLoader noHit) [mkVec2 (num 10) (num 10)]
               (handleMouseMove
                  (browser WasmLoader (hitAt (mkVec3 (num (-280)) (num 0) (num (-220)))))
                  (num 10) (num 10) started)))
     = [mkVec2 (num 140) (num 80)].
Proof.
  split; [vm_compute; reflexivity |].
  rewrite (proj1 (tap_off_ground_forwards_stored_hover
                    (browser WasmLoader noHit) (mkVec2 (num 10) (num 10))
                    (handleMouseMove
                       (browser WasmLoader (hitAt (mkVec3 (num (-280)) (num 0) (num (-220)))))
                       (num 10) (num 10) started)
                    ltac:(vm_compute; reflexivity))).
  vm_compute. reflexivity.
Defined.

(** X8. The end of a touch forwards the hover position at most once: a
    second end of touch, or an end of touch after the pointer has left,
    forwards nothing, whatever the environment. *)
Theorem touchend_forwards_once (env env' : Env) (st : State) :
  snd (handleTouchEnd env' (fst (handleTouchEnd env st))) = []
  /\ snd (handleTouchEnd env' (handleMouseLeave st)) = [].
Proof.
  assert (N : (x2 sentinel >=? num 0)%number = false) by reflexivity.
  split; unfold handleTouchEnd; cbn [fst snd];
    change (currentHoverPosition (withHover sentinel st)) with sentinel;
    change (currentHoverPosition (handleMouseLeave st)) with sentinel;
    rewrite N, andb_false_r; reflexivity.
Qed.

(** ** What a call leaves in place *)

Lemma quiet_refl (st : State) : quiet st st.
Proof. repeat split. Qed.

Lemma quiet_trans (st1 st2 st3 : State) : quiet st1 st2 -> quiet st2 st3 -> quiet st1 st3.
Proof.
  intros (A1 & A2 & A3 & A4 & A5 & A6 & A7 & A8) (B1 & B2 & B3 & B4 & B5 & B6 & B7 & B8).
  repeat split; congruence.
Qed.

Lemma quiet_hidePreview (st : State) : quiet st (hidePreview st).
Proof.
  unfold quiet, hidePreview. cbn [scene withScene]. rewrite !keys_hide.
  destruct (hide_frame (invalidPlacementMesh st)
              (hide (rangePreviewMesh st) (hide (towerPreviewMesh st) (scene st))))
    as (C1 & _).
  destruct (hide_frame (rangePreviewMesh st) (hide (towerPreviewMesh st) (scene st)))
    as (C2 & _).
  destruct (hide_frame (towerPreviewMesh st) (scene st)) as (C3 & _).
  rewrite C1, C2, C3. repeat split.
Qed.

Lemma quiet_screenToWorld (env : Env) (x y : number) (st : State) :
  quiet st (fst (screenToWorld env x y st)).
Proof. rewrite screenToWorld_frame. repeat split. Qed.

Lemma quiet_hoverAt (env : Env) (x y : number) (st : State) :
  quiet st (hoverAt env x y st).
Proof.
  unfold hoverAt. pose proof (quiet_screenToWorld env x y st) as Q.
  destruct (screenToWorld env x y st) as [st1 [w |]]; cbn [fst] in Q; [| exact Q].
  eapply quiet_trans; [exact Q |]. repeat split.
Qed.

Lemma quiet_handleResize (env : Env) (st : State) : quiet st (handleResize env st).
Proof. unfold handleResize. destruct (container st); repeat split. Qed.

Lemma quiet_dispatch (env : Env) (ev : Event) (st : State) :
  quiet st (fst (dispatch env ev st)).
Proof.
  destruct ev as [x y | | x y | ts | ts | |]; cbn [dispatch fst].
  - apply quiet_hoverAt.
  - unfold handleMouseLeave. eapply quiet_trans; [| apply quiet_hidePreview].
    repeat split.
  - unfold handleClick. pose proof (quiet_screenToWorld env x y st) as Q.
    destruct (screenToWorld env x y st) as [st1 [w |]];
      [destruct (hasWasmLoader env) |]; exact Q.
  - destruct ts as [| t [| t' ts]]; cbn; auto using quiet_hoverAt, quiet_refl.
  - destruct ts as [| t [| t' ts]]; cbn; auto using quiet_hoverAt, quiet_refl.
  - repeat split.
  - apply quiet_handleResize.
Qed.

Lemma quiet_drawTowerPreview (x y : number) (canPlace : bool) (range : number)
    (st : State) :
  quiet st (drawTowerPreview x y canPlace range st).
Proof.
  destruct (drawTowerPreview_frame x y canPlace range st)
    as (K & C & _ & _ & T & P1 & P2 & P3 & P4 & _).
  repeat split; try assumption.
  unfold drawTowerPreview. destruct (_ || _); reflexivity.
Qed.

Lemma quiet_drawText (env : Env) (x y : number) (text : string) (size r g b : number)
    (st : State) :
  quiet st (drawText env x y text size r g b st).
Proof. unfold drawText. destruct (textContext st); repeat split. Qed.

(** What a call other than [initialize] and [clear] does to the scene
    graph: it is quiet, or it adds one fresh tracked object. *)
Lemma call_step (env : Env) (c : Call) (st : State) :
  c <> Initialize -> c <> Clear ->
  quiet st (call env c st)
  \/ exists k, spawns k st (call env c st) /\ (k = Mesh \/ k = Line)
               /\ listeners (call env c st) = listeners st.
Proof.
  intros N1 N2. destruct c; cbn [call]; try contradiction.
  - left. apply quiet_refl.
  - right. exists Mesh. split; [apply drawRect_spawns | auto].
  - destruct (skipCircle y radius fill) eqn:S.
    + left. rewrite drawCircle_skipped by exact S. apply quiet_refl.
    + right. exists Mesh. split; [apply drawCircle_spawns, S |]. split; [auto |].
      unfold drawCircle. rewrite S. reflexivity.
  - right. exists Line. split; [apply drawLine_spawns | auto].
  - right. exists (if fill then Mesh else Line).
    split; [apply drawTriangle_spawns |]. split; [destruct fill; auto | reflexivity].
  - left. apply quiet_drawText.
  - left. apply quiet_drawTowerPreview.
  - left. repeat split.
  - left. apply quiet_dispatch.
Qed.

Lemma listeners_createGroundPlane (st : State) :
  listeners (createGroundPlane st) = listeners st
  /\ currentHoverPosition (createGroundPlane st) = currentHoverPosition st
  /\ container (createGroundPlane st) = container st.
Proof. repeat split. Qed.

Lemma Call_cases (c : Call) :
  c = Initialize \/ c = Clear \/ (c <> Initialize /\ c <> Clear).
Proof. destruct c; auto; right; right; split; discriminate. Qed.

Lemma initialize_found (env : Env) (st : State) (e : Element) :
  document env !! containerId = Some e ->
  exists st1, scene st1 = scene st /\ sceneObjects st1 = sceneObjects st
    /\ listeners st1 = listeners st
    /\ currentHoverPosition st1 = currentHoverPosition st
    /\ container st1 = Some containerId
    /\ fst (initialize env st)
       = handleResize env (setupEventListeners (createGroundPlane st1)).
Proof.
  intros F. unfold initialize. rewrite F. cbn [fst].
  eexists. split; [| split; [| split; [| split; [| split; [| reflexivity]]]]]; reflexivity.
Qed.

Lemma handleResize_fields (env : Env) (s : State) :
  scene (handleResize env s) = scene s
  /\ sceneObjects (handleResize env s) = sceneObjects s
  /\ listeners (handleResize env s) = listeners s
  /\ groundPlane (handleResize env s) = groundPlane s
  /\ towerPreviewMesh (handleResize env s) = towerPreviewMesh s
  /\ rangePreviewMesh (handleResize env s) = rangePreviewMesh s
  /\ invalidPlacementMesh (handleResize env s) = invalidPlacementMesh s
  /\ currentHoverPosition (handleResize env s) = currentHoverPosition s.
Proof. unfold handleResize. destruct (container s); repeat split. Qed.

Lemma setupEventListeners_fields (s : State) :
  scene (setupEventListeners s) = scene s
  /\ sceneObjects (setupEventListeners s) = sceneObjects s
  /\ listeners (setupEventListeners s)
     = listeners s ++ ["mousemove"; "mouseleave"; "click";
                       "touchstart"; "touchmove"; "touchend"; "resize"]%string
  /\ groundPlane (setupEventListeners s) = groundPlane s
  /\ towerPreviewMesh (setupEventListeners s) = towerPreviewMesh s
  /\ rangePreviewMesh (setupEventListeners s) = rangePreviewMesh s
  /\ invalidPlacementMesh (setupEventListeners s) = invalidPlacementMesh s
  /\ currentHoverPosition (setupEventListeners s) = currentHoverPosition s.
Proof. repeat split. Qed.

(** What a successful [initialize] leaves. *)
Lemma initialize_found_fields (env : Env) (st : State) (e : Element) :
  document env !! containerId = Some e ->
  let a := length (objects (scene st)) in
  let st' := fst (initialize env st) in
  keys (scene st') =
    keys (scene st) ++
    [ (Mesh, Some (length (geometries (scene st))), One (length (materials (scene st))));
      (GridHelper, None, NoMaterial);
      (Mesh, Some (length (geometries (scene st)) + 1), One (length (materials (scene st)) + 1));
      (Mesh, Some (length (geometries (scene st)) + 2), One (length (materials (scene st)) + 2));
      (Group, None, NoMaterial);
      (Mesh, Some (length (geometries (scene st)) + 3), One (length (materials (scene st)) + 3));
      (Mesh, Some (length (geometries (scene st)) + 4), One (length (materials (scene st)) + 3)) ]%nat
  /\ children (scene st') = children (scene st) ++ [a; a + 1; a + 2; a + 3; a + 4]%nat
  /\ sceneObjects st' = sceneObjects st
  /\ listeners st'
     = listeners st ++ ["mousemove"; "mouseleave"; "click";
                        "touchstart"; "touchmove"; "touchend"; "resize"]%string
  /\ groundPlane st' = Some a
  /\ towerPreviewMesh st' = Some (a + 2)%nat
  /\ rangePreviewMesh st' = Some (a + 3)%nat
  /\ invalidPlacementMesh st' = Some (a + 4)%nat
  /\ currentHoverPosition st' = currentHoverPosition st.
Proof.
  intros F a st'. subst a st'.
  destruct (initialize_found env st e F) as (st1 & S & T & L & H & _ & ->).
  destruct (handleResize_fields env (setupEventListeners (createGroundPlane st1)))
    as (-> & -> & -> & -> & -> & -> & -> & ->).
  destruct (setupEventListeners_fields (createGroundPlane st1))
    as (-> & -> & -> & -> & -> & -> & -> & ->).
  destruct (createGroundPlane_shape st1) as (K & C & _ & _ & G & P1 & P2 & P3 & T1).
  destruct (listeners_createGroundPlane st1) as (L1 & H1 & _).
  rewrite K, C, G, P1, P2, P3, T1, L1, H1, S, T, L, H. repeat split.
Qed.

Lemma initialize_missing (env : Env) (st : State) :
  document env !! containerId = None ->
  quiet st (fst (initialize env st))
  /\ currentHoverPosition (fst (initialize env st)) = currentHoverPosition st.
Proof. intros F. unfold initialize. rewrite F. repeat split. Qed.

(** X9. In every reachable state the listeners are registered exactly
    when the ground plane exists, and with the ground plane exist the
    three preview primitives: a handler called by the browser never finds
    the ground plane missing. *)
Theorem listeners_iff_ground_plane (st : State) :
  reachable st ->
  (listeners st <> [] <-> is_Some (groundPlane st))
  /\ (is_Some (groundPlane st) ->
      is_Some (towerPreviewMesh st) /\ is_Some (rangePreviewMesh st)
      /\ is_Some (invalidPlacementMesh st)).
Proof.
  induction 1 as [env | env c st R IH].
  - split.
    + split; [intros H; contradiction H; reflexivity | intros [h H]; discriminate].
    + intros [h H]. discriminate.
  - assert (Q : forall st', quiet st st' ->
              (listeners st' <> [] <-> is_Some (groundPlane st'))
              /\ (is_Some (groundPlane st') ->
                  is_Some (towerPreviewMesh st') /\ is_Some (rangePreviewMesh st')
                  /\ is_Some (invalidPlacementMesh st'))).
    { intros st' (_ & _ & _ & L & G & P1 & P2 & P3). rewrite L, G, P1, P2, P3. exact IH. }
    destruct (Call_cases c) as [-> | [-> | [N1 N2]]].
    { cbn [call]. destruct (document env !! containerId) as [e |] eqn:F.
      - destruct (initialize_found_fields env st e F)
          as (_ & _ & _ & L & G & P1 & P2 & P3 & _).
        rewrite L, G, P1, P2, P3. split; [split |].
        + intros _. eexists. reflexivity.
        + intros _ H. apply app_eq_nil in H as [_ H]. discriminate.
        + intros _. split; [| split]; eexists; reflexivity.
      - apply Q, initialize_missing, F. }
    { cbn [call]. destruct (clear_scene st) as (_ & _ & G & P1 & P2 & P3 & _).
      rewrite G, P1, P2, P3. exact IH. }
    destruct (call_step env c st N1 N2) as [H | (k & S & _ & L)]; [apply Q, H |].
    destruct S as (_ & _ & _ & _ & _ & G & P1 & P2 & P3).
    rewrite L, G, P1, P2, P3. exact IH.
Qed.

Lemma listeners_iff_ground_plane_witness :
  reachable started
  /\ (listeners started <> [] <-> is_Some (groundPlane started)).
Proof.
  split; [exact started_reachable |].
  exact (proj1 (listeners_iff_ground_plane started started_reachable)).
Defined.

Lemma hover_call (env : Env) (c : Call) (st : State) :
  (forall ev, c <> Dispatch ev) ->
  currentHoverPosition (call env c st) = currentHoverPosition st.
Proof.
  intros N. destruct c; cbn [call]; try reflexivity.
  - destruct (document env !! containerId) as [e |] eqn:F.
    + apply (initialize_found_fields env st e F).
    + apply initialize_missing, F.
  - unfold drawCircle. destruct (skipCircle y radius fill); reflexivity.
  - unfold drawText. destruct (textContext st); reflexivity.
  - apply drawTowerPreview_frame.
  - contradiction (N ev). reflexivity.
Qed.

(** X10. In every reachable state the hover position is the sentinel
    (-1, -1) or the game coordinates of a grid-snapped point of the ground
    plane. *)
Theorem hover_is_sentinel_or_snapped (st : State) :
  reachable st ->
  getHoverPosition st = sentinel
  \/ exists p : Vec3,
       getHoverPosition st = worldToGameCoords (snap (x3 p)) (num 0) (snap (z3 p)).
Proof.
  unfold getHoverPosition.
  induction 1 as [env | env c st R IH]; [left; reflexivity |].
  assert (Hover : forall x y,
            currentHoverPosition (hoverAt env x y st) = sentinel
            \/ exists p : Vec3, currentHoverPosition (hoverAt env x y st)
                 = worldToGameCoords (snap (x3 p)) (num 0) (snap (z3 p))).
  { intros x y. destruct (snd (screenToWorld env x y st)) as [w |] eqn:W.
    - right. rewrite (hoverAt_hit env x y st w W).
      rewrite screenToWorld_result in W.
      destruct (groundPlane st); [| discriminate].
      destruct (intersectObject env _ _) as [| point rest]; [discriminate |].
      injection W as <-. exists point. reflexivity.
    - rewrite (hoverAt_miss env x y st W). exact IH. }
  destruct c; try (rewrite hover_call by (intros; discriminate); exact IH).
  cbn [call]. destruct ev as [x y | | x y | ts | ts | |]; cbn [dispatch fst].
  - apply Hover.
  - left. reflexivity.
  - replace (currentHoverPosition (fst (handleClick env x y st)))
      with (currentHoverPosition st); [exact IH |].
    unfold handleClick. pose proof (screenToWorld_frame env x y st) as F.
    destruct (screenToWorld env x y st) as [st1 [w |]]; cbn [fst] in F;
      [destruct (hasWasmLoader env) |]; cbn [fst]; rewrite F; reflexivity.
  - destruct ts as [| t [| t' ts]]; cbn [handleTouchStart]; auto.
  - destruct ts as [| t [| t' ts]]; cbn [handleTouchMove]; auto.
  - left. reflexivity.
  - replace (currentHoverPosition (handleResize env st))
      with (currentHoverPosition st); [exact IH |].
    unfold handleResize. destruct (container st); reflexivity.
Qed.

Lemma hover_is_sentinel_or_snapped_witness :
  reachable started
  /\ (getHoverPosition started = sentinel
      \/ exists p : Vec3,
           getHoverPosition started
           = worldToGameCoords (snap (x3 p)) (num 0) (snap (z3 p))).
Proof.
  split; [exact started_reachable |].
  exact (hover_is_sentinel_or_snapped started started_reachable).
Defined.

(** ** The scene graph over a frame *)

Lemma filter_all {A} (P : A -> Prop) `{!forall x, Decision (P x)} (l : list A) :
  (forall x, x ∈ l -> P x) -> filter P l = l.
Proof.
  induction l as [| a l IH]; intros Hall; [reflexivity |].
  rewrite filter_cons_True by (apply Hall; left). f_equal.
  apply IH. intros x Hx. apply Hall. right. exact Hx.
Qed.

Lemma filter_ext_in {A} (P1 P2 : A -> Prop)
    `{!forall x, Decision (P1 x), !forall x, Decision (P2 x)} (l : list A) :
  (forall x, x ∈ l -> P1 x <-> P2 x) -> filter P1 l = filter P2 l.
Proof.
  induction l as [| a l IH]; intros Hall; [reflexivity |].
  assert (IH' : filter P1 l = filter P2 l).
  { apply IH. intros x Hx. apply Hall. right. exact Hx. }
  destruct (decide (P1 a)) as [p | n].
  - rewrite !filter_cons_True; [congruence | apply Hall; [left | exact p] | exact p].
  - rewrite !filter_cons_False; [exact IH' | | exact n].
    intros p. apply n, Hall; [left | exact p].
Qed.

Lemma foldl_clearObject_children (l : list handle) (sc : Scene) :
  children (foldl clearObject sc l) = filter (fun c => c ∉ l) (children sc).
Proof.
  revert sc. induction l as [| x l IH]; intros sc; cbn [foldl].
  - symmetry. apply filter_all. intros c _. apply not_elem_of_nil.
  - rewrite IH. destruct (clearObject_frame sc x) as (-> & _).
    rewrite list_filter_filter. apply list_filter_iff. intros c.
    rewrite not_elem_of_cons. tauto.
Qed.

(** The children of the scene after [clear]: those that were not tracked,
    in their order. *)
Lemma clear_children (st : State) :
  children (scene (clear st))
  = filter (fun c => c ∉ sceneObjects st) (children (scene st)).
Proof. destruct (clear_scene st) as (-> & _). apply foldl_clearObject_children. Qed.

Lemma length_keys (sc : Scene) : length (keys sc) = length (objects sc).
Proof. unfold keys. apply length_fmap. Qed.

(** The children of the scene are allocated objects. *)
Lemma reachable_children (st : State) :
  reachable st ->
  forall h, h ∈ children (scene st) -> (h < length (objects (scene st)))%nat.
Proof.
  induction 1 as [env | env c st R IH]; intros h Hin.
  - cbn in Hin. rewrite !elem_of_cons, elem_of_nil in Hin. cbn. lia.
  - rewrite <- length_keys. setoid_rewrite <- length_keys in IH.
    destruct (Call_cases c) as [-> | [-> | [N1 N2]]].
    + cbn [call] in *. destruct (document env !! containerId) as [e |] eqn:F.
      * destruct (initialize_found_fields env st e F) as (K & C & _).
        rewrite K, length_app. rewrite C, elem_of_app in Hin.
        destruct Hin as [Hin | Hin]; [apply IH in Hin; lia |].
        rewrite length_keys in *. cbn [length].
        rewrite !elem_of_cons, elem_of_nil in Hin. lia.
      * destruct (initialize_missing env st F) as ((K & C & _) & _).
        rewrite K. rewrite C in Hin. apply IH, Hin.
    + cbn [call] in *. destruct (clear_scene st) as (S & _). rewrite S in *.
      rewrite clear_keys. apply clear_frame in Hin as [Hin _]. apply IH, Hin.
    + destruct (call_step env c st N1 N2) as [(K & C & _) | (k & S & _)].
      * rewrite K. rewrite C in Hin. apply IH, Hin.
      * destruct S as (K & C & _). rewrite K, length_app. rewrite C, elem_of_app in Hin.
        destruct Hin as [Hin | Hin]; [apply IH in Hin; lia |].
        apply list_elem_of_singleton in Hin. rewrite length_keys in *. cbn [length]. lia.
Qed.

Lemma untracked_children_step (env : Env) (c : Call) (st : State) :
  reachable st -> c <> Initialize ->
  filter (fun h => h ∉ sceneObjects (call env c st)) (children (scene (call env c st)))
  = filter (fun h => h ∉ sceneObjects st) (children (scene st)).
Proof.
  intros R N1. destruct (Call_cases c) as [-> | [-> | [_ N2]]]; [contradiction | |].
  - cbn [call]. rewrite clear_children. destruct (clear_scene st) as (_ & -> & _).
    apply filter_all. intros h _. apply not_elem_of_nil.
  - destruct (call_step env c st N1 N2) as [(_ & C & T & _) | (k & S & _)].
    + rewrite C, T. reflexivity.
    + destruct S as (_ & C & _ & _ & T & _). rewrite C, T, filter_app.
      rewrite filter_cons_False, filter_nil, app_nil_r.
      * apply filter_ext_in. intros h Hin. rewrite not_elem_of_app.
        pose proof (reachable_children st R h Hin) as Hlt.
        rewrite list_elem_of_singleton. split; [tauto | intros Ht; split; [exact Ht | lia]].
      * intros Hn. apply Hn. apply elem_of_app. right. apply list_elem_of_singleton.
        reflexivity.
Qed.

Lemma run_reachable (cs : list (Env * Call)) (st : State) :
  reachable st -> reachable (run cs st).
Proof.
  revert st. induction cs as [| [env c] cs IH]; intros st R; [exact R |].
  apply IH, reachable_call, R.
Qed.

(** X11. Whatever is drawn between two calls of [clear], the second one
    leaves in the scene exactly the children the first one left: no call
    other than [initialize] adds to the scene an object that outlives the
    next [clear]. *)
Theorem frame_leaves_scene_graph (cs : list (Env * Call)) (st : State) :
  reachable st ->
  Forall (fun ec => snd ec <> Initialize) cs ->
  children (scene (clear (run cs (clear st)))) = children (scene (clear st))
  /\ children (scene (clear (run cs st))) = children (scene (clear st)).
Proof.
  intros R H.
  assert (G : forall s, reachable s ->
            children (scene (clear (run cs s))) = children (scene (clear s))).
  { induction H as [| [env c] cs N _ IH]; intros s Rs; [reflexivity |].
    change (run ((env, c) :: cs) s) with (run cs (call env c s)).
    rewrite IH by (apply reachable_call, Rs).
    rewrite !clear_children. apply untracked_children_step; assumption. }
  split; [| apply G, R].
  rewrite G by (apply (reachable_call (browser NoGameApp noHit) Clear), R).
  rewrite (clear_children (clear st)). destruct (clear_scene st) as (_ & -> & _).
  apply filter_all. intros h _. apply not_elem_of_nil.
Qed.

Lemma frame_leaves_scene_graph_witness :
  reachable started
  /\ children (scene (clear (run [(browser WasmLoader noHit,
                                   DrawRect (num 40) (num 40) (num 30) (num 30)
                                            (num 255) (num 0) (num 0));
                                  (browser WasmLoader noHit,
                                   DrawLine (num 0) (num 0) (num 100) (num 100) (num 1)
                                            (num 255) (num 0) (num 0))]
                               (clear started))))
     = children (scene (clear started)).
Proof.
  split; [exact started_reachable |].
  refine (proj1 (frame_leaves_scene_graph
                   [(browser WasmLoader noHit,
                     DrawRect (num 40) (num 40) (num 30) (num 30)
                              (num 255) (num 0) (num 0));
                    (browser WasmLoader noHit,
                     DrawLine (num 0) (num 0) (num 100) (num 100) (num 1)
                              (num 255) (num 0) (num 0))]
                   started started_reachable _)).
  repeat constructor; discriminate.
Defined.

(** ** What [clear] disposes *)

Lemma clear_keeps_lines (st : State) (h g m : handle) :
  reachable st -> h ∈ sceneObjects st ->
  keys (scene st) !! h = Some (Line, Some g, One m) ->
  geometries (scene (clear st)) !! g = geometries (scene st) !! g
  /\ materials (scene (clear st)) !! m = materials (scene st) !! m.
Proof.
  intros R Hin Hk. pose proof (reachable_Inv st R) as I.
  destruct (clear_scene st) as (-> & _).
  assert (Other : forall h' g' ms, h' ∈ sceneObjects st ->
            keys (scene st) !! h' = Some (Mesh, g', ms) -> g' <> Some g /\ (m ∉ refs ms)).
  { intros h' g' ms Hin' Hk'.
    assert (Hne : h <> h') by (intros <-; rewrite Hk in Hk'; discriminate).
    apply (inv_owned st I h h' _ _ _ _ _ _ Hin Hne Hk Hk'). }
  split.
  - apply clear_geometry. intros h' ms Hin' Hk'.
    destruct (Other h' _ _ Hin' Hk') as [N _]. apply N. reflexivity.
  - apply clear_material. intros h' g' ms Hin' Hk'.
    apply (Other h' _ _ Hin' Hk').
Qed.

(** X12. In a reachable state [clear] treats a tracked object by its
    class: it is taken out of the scene; if it is a mesh, its geometry and
    its material are disposed; if it is a line, its geometry and its
    material are left exactly as they were. *)
Theorem clear_disposes_by_class (st : State) (h g m : handle) (k : ObjKind) :
  reachable st -> h ∈ sceneObjects st ->
  keys (scene st) !! h = Some (k, Some g, One m) ->
  (h ∉ children (scene (clear st)))
  /\ (k = Mesh ->
      gdisposed <$> geometries (scene (clear st)) !! g = Some true
      /\ mdisposed <$> materials (scene (clear st)) !! m = Some true)
  /\ (k = Line ->
      geometries (scene (clear st)) !! g = geometries (scene st) !! g
      /\ materials (scene (clear st)) !! m = materials (scene st) !! m).
Proof.
  intros R Hin Hk. split; [| split].
  - rewrite clear_children, list_elem_of_filter. tauto.
  - intros ->. apply (clear_disposes_meshes st h g m R Hin Hk).
  - intros ->. apply (clear_keeps_lines st h g m R Hin Hk).
Qed.

Lemma clear_disposes_by_class_witness :
  reachable (drawRect (num 40) (num 40) (num 30) (num 30) (num 255) (num 0) (num 0) started)
  /\ gdisposed <$>
       geometries (scene (clear (drawRect (num 40) (num 40) (num 30) (num 30)
                                   (num 255) (num 0) (num 0) started))) !! 5%nat
     = Some true.
Proof.
  assert (R : reachable (drawRect (num 40) (num 40) (num 30) (num 30)
                           (num 255) (num 0) (num 0) started)).
  { apply (reachable_call (browser WasmLoader noHit)
             (DrawRect (num 40) (num 40) (num 30) (num 30) (num 255) (num 0) (num 0))).
    exact started_reachable. }
  split; [exact R |].
  refine (proj1 (proj1 (proj2 (clear_disposes_by_class _ 11%nat 5%nat 4%nat Mesh R _ _))
                   eq_refl)).
  - vm_compute. apply list_elem_of_singleton. reflexivity.
  - vm_compute. reflexivity.
Defined.

Lemma spawns_disposedByClear (k : ObjKind) (st st1 : State) :
  reachable st1 -> spawns k st st1 -> k = Mesh \/ k = Line ->
  disposedByClear st st1 = (Some (bool_decide (k = Mesh)), Some (bool_decide (k = Mesh))).
Proof.
  intros R (K & _ & (s & G) & (mat & M & D) & T & _) Hk.
  assert (Hin : length (objects (scene st)) ∈ sceneObjects st1).
  { rewrite T, elem_of_app, list_elem_of_singleton. auto. }
  assert (Hkey : keys (scene st1) !! length (objects (scene st))
                 = Some (k, Some (length (geometries (scene st))),
                         One (length (materials (scene st))))).
  { rewrite K, lookup_app_r by (rewrite length_keys; lia).
    rewrite length_keys, Nat.sub_diag. reflexivity. }
  unfold disposedByClear. destruct Hk as [-> | ->].
  - destruct (clear_disposes_meshes st1 _ _ _ R Hin Hkey) as (_ & _ & -> & ->).
    reflexivity.
  - destruct (clear_keeps_lines st1 _ _ _ R Hin Hkey) as (-> & ->).
    rewrite G, M, !lookup_app_r, !Nat.sub_diag by lia. cbn. rewrite D. reflexivity.
Qed.

(** X13. From a reachable state, a rectangle, a circle that is not
    filtered out and a filled triangle have their geometry and their
    material disposed by the next [clear]; the geometry and the material
    of a triangle drawn in outline are left undisposed. *)
Theorem drawn_shapes_disposed_by_clear (st : State) :
  reachable st ->
  (forall x y width height r g b,
     disposedByClear st (drawRect x y width height r g b st) = (Some true, Some true))
  /\ (forall x y radius r g b fill, skipCircle y radius fill = false ->
        disposedByClear st (drawCircle x y radius r g b fill st) = (Some true, Some true))
  /\ (forall x1 y1 x2 y2 x3 y3 r g b fill,
        disposedByClear st (drawTriangle x1 y1 x2 y2 x3 y3 r g b fill st)
        = (Some fill, Some fill)).
Proof.
  intros R. pose (env := browser NoGameApp noHit). split; [| split].
  - intros x y width height r g b.
    apply (spawns_disposedByClear Mesh); [| apply drawRect_spawns | auto].
    apply (reachable_call env (DrawRect x y width height r g b)), R.
  - intros x y radius r g b fill S.
    apply (spawns_disposedByClear Mesh); [| apply drawCircle_spawns, S | auto].
    apply (reachable_call env (DrawCircle x y radius r g b fill)), R.
  - intros x1 y1 x2 y2 x3 y3 r g b fill.
    rewrite (spawns_disposedByClear (if fill then Mesh else Line) st).
    + destruct fill; reflexivity.
    + apply (reachable_call env (DrawTriangle x1 y1 x2 y2 x3 y3 r g b fill)), R.
    + apply drawTriangle_spawns.
    + destruct fill; auto.
Qed.

Lemma drawn_shapes_disposed_by_clear_witness :
  reachable started
  /\ disposedByClear started
       (drawTriangle (num 0) (num 0) (num 40) (num 0) (num 20) (num 30)
          (num 255) (num 255) (num 0) false started)
     = (Some false, Some false).
Proof.
  split; [exact started_reachable |].
  apply (proj2 (proj2 (drawn_shapes_disposed_by_clear started started_reachable))).
Defined.

(** X14. [clear] absorbs itself and the text: clearing twice is clearing
    once, and a text drawn before [clear] leaves no trace after it. *)
Theorem clear_absorbs (env : Env) (st : State) (x y : number) (text : string)
    (size r g b : number) :
  clear (clear st) = clear st
  /\ clear (drawText env x y text size r g b st) = clear st.
Proof.
  split.
  - unfold clear. cbn [sceneObjects scene textContext withTextContext withSceneObjects
                       withScene foldl container camera rendererSize attached listeners
                       mouse currentHoverPosition selectedTowerType groundPlane
                       towerPreviewMesh rangePreviewMesh invalidPlacementMesh textCanvas].
    destruct (textContext st); reflexivity.
  - unfold drawText. destruct (textContext st) eqn:E; [| reflexivity].
    unfold clear. cbn [sceneObjects scene textContext withTextContext withSceneObjects
                       withScene container camera rendererSize attached listeners
                       mouse currentHoverPosition selectedTowerType groundPlane
                       towerPreviewMesh rangePreviewMesh invalidPlacementMesh textCanvas].
    rewrite E. reflexivity.
Qed.

(** ** The tower preview *)

Ltac lookup_updates :=
  rewrite ?updateObject_lookup;
  repeat first [ rewrite decide_True by reflexivity
               | rewrite decide_False by (first [assumption | apply not_eq_sym; assumption]) ].

(** X15. In a reachable state whose preview primitives exist,
    [drawTowerPreview] with non-negative coordinates puts the placement
    cube and the invalid-placement marker above the world point of the game
    position, at heights 15 and 10; the marker is visible exactly when the
    tower cannot be placed; when it cannot, the range disc is hidden and
    the cube is red; when it can and the range is positive, the disc lies
    at height 0.5 with the scale [range / 100]. *)
Theorem drawTowerPreview_places
    (st : State) (x y range : number) (canPlace : bool) (tower disc marker : handle) :
  reachable st ->
  towerPreviewMesh st = Some tower -> rangePreviewMesh st = Some disc ->
  invalidPlacementMesh st = Some marker ->
  (x >=? num 0)%number = true -> (y >=? num 0)%number = true ->
  let st' := drawTowerPreview x y canPlace range st in
  let w := gameToWorldCoords x y in
  position <$> objects (scene st') !! tower = Some (mkVec3 (x3 w) (num 15) (z3 w))
  /\ position <$> objects (scene st') !! marker = Some (mkVec3 (x3 w) (num 10) (z3 w))
  /\ visible <$> objects (scene st') !! marker = Some (negb canPlace)
  /\ (canPlace = false ->
      visible <$> objects (scene st') !! disc = Some false
      /\ exists o mat, objects (scene st') !! tower = Some o /\ material o = One mat
                       /\ color <$> materials (scene st') !! mat = Some red)
  /\ (canPlace = true -> (range >? num 0)%number = true ->
      position <$> objects (scene st') !! disc = Some (mkVec3 (x3 w) (dec 1 2) (z3 w))
      /\ scale <$> objects (scene st') !! disc
         = Some (mkVec3 (range / num 100) (range / num 100) (range / num 100))%number).
Proof.
  intros R Pt Pd Pm Hx Hy st' w. pose proof (reachable_Inv st R) as I.
  destruct (inv_preview st I tower Pt)
    as (d & m & g & mat & Pd' & Pm' & N1 & N2 & N3 & Kt & [kd Kd] & [km Km]).
  rewrite Pd in Pd'. injection Pd' as <-. rewrite Pm in Pm'. injection Pm' as <-.
  assert (Hmat : (mat < length (materials (scene st)))%nat).
  { destruct (inv_resources st I tower _ _ _ Kt) as [_ Hm]. apply Hm.
    cbn. apply list_elem_of_singleton. reflexivity. }
  rewrite keys_lookup in Kt, Kd, Km.
  destruct (objects (scene st) !! tower) as [ot |] eqn:Ot; [| discriminate].
  destruct (objects (scene st) !! disc) as [od |] eqn:Od; [| discriminate].
  destruct (objects (scene st) !! marker) as [om |] eqn:Om; [| discriminate].
  injection Kt as _ _ Mt.
  change (num 15) with (num 30 / num 2)%number.
  unfold st', drawTowerPreview.
  rewrite (ge_zero_not_lt x Hx), (ge_zero_not_lt y Hy), Pt, Pd, Pm.
  cbn [orb scene withScene]. fold w.
  set (sc1 := updateObject tower (setVisible true)
                (updateObject tower
                   (setPosition (mkVec3 (x3 w) (num 30 / num 2)%number (z3 w)))
                   (scene st))).
  assert (O1t : objects sc1 !! tower
                = Some (setVisible true
                          (setPosition (mkVec3 (x3 w) (num 30 / num 2)%number (z3 w)) ot))).
  { unfold sc1. lookup_updates. rewrite Ot. reflexivity. }
  assert (O1d : objects sc1 !! disc = Some od).
  { unfold sc1. lookup_updates. exact Od. }
  assert (O1m : objects sc1 !! marker = Some om).
  { unfold sc1. lookup_updates. exact Om. }
  set (sc2 := setMaterialColor tower (if canPlace then accent else red) sc1).
  assert (O2 : objects sc2 = objects sc1) by apply setMaterialColor_frame.
  assert (M2 : materials sc2
               = alter (setColor (if canPlace then accent else red)) mat
                   (materials (scene st))).
  { unfold sc2, setMaterialColor. rewrite O1t. cbn [material setVisible setPosition].
    rewrite Mt. reflexivity. }
  assert (Ot2 : objects sc2 !! tower
                = Some (setVisible true
                          (setPosition (mkVec3 (x3 w) (num 30 / num 2)%number (z3 w)) ot)))
    by (rewrite O2; assumption).
  assert (Od2 : objects sc2 !! disc = Some od) by (rewrite O2; assumption).
  assert (Om2 : objects sc2 !! marker = Some om) by (rewrite O2; assumption).
  clear O2 O1t O1d O1m. clearbody sc2. clear sc1.
  destruct canPlace; cbn [andb negb]; [destruct (range >? num 0)%number |];
    (split; [| split; [| split; [| split]]]);
    try (intros; discriminate);
    try (lookup_updates; rewrite ?Ot2, ?Od2, ?Om2; reflexivity).
  - intros _ _. split; lookup_updates; rewrite Od2; reflexivity.
  - intros _. split.
    + lookup_updates. rewrite Od2. reflexivity.
    + eexists _, mat. split; [| split].
      * lookup_updates. exact Ot2.
      * exact Mt.
      * cbn [materials updateObject]. rewrite M2, list_lookup_alter_eq.
        destruct (lookup_lt_is_Some_2 _ _ Hmat) as [m0 ->]. reflexivity.
Qed.

Lemma drawTowerPreview_places_witness :
  reachable started
  /\ (num 140 >=? num 0)%number = true /\ (num 80 >=? num 0)%number = true
  /\ visible <$> objects (scene (drawTowerPreview (num 140) (num 80) false (num 100) started))
                 !! 8%nat = Some true.
Proof.
  split; [exact started_reachable |]. split; [reflexivity |]. split; [reflexivity |].
  apply (drawTowerPreview_places started (num 140) (num 80) (num 100) false
           6%nat 7%nat 8%nat started_reachable eq_refl eq_refl eq_refl eq_refl eq_refl).
Defined.

(** ** Initialisation and resizing *)

Lemma createGroundPlane_objects (st : State) :
  let a := length (objects (scene st)) in
  let ng := length (geometries (scene st)) in
  let nm := length (materials (scene st)) in
  objects (scene (createGroundPlane st)) =
    objects (scene st) ++
    [ mkObject Mesh (Some ng) (One nm) true origin ones [];
      mkObject GridHelper None NoMaterial true (mkVec3 (num 0) (dec 1 10) (num 0)) ones [];
      mkObject Mesh (Some (ng + 1)) (One (nm + 1)) false origin ones [];
      mkObject Mesh (Some (ng + 2)) (One (nm + 2)) false origin ones [];
      mkObject Group None NoMaterial false origin ones [a + 5; a + 6];
      mkObject Mesh (Some (ng + 3)) (One (nm + 3)) true origin ones [];
      mkObject Mesh (Some (ng + 4)) (One (nm + 3)) true origin ones [] ]%nat.
Proof.
  intros a ng nm. subst a ng nm.
  unfold createGroundPlane, createTowerPreviewMeshes.
  cbn -[num dec Number.mul originalWidth originalHeight].
  do 8 (rewrite ?length_alter, ?length_app, <- ?app_assoc; cbn [length app];
        rewrite <- ?Nat.add_assoc; cbn [Nat.add];
        rewrite ?alter_app_r; cbn [alter list_alter]).
  reflexivity.
Qed.

Lemma container_setupEventListeners (s : State) :
  container (setupEventListeners s) = container s.
Proof. reflexivity. Qed.

(** X16. What a successful [initialize] builds, from any state: the
    ground plane, the grid and the three preview primitives become the
    last five children of the scene, nothing is removed, and the objects
    that existed are untouched; the ground plane is visible, the three
    preview primitives are hidden, and the invalid-placement marker is a
    group of two boxes; the seven listeners are registered after those
    that were; the renderer takes the client size of the container. *)
Theorem initialize_builds_board (env : Env) (st : State) (e : Element) :
  document env !! containerId = Some e ->
  let a := length (objects (scene st)) in
  let st' := fst (initialize env st) in
  (groundPlane st' = Some a /\ towerPreviewMesh st' = Some (a + 2)%nat
   /\ rangePreviewMesh st' = Some (a + 3)%nat /\ invalidPlacementMesh st' = Some (a + 4)%nat)
  /\ children (scene st') = children (scene st) ++ [a; a + 1; a + 2; a + 3; a + 4]%nat
  /\ (forall h, (h < a)%nat -> objects (scene st') !! h = objects (scene st) !! h)
  /\ (visible <$> objects (scene st') !! a = Some true
      /\ visible <$> objects (scene st') !! (a + 2)%nat = Some false
      /\ visible <$> objects (scene st') !! (a + 3)%nat = Some false
      /\ visible <$> objects (scene st') !! (a + 4)%nat = Some false
      /\ parts <$> objects (scene st') !! (a + 4)%nat = Some [a + 5; a + 6]%nat)
  /\ listeners st'
     = listeners st ++ ["mousemove"; "mouseleave"; "click";
                        "touchstart"; "touchmove"; "touchend"; "resize"]%string
  /\ sceneObjects st' = sceneObjects st
  /\ rendererSize st' = (clientWidth e, clientHeight e).
Proof.
  intros F a st'.
  destruct (initialize_found_fields env st e F)
    as (_ & C & T & L & G & P1 & P2 & P3 & _).
  fold a st' in C, T, L, G, P1, P2, P3.
  split; [auto |]. split; [exact C |].
  assert (O : objects (scene st')
              = objects (scene st) ++
                [ mkObject Mesh (Some (length (geometries (scene st))))
                    (One (length (materials (scene st)))) true origin ones [];
                  mkObject GridHelper None NoMaterial true
                    (mkVec3 (num 0) (dec 1 10) (num 0)) ones [];
                  mkObject Mesh (Some (length (geometries (scene st)) + 1))
                    (One (length (materials (scene st)) + 1)) false origin ones [];
                  mkObject Mesh (Some (length (geometries (scene st)) + 2))
                    (One (length (materials (scene st)) + 2)) false origin ones [];
                  mkObject Group None NoMaterial false origin ones [a + 5; a + 6];
                  mkObject Mesh (Some (length (geometries (scene st)) + 3))
                    (One (length (materials (scene st)) + 3)) true origin ones [];
                  mkObject Mesh (Some (length (geometries (scene st)) + 4))
                    (One (length (materials (scene st)) + 3)) true origin ones [] ]%nat).
  { unfold st', a.
    destruct (initialize_found env st e F) as (st1 & S & _ & _ & _ & _ & ->).
    destruct (handleResize_fields env (setupEventListeners (createGroundPlane st1)))
      as (-> & _).
    destruct (setupEventListeners_fields (createGroundPlane st1)) as (-> & _).
    rewrite createGroundPlane_objects, S. reflexivity. }
  assert (Size : rendererSize st' = (clientWidth e, clientHeight e)).
  { unfold st'.
    destruct (initialize_found env st e F) as (st1 & _ & _ & _ & _ & Cn & ->).
    destruct (listeners_createGroundPlane st1) as (_ & _ & Cg).
    unfold handleResize.
    rewrite (container_setupEventListeners (createGroundPlane st1)), Cg, Cn.
    unfold clientSize. rewrite F. reflexivity. }
  split; [| split; [| split; [exact L | split; [exact T | exact Size]]]].
  - intros h Hlt. rewrite O. apply lookup_app_l. exact Hlt.
  - assert (Look : forall k, objects (scene st') !! (a + k)%nat
                       = (drop (length (objects (scene st))) (objects (scene st'))) !! k).
    { intros k. rewrite lookup_drop. reflexivity. }
    pose proof (Look 0%nat) as L0. rewrite Nat.add_0_r in L0.
    rewrite L0, !Look, O, drop_app_length. repeat split.
Qed.

Lemma initialize_builds_board_witness :
  document (browser WasmLoader noHit) !! containerId = Some (mkElement (num 800) (num 600))
  /\ visible <$> objects (scene started) !! 6%nat = Some false
  /\ rendererSize started = (num 800, num 600).
Proof.
  split; [reflexivity |].
  pose proof (initialize_builds_board (browser WasmLoader noHit)
                (constructor (browser WasmLoader noHit))
                (mkElement (num 800) (num 600)) eq_refl) as H.
  split; [exact (proj1 (proj2 (proj1 (proj2 (proj2 (proj2 H))))))
         | exact (proj2 (proj2 (proj2 (proj2 (proj2 (proj2 H))))))].
Defined.

Lemma binary_round_aux_opp (s : bool) (m e : Z) (l : location) :
  SFopp (binary_round_aux prec emax s m e l) = binary_round_aux prec emax (negb s) m e l.
Proof.
  unfold binary_round_aux.
  destruct (shr_fexp prec emax m e l) as [mrs e'].
  destruct (shr_fexp prec emax _ e' loc_Exact) as [mrs' e''].
  destruct (shr_m mrs'); [reflexivity | | reflexivity].
  destruct (e'' <=? emax - prec); reflexivity.
Qed.

Lemma div_neg_two (x : number) : (x / num (-2) = - (x / num 2))%number.
Proof.
  change (num (-2)) with (S754_finite true 4503599627370496 (-51)).
  change (num 2) with (S754_finite false 4503599627370496 (-51)).
  unfold Number.div, Number.neg, SFdiv.
  destruct x as [s | s | | s m e]; [destruct s; reflexivity | destruct s; reflexivity | reflexivity |].
  destruct (SFdiv_core_binary prec emax (Zpos m) e 4503599627370496 (-51))
    as [[mz ez] lz].
  rewrite binary_round_aux_opp. destruct s; reflexivity.
Qed.

(** X17. The orthographic frustum set by the constructor and by
    [handleResize] is symmetric for every aspect ratio, infinities and NaN
    included: the left edge is the opposite of the right edge, the top is
    300 and the bottom is -300.  The constructor uses the ratio 800 / 600,
    [handleResize] the ratio of the client width and height of the
    container. *)
Theorem frustum_symmetric (aspectRatio : number) (env : Env) (st : State) :
  camLeft (frustum aspectRatio) = (- camRight (frustum aspectRatio))%number
  /\ camTop (frustum aspectRatio) = num 300
  /\ camBottom (frustum aspectRatio) = num (-300)
  /\ camera (constructor env) = frustum (originalWidth / originalHeight)%number
  /\ (forall id, container st = Some id ->
        camera (handleResize env st)
        = frustum (clientWidth (clientSize env id) / clientHeight (clientSize env id))%number).
Proof.
  split; [apply div_neg_two |]. split; [reflexivity |]. split; [reflexivity |].
  split; [reflexivity |].
  intros id C. unfold handleResize. rewrite C. reflexivity.
Qed.

(** X18. [handleResize] does not guard against a container without a
    layout box: when its client width and height are both 0 the aspect
    ratio is 0 / 0, and the left and right edges of the frustum become NaN,
    while the renderer and the text canvas are sized 0 by 0. *)
Theorem handleResize_zero_container (env : Env) (st : State) (id : string) :
  container st = Some id ->
  clientWidth (clientSize env id) = num 0 -> clientHeight (clientSize env id) = num 0 ->
  let st' := handleResize env st in
  camLeft (camera st') = Number.NaN /\ camRight (camera st') = Number.NaN
  /\ camTop (camera st') = num 300 /\ camBottom (camera st') = num (-300)
  /\ rendererSize st' = (num 0, num 0) /\ textCanvas st' = (num 0, num 0).
Proof.
  intros C W H st'. unfold st', handleResize. rewrite C, W, H.
  repeat split.
Qed.

Lemma handleResize_zero_container_witness :
  container started = Some containerId
  /\ clientWidth (clientSize (mkEnv ∅ true NoGameApp canvasRect noHit noProjection)
                    containerId) = num 0
  /\ camLeft (camera (handleResize (mkEnv ∅ true NoGameApp canvasRect noHit noProjection)
                        started)) = Number.NaN.
Proof.
  split; [reflexivity |]. split; [reflexivity |].
  apply (handleResize_zero_container
           (mkEnv ∅ true NoGameApp canvasRect noHit noProjection) started containerId);
    reflexivity.
Defined.

(** ** The selected tower type *)

Ltac step_pairs :=
  repeat match goal with
         | |- context [match ?e with pair _ _ => _ end] => destruct e; cbv beta iota zeta
         end.

Lemma createGroundPlane_setSelectedTowerType (t : number) (st : State) :
  createGroundPlane (setSelectedTowerType t st)
  = setSelectedTowerType t (createGroundPlane st).
Proof.
  unfold createGroundPlane. cbn [scene setSelectedTowerType].
  step_pairs. reflexivity.
Qed.

Lemma handleResize_setSelectedTowerType (env : Env) (t : number) (st : State) :
  handleResize env (setSelectedTowerType t st)
  = setSelectedTowerType t (handleResize env st).
Proof.
  unfold handleResize. cbn [container setSelectedTowerType].
  destruct (container st); reflexivity.
Qed.

Lemma setupEventListeners_setSelectedTowerType (t : number) (st : State) :
  setupEventListeners (setSelectedTowerType t st)
  = setSelectedTowerType t (setupEventListeners st).
Proof. reflexivity. Qed.

Lemma initialize_setSelectedTowerType (env : Env) (t : number) (st : State) :
  initialize env (setSelectedTowerType t st)
  = (setSelectedTowerType t (fst (initialize env st)), snd (initialize env st)).
Proof.
  unfold initialize. cbv zeta.
  destruct (document env !! containerId); cbn [fst snd]; [| reflexivity].
  match goal with
  | |- (handleResize env (setupEventListeners (createGroundPlane ?s1)), _)
       = (setSelectedTowerType t
            (handleResize env (setupEventListeners (createGroundPlane ?s2))), _) =>
      change s1 with (setSelectedTowerType t s2)
  end.
  rewrite createGroundPlane_setSelectedTowerType.
  rewrite setupEventListeners_setSelectedTowerType.
  rewrite handleResize_setSelectedTowerType. reflexivity.
Qed.

Lemma screenToWorld_setSelectedTowerType (env : Env) (x y t : number) (st : State) :
  screenToWorld env x y (setSelectedTowerType t st)
  = (setSelectedTowerType t (fst (screenToWorld env x y st)),
     snd (screenToWorld env x y st)).
Proof.
  unfold screenToWorld. cbn [groundPlane setSelectedTowerType].
  destruct (groundPlane st); [| reflexivity].
  cbn [camera withMouse setSelectedTowerType].
  destruct (intersectObject env _ _); reflexivity.
Qed.

Lemma hoverAt_setSelectedTowerType (env : Env) (x y t : number) (st : State) :
  hoverAt env x y (setSelectedTowerType t st)
  = setSelectedTowerType t (hoverAt env x y st).
Proof.
  unfold hoverAt. rewrite screenToWorld_setSelectedTowerType.
  destruct (screenToWorld env x y st) as [st1 [w |]]; reflexivity.
Qed.

Lemma dispatch_setSelectedTowerType (env : Env) (ev : Event) (t : number) (st : State) :
  dispatch env ev (setSelectedTowerType t st)
  = (setSelectedTowerType t (fst (dispatch env ev st)), snd (dispatch env ev st)).
Proof.
  destruct ev as [x y | | x y | ts | ts | |]; cbn [dispatch fst snd].
  - unfold handleMouseMove. rewrite hoverAt_setSelectedTowerType. reflexivity.
  - reflexivity.
  - unfold handleClick. rewrite screenToWorld_setSelectedTowerType.
    destruct (screenToWorld env x y st) as [st1 [w |]];
      [destruct (hasWasmLoader env) |]; reflexivity.
  - destruct ts as [| u [| u' ts]]; cbn [handleTouchStart];
      rewrite ?hoverAt_setSelectedTowerType; reflexivity.
  - destruct ts as [| u [| u' ts]]; cbn [handleTouchMove];
      rewrite ?hoverAt_setSelectedTowerType; reflexivity.
  - reflexivity.
  - rewrite handleResize_setSelectedTowerType. reflexivity.
Qed.

(** X19. The selected tower type is stored and never read: setting it
    commutes with every other call, so it changes neither the state any
    call leaves (the stored type apart) nor what [initialize] returns or
    throws, nor the clicks an event forwards to the game. *)
Theorem selectedTowerType_never_read (env : Env) (c : Call) (t : number) (st : State) :
  (forall t', c <> SetSelectedTowerType t') ->
  call env c (setSelectedTowerType t st) = setSelectedTowerType t (call env c st)
  /\ snd (initialize env (setSelectedTowerType t st)) = snd (initialize env st)
  /\ (forall ev, snd (dispatch env ev (setSelectedTowerType t st))
                 = snd (dispatch env ev st)).
Proof.
  intros N. split; [| split].
  - destruct c; cbn [call].
    + rewrite initialize_setSelectedTowerType. reflexivity.
    + reflexivity.
    + reflexivity.
    + reflexivity.
    + unfold drawCircle. destruct (skipCircle y radius fill); reflexivity.
    + reflexivity.
    + reflexivity.
    + unfold drawText. cbn [textContext setSelectedTowerType].
      destruct (textContext st); reflexivity.
    + unfold drawTowerPreview. destruct (_ || _); [reflexivity |].
      cbn [towerPreviewMesh rangePreviewMesh invalidPlacementMesh scene
           setSelectedTowerType].
      reflexivity.
    + contradiction (N type). reflexivity.
    + rewrite dispatch_setSelectedTowerType. reflexivity.
  - rewrite initialize_setSelectedTowerType. reflexivity.
  - intros ev. rewrite dispatch_setSelectedTowerType. reflexivity.
Qed.

Lemma selectedTowerType_never_read_witness :
  (forall t', Clear <> SetSelectedTowerType t')
  /\ clear (setSelectedTowerType (num 2) started)
     = setSelectedTowerType (num 2) (clear started).
Proof.
  split; [intros t'; discriminate |].
  apply (proj1 (selectedTowerType_never_read (browser WasmLoader noHit) Clear (num 2)
                  started (fun t' => ltac:(discriminate)))).
Defined.

(** ** From the pointer to the preview *)

Lemma drawTowerPreview_tower_position
    (st : State) (x y range : number) (canPlace : bool) (tower : handle) :
  reachable st -> towerPreviewMesh st = Some tower ->
  (x >=? num 0)%number = true -> (y >=? num 0)%number = true ->
  position <$> objects (scene (drawTowerPreview x y canPlace range st)) !! tower
  = Some (mkVec3 (x3 (gameToWorldCoords x y)) (num 15) (z3 (gameToWorldCoords x y))).
Proof.
  intros R Pt Hx Hy. pose proof (reachable_Inv st R) as I.
  destruct (inv_preview st I tower Pt)
    as (disc & marker & g & mat & Pd & Pm & N1 & N2 & N3 & Kt & _).
  rewrite keys_lookup in Kt.
  destruct (objects (scene st) !! tower) as [ot |] eqn:Ot; [| discriminate].
  change (num 15) with (num 30 / num 2)%number.
  unfold drawTowerPreview.
  rewrite (ge_zero_not_lt x Hx), (ge_zero_not_lt y Hy), Pt, Pd, Pm.
  cbn [orb scene withScene].
  set (sc1 := updateObject tower (setVisible true)
                (updateObject tower
                   (setPosition (mkVec3 (x3 (gameToWorldCoords x y)) (num 30 / num 2)%number
                                        (z3 (gameToWorldCoords x y))))
                   (scene st))).
  assert (O1 : objects sc1 !! tower
               = Some (setVisible true
                         (setPosition (mkVec3 (x3 (gameToWorldCoords x y))
                                              (num 30 / num 2)%number
                                              (z3 (gameToWorldCoords x y))) ot))).
  { unfold sc1. lookup_updates. rewrite Ot. reflexivity. }
  set (sc2 := setMaterialColor tower (if canPlace then accent else red) sc1).
  assert (O2 : objects sc2 !! tower
               = Some (setVisible true
                         (setPosition (mkVec3 (x3 (gameToWorldCoords x y))
                                              (num 30 / num 2)%number
                                              (z3 (gameToWorldCoords x y))) ot))).
  { unfold sc2. rewrite (proj1 (proj2 (setMaterialColor_frame _ _ _))). exact O1. }
  clearbody sc2. clear O1 sc1.
  destruct (canPlace && (range >? num 0)%number);
    lookup_updates; rewrite O2; reflexivity.
Qed.

(** X20. The preview follows the pointer: after a pointer move whose ray
    hits the ground plane at a point with coordinates between -2^47 and
    2^47, drawing the tower preview at the stored hover position (when both
    of its coordinates are at least 0) puts the placement cube exactly
    above the grid-snapped hit point, at height 15. *)
Theorem preview_follows_pointer
    (env : Env) (x y range : number) (canPlace : bool) (st : State)
    (point : Vec3) (rest : list Vec3) (tower : handle) :
  reachable st -> is_Some (groundPlane st) -> towerPreviewMesh st = Some tower ->
  intersectObject env (mouse (fst (screenToWorld env x y st))) (camera st)
    = point :: rest ->
  inRange (x3 point) = true -> inRange (z3 point) = true ->
  let st1 := handleMouseMove env x y st in
  let hover := getHoverPosition st1 in
  (x2 hover >=? num 0)%number = true -> (y2 hover >=? num 0)%number = true ->
  position <$>
    objects (scene (drawTowerPreview (x2 hover) (y2 hover) canPlace range st1)) !! tower
  = Some (mkVec3 (snap (x3 point)) (num 15) (snap (z3 point))).
Proof.
  intros R [ground G] Pt Hit Hx Hz st1 hover Hhx Hhy.
  apply inRange_spec in Hx as (Vx & Lx & Gx). apply inRange_spec in Hz as (Vz & Lz & Gz).
  destruct (snap_cell _ Vx Lx Gx) as (i & Hi & Ei).
  destruct (snap_cell _ Vz Lz Gz) as (j & Hj & Ej).
  rewrite cellCentre_num in Ei, Ej by assumption.
  assert (W : snd (screenToWorld env x y st)
              = Some (mkVec3 (num (40 * i + 20)) (num 0) (num (40 * j + 20)))).
  { rewrite screenToWorld_result, G, Hit, Ei, Ej. reflexivity. }
  assert (Hov : hover = mkVec2 (num (40 * i + 420)) (num (40 * j + 320))).
  { unfold hover, st1, getHoverPosition, handleMouseMove.
    rewrite (hoverAt_hit env x y st _ W). cbn [x3 y3 z3].
    apply game_of_cell; assumption. }
  assert (R1 : reachable st1).
  { apply (reachable_call env (Dispatch (mousemove x y))), R. }
  assert (Pt1 : towerPreviewMesh st1 = Some tower).
  { destruct (quiet_hoverAt env x y st) as (_ & _ & _ & _ & _ & P & _).
    unfold st1, handleMouseMove. rewrite P. exact Pt. }
  rewrite (drawTowerPreview_tower_position st1 _ _ range canPlace tower R1 Pt1 Hhx Hhy).
  rewrite Hov, Ei, Ej. cbn [x2 y2]. unfold gameToWorldCoords. cbn [x3 z3].
  change (originalWidth / num 2)%number with (num 400).
  change (originalHeight / num 2)%number with (num 300).
  assert (B : 40 * 2 ^ 47 + 420 < 2 ^ 53) by reflexivity.
  rewrite !sub_num by lia. do 2 f_equal; f_equal; lia.
Qed.

Lemma preview_follows_pointer_witness :
  reachable started
  /\ inRange (dec (-2755) 10) = true /\ inRange (dec 1001 10) = true
  /\ position <$>
       objects (scene (drawTowerPreview
                         (x2 (getHoverPosition
                                (handleMouseMove
                                   (browser WasmLoader
                                      (hitAt (mkVec3 (dec (-2755) 10) (num 0) (dec 1001 10))))
                                   (num 10) (num 10) started)))
                         (y2 (getHoverPosition
                                (handleMouseMove
                                   (browser WasmLoader
                                      (hitAt (mkVec3 (dec (-2755) 10) (num 0) (dec 1001 10))))
                                   (num 10) (num 10) started)))
                         true (num 100)
                         (handleMouseMove
                            (browser WasmLoader
                               (hitAt (mkVec3 (dec (-2755) 10) (num 0) (dec 1001 10))))
                            (num 10) (num 10) started))) !! 6%nat
     = Some (mkVec3 (snap (dec (-2755) 10)) (num 15) (snap (dec 1001 10))).
Proof.
  split; [exact started_reachable |].
  split; [vm_compute; reflexivity |]. split; [vm_compute; reflexivity |].
  apply (preview_follows_pointer
           (browser WasmLoader (hitAt (mkVec3 (dec (-2755) 10) (num 0) (dec 1001 10))))
           (num 10) (num 10) (num 100) true started
           (mkVec3 (dec (-2755) 10) (num 0) (dec 1001 10)) [] 6%nat started_reachable).
  - eexists. vm_compute. reflexivity.
  - vm_compute. reflexivity.
  - reflexivity.
  - vm_compute. reflexivity.
  - vm_compute. reflexivity.
  - vm_compute. reflexivity.
  - vm_compute. reflexivity.
Defined.

(** ** No disposed resource is drawn *)

Lemma length_partsOf (sc : Scene) : length (partsOf sc) = length (objects sc).
Proof. unfold partsOf. apply length_fmap. Qed.

Lemma length_gflags (sc : Scene) : length (gflags sc) = length (geometries sc).
Proof. unfold gflags. apply length_fmap. Qed.

Lemma length_mflags (sc : Scene) : length (mflags sc) = length (materials sc).
Proof. unfold mflags. apply length_fmap. Qed.

Lemma lookup_all_false (l : list bool) (i : nat) :
  Forall (fun b => b = false) l -> l !! i <> Some true.
Proof.
  intros F H. rewrite Forall_forall in F.
  apply list_elem_of_lookup_2 in H. apply F in H. discriminate.
Qed.

(** Adding fresh objects with fresh, undisposed resources keeps the
    invariant of disposal. *)
Lemma Inv2_grows ks pss gs ms cs ts (st st' : State) :
  Inv st -> Inv2 st -> grows ks pss gs ms cs ts st st' ->
  Forall (fun b => b = false) gs -> Forall (fun b => b = false) ms ->
  (forall i k g rs, ks !! i = Some (k, g, rs) ->
     (forall x, g = Some x -> length (geometries (scene st)) <= x)%nat
     /\ (forall m, m ∈ refs rs -> length (materials (scene st)) <= m)%nat) ->
  Forall (fun c => length (objects (scene st)) <= c)%nat cs ->
  Forall (fun t => length (objects (scene st)) <= t)%nat ts ->
  (forall ps p, ps ∈ pss -> p ∈ ps ->
     (length (objects (scene st)) <= p < length (objects (scene st)) + length ks)%nat
     /\ (p ∉ ts)) ->
  Inv2 st'.
Proof.
  intros I [D P] (K & PS & G & M & C & T) Fg Fm New Fc Ft Parts.
  rewrite Forall_forall in Fc, Ft.
  assert (Len : length (objects (scene st'))
                = (length (objects (scene st)) + length ks)%nat).
  { rewrite <- !length_keys, K, length_app. reflexivity. }
  assert (OldPart : forall h, isPart (scene st') h ->
            isPart (scene st) h
            \/ exists ps, ps ∈ pss /\ h ∈ ps).
  { intros h (q & ps & Hq & Hin). rewrite PS in Hq.
    apply lookup_app_Some in Hq as [Hq | [_ Hq]].
    - left. exists q, ps. auto.
    - right. exists ps. split; [eapply list_elem_of_lookup_2, Hq | exact Hin]. }
  split.
  - intros h (k & g & rs & Hk & Hd). rewrite K in Hk.
    apply lookup_app_Some in Hk as [Hk | [_ Hk]].
    + destruct (inv_resources st I h _ _ _ Hk) as [Rg Rm].
      assert (U : usesDisposed (scene st) h).
      { exists k, g, rs. split; [exact Hk |].
        destruct Hd as [(x & -> & Hx) | (m & Hm & Hx)]; [left | right].
        - exists x. split; [reflexivity |].
          rewrite G, lookup_app_l in Hx; [exact Hx |].
          rewrite length_gflags. apply Rg. reflexivity.
        - exists m. split; [exact Hm |].
          rewrite M, lookup_app_l in Hx; [exact Hx |].
          rewrite length_mflags. apply Rm, Hm. }
      destruct (D h U) as (Hc & Ht & Hp).
      assert (Hlt : (h < length (objects (scene st)))%nat).
      { rewrite <- length_keys. eapply lookup_lt_Some, Hk. }
      rewrite C, T, !not_elem_of_app. repeat split; auto.
      * intros H. apply Fc in H. lia.
      * intros H. apply Ft in H. lia.
      * intros H. apply OldPart in H as [H | (ps & Hps & Hin)]; [auto |].
        destruct (Parts ps h Hps Hin) as [? _]. lia.
    + exfalso. destruct (New _ _ _ _ Hk) as [Ng Nm].
      destruct Hd as [(x & -> & Hx) | (m & Hm & Hx)].
      * rewrite G in Hx. apply lookup_app_Some in Hx as [Hx | [_ Hx]].
        -- apply lookup_lt_Some in Hx. rewrite length_gflags in Hx.
           specialize (Ng x eq_refl). lia.
        -- exact (lookup_all_false gs _ Fg Hx).
      * rewrite M in Hx. apply lookup_app_Some in Hx as [Hx | [_ Hx]].
        -- apply lookup_lt_Some in Hx. rewrite length_mflags in Hx.
           specialize (Nm m Hm). lia.
        -- exact (lookup_all_false ms _ Fm Hx).
  - intros h H. rewrite Len, T, not_elem_of_app.
    apply OldPart in H as [H | (ps & Hps & Hin)].
    + destruct (P h H) as [Ht Hlt]. repeat split; [exact Ht | | lia].
      intros Hin. apply Ft in Hin. lia.
    + destruct (Parts ps h Hps Hin) as [Hb Hts]. repeat split; [| exact Hts | lia].
      intros Hin'. pose proof (Inv_tracked_valid st h I Hin') as V.
      rewrite length_keys in V. lia.
Qed.

(** The resources of an object that is not tracked are as they were
    after [clear]. *)
Lemma clear_untracked_flags (st : State) (h : handle) k g rs :
  Inv st -> h ∉ sceneObjects st -> keys (scene st) !! h = Some (k, g, rs) ->
  (forall x, g = Some x -> gflags (scene (clear st)) !! x = gflags (scene st) !! x)
  /\ (forall m, m ∈ refs rs -> mflags (scene (clear st)) !! m = mflags (scene st) !! m).
Proof.
  intros I Hout Hk. rewrite keys_lookup in Hk.
  destruct (objects (scene st) !! h) as [o |] eqn:Ho; [| discriminate].
  injection Hk as <- <- <-.
  destruct (untracked_resources st h o I Hout Ho) as [Ug Um].
  destruct (clear_scene st) as (-> & _).
  unfold gflags, mflags. split.
  - intros x Hx. rewrite !list_lookup_fmap. f_equal.
    apply clear_geometry. intros h' ms' Hin. apply (Ug x Hx h' ms' Hin).
  - intros m Hm. rewrite !list_lookup_fmap. f_equal.
    apply clear_material. intros h' g' ms' Hin Hk'. apply (Um m Hm h' g' ms' Hin Hk').
Qed.

Lemma Inv2_clear (st : State) : Inv st -> Inv2 st -> Inv2 (clear st).
Proof.
  intros I [D P].
  destruct (clear_scene st) as (S & T & _).
  destruct (clear_frame (sceneObjects st) (scene st)) as (O & _ & _ & C).
  pose proof (clear_keys (sceneObjects st) (scene st)) as K.
  rewrite <- S in O, C, K.
  assert (PS : partsOf (scene (clear st)) = partsOf (scene st)).
  { unfold partsOf. rewrite O. reflexivity. }
  assert (Part : forall h, isPart (scene (clear st)) h <-> isPart (scene st) h).
  { intros h. unfold isPart. rewrite PS. reflexivity. }
  split.
  - intros h (k & g & rs & Hk & Hd). rewrite K in Hk. rewrite T, Part.
    destruct (decide (h ∈ sceneObjects st)) as [Hin | Hout].
    + split; [| split].
      * intros Hc. apply C in Hc as [_ Hc]. contradiction.
      * apply not_elem_of_nil.
      * intros Hp. apply P in Hp as [Hp _]. contradiction.
    + destruct (clear_untracked_flags st h k g rs I Hout Hk) as [Eg Em].
      assert (U : usesDisposed (scene st) h).
      { exists k, g, rs. split; [exact Hk |].
        destruct Hd as [(x & -> & Hx) | (m & Hm & Hx)]; [left | right].
        - exists x. split; [reflexivity |]. rewrite <- Eg by reflexivity. exact Hx.
        - exists m. split; [exact Hm |]. rewrite <- Em by exact Hm. exact Hx. }
      destruct (D h U) as (Hc & _ & Hp).
      split; [| split; [apply not_elem_of_nil | exact Hp]].
      intros Hc'. apply C in Hc' as [Hc' _]. contradiction.
  - intros h Hp. apply Part in Hp. rewrite T, O.
    split; [apply not_elem_of_nil | apply P, Hp].
Qed.

Lemma fmap_alter_same {A B} (p : A -> B) (f : A -> A) (i : nat) (l : list A) :
  (forall a, p (f a) = p a) -> p <$> alter f i l = p <$> l.
Proof.
  intros Hf. rewrite (list_fmap_alter p f id).
  - apply list_alter_id. reflexivity.
  - apply Forall_forall. intros a _. apply Hf.
Qed.

Lemma grows_same (st st' : State) :
  quiet st st' ->
  partsOf (scene st') = partsOf (scene st) ->
  gflags (scene st') = gflags (scene st) ->
  mflags (scene st') = mflags (scene st) ->
  grows [] [] [] [] [] [] st st'.
Proof.
  intros (K & C & T & _) PS G M. unfold grows. rewrite !app_nil_r. auto 6.
Qed.

Lemma grows_scene (st st' : State) :
  quiet st st' -> scene st' = scene st -> grows [] [] [] [] [] [] st st'.
Proof. intros Q E. apply grows_same; [exact Q | | |]; rewrite E; reflexivity. Qed.

Lemma flags_updateObject (h : handle) (f : Object3D -> Object3D) (sc : Scene) :
  (forall o, parts (f o) = parts o) ->
  partsOf (updateObject h f sc) = partsOf sc
  /\ gflags (updateObject h f sc) = gflags sc
  /\ mflags (updateObject h f sc) = mflags sc.
Proof.
  intros Hf. split; [| split; reflexivity].
  unfold partsOf, updateObject. cbn [objects]. apply fmap_alter_same, Hf.
Qed.

Lemma flags_setMaterialColor (h : handle) (c : Color) (sc : Scene) :
  partsOf (setMaterialColor h c sc) = partsOf sc
  /\ gflags (setMaterialColor h c sc) = gflags sc
  /\ mflags (setMaterialColor h c sc) = mflags sc.
Proof.
  unfold setMaterialColor. destruct (objects sc !! h) as [o |]; [| auto].
  destruct (material o); auto.
  split; [reflexivity | split; [reflexivity |]].
  unfold mflags. cbn [materials]. apply fmap_alter_same. reflexivity.
Qed.

Lemma flags_hide (m : option handle) (sc : Scene) :
  partsOf (hide m sc) = partsOf sc
  /\ gflags (hide m sc) = gflags sc
  /\ mflags (hide m sc) = mflags sc.
Proof. destruct m; [apply flags_updateObject |]; auto. Qed.

Lemma flags_hidePreview (st : State) :
  partsOf (scene (hidePreview st)) = partsOf (scene st)
  /\ gflags (scene (hidePreview st)) = gflags (scene st)
  /\ mflags (scene (hidePreview st)) = mflags (scene st).
Proof.
  unfold hidePreview. cbn [scene withScene].
  destruct (flags_hide (invalidPlacementMesh st)
              (hide (rangePreviewMesh st) (hide (towerPreviewMesh st) (scene st))))
    as (-> & -> & ->).
  destruct (flags_hide (rangePreviewMesh st) (hide (towerPreviewMesh st) (scene st)))
    as (-> & -> & ->).
  apply flags_hide.
Qed.

Lemma partsOf_updateObject (h : handle) (f : Object3D -> Object3D) (sc : Scene) :
  (forall o, parts (f o) = parts o) -> partsOf (updateObject h f sc) = partsOf sc.
Proof. apply flags_updateObject. Qed.

Lemma gflags_updateObject (h : handle) (f : Object3D -> Object3D) (sc : Scene) :
  gflags (updateObject h f sc) = gflags sc.
Proof. reflexivity. Qed.

Lemma mflags_updateObject (h : handle) (f : Object3D -> Object3D) (sc : Scene) :
  mflags (updateObject h f sc) = mflags sc.
Proof. reflexivity. Qed.

Ltac flags_step :=
  first [ rewrite partsOf_updateObject by (intros []; reflexivity)
        | rewrite gflags_updateObject
        | rewrite mflags_updateObject
        | rewrite (proj1 (flags_setMaterialColor _ _ _))
        | rewrite (proj1 (proj2 (flags_setMaterialColor _ _ _)))
        | rewrite (proj2 (proj2 (flags_setMaterialColor _ _ _))) ].

Lemma flags_drawTowerPreview (x y : number) (canPlace : bool) (range : number)
    (st : State) :
  partsOf (scene (drawTowerPreview x y canPlace range st)) = partsOf (scene st)
  /\ gflags (scene (drawTowerPreview x y canPlace range st)) = gflags (scene st)
  /\ mflags (scene (drawTowerPreview x y canPlace range st)) = mflags (scene st).
Proof.
  unfold drawTowerPreview.
  destruct ((x <? num 0)%number || (y <? num 0)%number); [apply flags_hidePreview |].
  cbn [scene withScene].
  destruct (invalidPlacementMesh st) as [marker |],
           (rangePreviewMesh st) as [disc |],
           (towerPreviewMesh st) as [tower |],
           (canPlace && (range >? num 0)%number);
    repeat flags_step; auto.
Qed.

Lemma scene_hoverAt (env : Env) (x y : number) (st : State) :
  scene (hoverAt env x y st) = scene st.
Proof.
  unfold hoverAt. pose proof (screenToWorld_frame env x y st) as F.
  destruct (screenToWorld env x y st) as [st1 [w |]]; cbn [fst] in F;
    rewrite F; reflexivity.
Qed.

Lemma grows_dispatch (env : Env) (ev : Event) (st : State) :
  grows [] [] [] [] [] [] st (fst (dispatch env ev st)).
Proof.
  pose proof (quiet_dispatch env ev st) as Q.
  destruct ev as [x y | | x y | ts | ts | |]; cbn [dispatch fst] in *.
  - apply grows_scene; [exact Q | apply scene_hoverAt].
  - apply grows_same; [exact Q | | |]; apply (flags_hidePreview (withHover sentinel st)).
  - apply grows_scene; [exact Q |].
    unfold handleClick. pose proof (screenToWorld_frame env x y st) as F.
    destruct (screenToWorld env x y st) as [st1 [w |]]; cbn [fst] in F;
      [destruct (hasWasmLoader env) |]; cbn [fst]; rewrite F; reflexivity.
  - apply grows_scene; [exact Q |].
    destruct ts as [| t [| t' ts]]; cbn [handleTouchStart];
      [reflexivity | apply scene_hoverAt | reflexivity].
  - apply grows_scene; [exact Q |].
    destruct ts as [| t [| t' ts]]; cbn [handleTouchMove];
      [reflexivity | apply scene_hoverAt | reflexivity].
  - apply grows_scene; [exact Q | reflexivity].
  - apply grows_scene; [exact Q |]. apply handleResize_fields.
Qed.

Ltac parts_tac :=
  cbv beta delta [drawRect drawCircle drawLine drawTriangle track
                  newGeometry newMaterial newObject updateObject Scene_add
                  withScene withSceneObjects] iota zeta;
  cbn [scene objects fst snd];
  unfold partsOf; cbn [objects];
  rewrite ?(fmap_alter_same parts) by (intros []; reflexivity);
  rewrite fmap_app; reflexivity.

(** A draw call that tracks a primitive adds one object without parts,
    one undisposed geometry and one undisposed material. *)
Lemma spawns_grows (k : ObjKind) (st st' : State) :
  spawns k st st' ->
  partsOf (scene st') = partsOf (scene st) ++ [[]] ->
  grows [(k, Some (length (geometries (scene st))), One (length (materials (scene st))))]
        [[]] [false] [false]
        [length (objects (scene st))] [length (objects (scene st))] st st'.
Proof.
  intros (K & C & (s & G) & (mat & M & D) & T & _) PS.
  unfold grows, gflags, mflags. rewrite G, M, !fmap_app. cbn. rewrite D. auto 6.
Qed.

Lemma Inv2_spawns (k : ObjKind) (st st' : State) :
  Inv st -> Inv2 st -> spawns k st st' ->
  partsOf (scene st') = partsOf (scene st) ++ [[]] -> Inv2 st'.
Proof.
  intros I I2 S PS.
  eapply (Inv2_grows _ _ _ _ _ _ st st' I I2 (spawns_grows k st st' S PS)).
  - repeat constructor.
  - repeat constructor.
  - intros i k' g rs H. apply list_lookup_singleton_Some in H as [_ H].
    injection H as <- <- <-. split.
    + intros x [= <-]. lia.
    + intros m Hm. apply list_elem_of_singleton in Hm as ->. lia.
  - repeat constructor.
  - repeat constructor.
  - intros ps p Hps Hp. apply list_elem_of_singleton in Hps as ->.
    apply elem_of_nil in Hp. contradiction.
Qed.

Lemma createGroundPlane_resources (st : State) :
  gflags (scene (createGroundPlane st))
    = gflags (scene st) ++ [false; false; false; false; false]
  /\ mflags (scene (createGroundPlane st))
     = mflags (scene st) ++ [false; false; false; false].
Proof.
  unfold createGroundPlane, createTowerPreviewMeshes, gflags, mflags.
  cbn -[num dec Number.mul originalWidth originalHeight].
  rewrite <- !app_assoc. cbn [app]. rewrite !fmap_app. split; reflexivity.
Qed.

Lemma Inv2_quiet (st st' : State) :
  Inv st -> Inv2 st -> grows [] [] [] [] [] [] st st' -> Inv2 st'.
Proof.
  intros I I2 G. apply (Inv2_grows [] [] [] [] [] [] st st' I I2 G).
  - constructor.
  - constructor.
  - intros i k g rs H. discriminate.
  - constructor.
  - constructor.
  - intros ps p H. apply elem_of_nil in H. contradiction.
Qed.

Lemma Inv2_initialize (env : Env) (st : State) :
  Inv st -> Inv2 st -> Inv2 (fst (initialize env st)).
Proof.
  intros I I2. destruct (document env !! containerId) as [e |] eqn:F.
  - destruct (initialize_found_fields env st e F) as (K & C & T & _).
    assert (R : partsOf (scene (fst (initialize env st)))
                = partsOf (scene st)
                  ++ [[]; []; []; []; [length (objects (scene st)) + 5;
                                       length (objects (scene st)) + 6]; []; []]%nat
                /\ gflags (scene (fst (initialize env st)))
                   = gflags (scene st) ++ [false; false; false; false; false]
                /\ mflags (scene (fst (initialize env st)))
                   = mflags (scene st) ++ [false; false; false; false]).
    { destruct (initialize_found env st e F) as (st1 & S & _ & _ & _ & _ & ->).
      destruct (handleResize_fields env (setupEventListeners (createGroundPlane st1)))
        as (-> & _).
      destruct (setupEventListeners_fields (createGroundPlane st1)) as (-> & _).
      destruct (createGroundPlane_resources st1) as (-> & ->).
      unfold partsOf. rewrite createGroundPlane_objects, fmap_app, S. auto. }
    destruct R as (PS & G & M).
    assert (Gr : grows
              [ (Mesh, Some (length (geometries (scene st))),
                 One (length (materials (scene st))));
                (GridHelper, None, NoMaterial);
                (Mesh, Some (length (geometries (scene st)) + 1),
                 One (length (materials (scene st)) + 1));
                (Mesh, Some (length (geometries (scene st)) + 2),
                 One (length (materials (scene st)) + 2));
                (Group, None, NoMaterial);
                (Mesh, Some (length (geometries (scene st)) + 3),
                 One (length (materials (scene st)) + 3));
                (Mesh, Some (length (geometries (scene st)) + 4),
                 One (length (materials (scene st)) + 3)) ]%nat
              [[]; []; []; []; [length (objects (scene st)) + 5;
                                length (objects (scene st)) + 6]; []; []]%nat
              [false; false; false; false; false] [false; false; false; false]
              [length (objects (scene st)); length (objects (scene st)) + 1;
               length (objects (scene st)) + 2; length (objects (scene st)) + 3;
               length (objects (scene st)) + 4]%nat
              [] st (fst (initialize env st))).
    { unfold grows. rewrite app_nil_r. auto 7. }
    apply (Inv2_grows _ _ _ _ _ _ st _ I I2 Gr).
    + repeat constructor.
    + repeat constructor.
    + intros i k g rs H.
      do 7 (destruct i as [| i]; [injection H as <- <- <-; split;
                                    [intros x [= <-] | intros m Hm; cbn in Hm;
                                       rewrite ?elem_of_nil, ?list_elem_of_singleton in Hm];
                                    try discriminate; try contradiction; subst; lia |]).
      discriminate.
    + repeat constructor; lia.
    + constructor.
    + intros ps p Hps Hp. cbn [length].
      rewrite !elem_of_cons, elem_of_nil in Hps.
      split; [| apply not_elem_of_nil].
      destruct Hps as [-> | [-> | [-> | [-> | [-> | [-> | [-> | []]]]]]]];
        rewrite ?elem_of_cons, ?elem_of_nil in Hp; try contradiction.
      destruct Hp as [-> | [-> | []]]; lia.
  - apply (Inv2_quiet st); [exact I | exact I2 |].
    apply grows_scene; [apply initialize_missing, F |].
    unfold initialize. rewrite F. reflexivity.
Qed.

Lemma Inv2_constructor (env : Env) : Inv2 (constructor env).
Proof.
  split.
  - intros h (k & g & rs & Hk & Hd). exfalso.
    destruct h as [| [| [| [| h]]]]; cbn in Hk; unfold key in Hk; cbn in Hk;
      simplify_eq;
      destruct Hd as [(x & Hx & _) | (m & Hm & _)];
      first [discriminate | apply elem_of_nil in Hm; contradiction].
  - intros h (q & ps & Hq & Hin). exfalso.
    destruct q as [| [| [| [| q]]]]; cbn in Hq; simplify_eq;
      apply elem_of_nil in Hin; contradiction.
Qed.

(** Every reachable state satisfies the invariant of disposal. *)
Lemma reachable_Inv2 (st : State) : reachable st -> Inv2 st.
Proof.
  induction 1 as [env | env c st R IH]; [apply Inv2_constructor |].
  pose proof (reachable_Inv st R) as I.
  destruct c; cbn [call].
  - apply Inv2_initialize; assumption.
  - apply Inv2_clear; assumption.
  - exact IH.
  - eapply Inv2_spawns; [exact I | exact IH | apply drawRect_spawns | parts_tac].
  - destruct (skipCircle y radius fill) eqn:S.
    + rewrite drawCircle_skipped by exact S. exact IH.
    + eapply Inv2_spawns; [exact I | exact IH | apply drawCircle_spawns, S |].
      unfold drawCircle. rewrite S. parts_tac.
  - eapply Inv2_spawns; [exact I | exact IH | apply drawLine_spawns | parts_tac].
  - eapply Inv2_spawns; [exact I | exact IH | apply drawTriangle_spawns |].
    destruct fill; parts_tac.
  - apply (Inv2_quiet st); [exact I | exact IH |].
    apply grows_scene; [apply quiet_drawText |].
    unfold drawText. destruct (textContext st); reflexivity.
  - apply (Inv2_quiet st); [exact I | exact IH |].
    apply grows_same; [apply quiet_drawTowerPreview | | |];
      apply flags_drawTowerPreview.
  - apply (Inv2_quiet st); [exact I | exact IH |].
    apply grows_scene; [repeat split | reflexivity].
  - apply (Inv2_quiet st); [exact I | exact IH | apply grows_dispatch].
Qed.

(** X21. Nothing that is drawn uses a disposed resource: in every
    reachable state, the geometry and the materials of each child of the
    scene, and of each part of a group among the children, are undisposed.
    [clear] disposes the resources of tracked meshes only, and takes those
    out of the scene in the same call. *)
Theorem shown_objects_are_intact (st : State) (h : handle) (o : Object3D) :
  reachable st -> shown (scene st) h -> objects (scene st) !! h = Some o ->
  (forall g, geometry o = Some g ->
     gdisposed <$> geometries (scene st) !! g = Some false)
  /\ (forall m, m ∈ refs (material o) ->
        mdisposed <$> materials (scene st) !! m = Some false).
Proof.
  intros R S Ho.
  pose proof (reachable_Inv st R) as I. pose proof (reachable_Inv2 st R) as I2.
  pose proof (keys_lookup_Some _ _ _ Ho) as Hk.
  destruct (inv_resources st I h _ _ _ Hk) as [Rg Rm].
  assert (N : ~ usesDisposed (scene st) h).
  { intros U. destruct (inv_disposed st I2 h U) as (Hc & _ & Hp).
    destruct S as [S | (q & ps & _ & Hq & Hin)]; [contradiction |].
    apply Hp. exists q, ps. auto. }
  split.
  - intros g Hg. specialize (Rg g Hg).
    destruct (lookup_lt_is_Some_2 _ _ Rg) as [x Hx]. rewrite Hx. cbn.
    destruct (gdisposed x) eqn:D; [| reflexivity].
    exfalso. apply N. exists (okind o), (geometry o), (material o).
    split; [exact Hk |]. left. exists g. split; [exact Hg |].
    unfold gflags. rewrite list_lookup_fmap, Hx. cbn. rewrite D. reflexivity.
  - intros m Hm. specialize (Rm m Hm).
    destruct (lookup_lt_is_Some_2 _ _ Rm) as [x Hx]. rewrite Hx. cbn.
    destruct (mdisposed x) eqn:D; [| reflexivity].
    exfalso. apply N. exists (okind o), (geometry o), (material o).
    split; [exact Hk |]. right. exists m. split; [exact Hm |].
    unfold mflags. rewrite list_lookup_fmap, Hx. cbn. rewrite D. reflexivity.
Qed.

Lemma shown_objects_are_intact_witness :
  reachable (clear (drawRect (num 40) (num 40) (num 30) (num 30)
                      (num 255) (num 0) (num 0) started))
  /\ shown (scene (clear (drawRect (num 40) (num 40) (num 30) (num 30)
                            (num 255) (num 0) (num 0) started))) 4%nat
  /\ gdisposed <$>
       geometries (scene (clear (drawRect (num 40) (num 40) (num 30) (num 30)
                                   (num 255) (num 0) (num 0) started))) !! 0%nat
     = Some false.
Proof.
  assert (R : reachable (clear (drawRect (num 40) (num 40) (num 30) (num 30)
                                  (num 255) (num 0) (num 0) started))).
  { apply (reachable_call (browser WasmLoader noHit) Clear).
    apply (reachable_call (browser WasmLoader noHit)
             (DrawRect (num 40) (num 40) (num 30) (num 30) (num 255) (num 0) (num 0))).
    exact started_reachable. }
  assert (S : shown (scene (clear (drawRect (num 40) (num 40) (num 30) (num 30)
                                     (num 255) (num 0) (num 0) started))) 4%nat).
  { left.
    assert (C : children (scene (clear (drawRect (num 40) (num 40) (num 30) (num 30)
                                          (num 255) (num 0) (num 0) started)))
                = [0; 1; 2; 3; 4; 5; 6; 7; 8]%nat) by (vm_compute; reflexivity).
    rewrite C, !elem_of_cons. auto 10. }
  split; [exact R |]. split; [exact S |].
  refine (proj1 (shown_objects_are_intact _ 4%nat
                   (mkObject Mesh (Some 0%nat) (One 0%nat) true origin ones []) R S _)
            0%nat eq_refl).
  vm_compute. reflexivity.
Defined.
